(** * split-bill-bot: the ledger, the split calculator and the settlement engine

    A shallow embedding of [app.py].  The SQLite tables are lists of rows,
    every handler is a function from the ledger and the incoming update to
    the new ledger and the reply.

    Amounts are rationals ([Q]): the value of a finite binary64 number is a
    rational, and the operations here are the exact ones.  Python computes
    in binary64, where a sum, a difference or a quotient is rounded and can
    overflow.  The statements that depend on the value of an amount
    therefore carry a hypothesis under which every operation the code
    performs on the amounts at hand is exact ([exact_balances],
    [exact_claims], [exact_bill]), or, where only termination is at stake,
    cannot overflow ([modest_bill]); [Binary64] has the binary64 operations
    themselves, for the cases where the two differ.  Texts are strings of
    bytes, which is what a Python [str] of ASCII characters is; statements
    about the splitting of a message say so ([Text.is_ascii]). *)

From Stdlib Require Import String Ascii.
From Stdlib Require Import ZArith QArith Qminmax Qabs Lqa Lia.
From Stdlib Require Import SpecFloat.
From Stdlib Require Import List Bool Permutation.
Import ListNotations.

Open Scope Q_scope.

(** ** Python dictionaries

    A [dict] keeps its keys in insertion order; assigning to an existing key
    keeps the position of the key. *)

Module Dict.

Section WithValue.
Context {V : Type}.

Fixpoint get (k : Z) (d : list (Z * V)) : option V :=
  match d with
  | [] => None
  | (k', v) :: d' => if Z.eqb k k' then Some v else get k d'
  end.

Definition mem (k : Z) (d : list (Z * V)) : bool :=
  match get k d with Some _ => true | None => false end.

(** [d[k] = v] *)
Fixpoint set (k : Z) (v : V) (d : list (Z * V)) : list (Z * V) :=
  match d with
  | [] => [(k, v)]
  | (k', v') :: d' =>
      if Z.eqb k k' then (k, v) :: d' else (k', v') :: set k v d'
  end.

Definition keys (d : list (Z * V)) : list Z := map fst d.
End WithValue.

End Dict.

(** ** The settlement engine: [minimize_transactions] *)

Module Settlement.

Definition transfer : Type := (Z * Z * Q)%type.

Definition tx_from (t : transfer) : Z := fst (fst t).
Definition tx_to (t : transfer) : Z := snd (fst t).
Definition tx_amount (t : transfer) : Q := snd t.

(** The literal [0.01]: the binary64 number nearest to 1/100, which is
    5764607523034235 / 2^59, a little above 1/100.  A double is at most (or
    below) the literal exactly when its value is at most (or below) this
    rational. *)
Definition eps : Q := 5764607523034235 # 576460752303423488.

Definition Qltb (a b : Q) : bool := negb (Qle_bool b a).

(** [[(uid, -amt) for uid, amt in balances.items() if amt < -0.01]] *)
Definition debtors_of (balances : list (Z * Q)) : list (Z * Q) :=
  map (fun p => (fst p, - snd p))
      (filter (fun p => Qltb (snd p) (- eps)) balances).

(** [[(uid, amt) for uid, amt in balances.items() if amt > 0.01]] *)
Definition creditors_of (balances : list (Z * Q)) : list (Z * Q) :=
  filter (fun p => Qltb eps (snd p)) balances.

(** [l.sort(key=lambda x: x[1], reverse=True)]: descending by magnitude and
    stable, elements of equal magnitude keep their original order. *)
Fixpoint insert_desc (x : Z * Q) (l : list (Z * Q)) : list (Z * Q) :=
  match l with
  | [] => [x]
  | y :: l' => if Qltb (snd x) (snd y) then y :: insert_desc x l' else x :: l
  end.

Fixpoint sort_desc (l : list (Z * Q)) : list (Z * Q) :=
  match l with
  | [] => []
  | x :: l' => insert_desc x (sort_desc l')
  end.

(** [l[i] = x]; the loop only assigns at an index it has just read. *)
Fixpoint list_set {A : Type} (i : nat) (x : A) (l : list A) : list A :=
  match l, i with
  | [], _ => []
  | _ :: l', O => x :: l'
  | y :: l', S i' => y :: list_set i' x l'
  end.

(** The [while] loop, one iteration per unit of fuel.  The loop condition
    [i < len(debtors) and j < len(creditors)] is the success of both
    lookups. *)
Fixpoint settle_loop (fuel : nat) (debtors creditors : list (Z * Q))
         (i j : nat) (txs : list transfer) : list transfer :=
  match fuel with
  | O => txs
  | S fuel' =>
      match nth_error debtors i, nth_error creditors j with
      | Some (duid, debt), Some (cuid, cred) =>
          let amount := Qmin debt cred in
          let txs := txs ++ [(duid, cuid, amount)] in
          let debt := debt - amount in
          let cred := cred - amount in
          let '(i, debtors) :=
            if Qle_bool debt eps then (S i, debtors)
            else (i, list_set i (duid, debt) debtors) in
          let '(j, creditors) :=
            if Qle_bool cred eps then (S j, creditors)
            else (j, list_set j (cuid, cred) creditors) in
          settle_loop fuel' debtors creditors i j txs
      | _, _ => txs
      end
  end.

(** Every iteration advances [i] or [j], so [len(debtors) + len(creditors)]
    iterations are enough ([minimize_transactions_fuel] below).  This is so for finite
    remainders, which the rationals are: the amount is one of the two
    remainders and brings it to zero.  Were both remainders infinite (sums
    that overflowed), the differences would be NaNs, which no comparison
    moves past, and the loop of the code would not end; such balances are
    outside the model, and [modest_bill] keeps a bill away from them. *)
Definition minimize_transactions (balances : list (Z * Q)) : list transfer :=
  let debtors := sort_desc (debtors_of balances) in
  let creditors := sort_desc (creditors_of balances) in
  settle_loop (length debtors + length creditors) debtors creditors 0 0 [].

(** *** Vocabulary of the settlement properties *)

Fixpoint total (l : list (Z * Q)) : Q :=
  match l with
  | [] => 0
  | (_, m) :: l' => m + total l'
  end.

Fixpoint tx_total (txs : list transfer) : Q :=
  match txs with
  | [] => 0
  | t :: txs' => tx_amount t + tx_total txs'
  end.

(** What user [u] sends, and what user [u] receives, over a transfer list. *)
Fixpoint flow (side : transfer -> Z) (u : Z) (txs : list transfer) : Q :=
  match txs with
  | [] => 0
  | t :: txs' => (if Z.eqb (side t) u then tx_amount t else 0) + flow side u txs'
  end.

Definition paid : Z -> list transfer -> Q := flow tx_from.
Definition received : Z -> list transfer -> Q := flow tx_to.

(** Sum of the positive balances, and of the magnitudes of the negative
    ones. *)
Fixpoint positive_total (balances : list (Z * Q)) : Q :=
  match balances with
  | [] => 0
  | (_, a) :: l => (if Qltb 0 a then a else 0) + positive_total l
  end.

Fixpoint negative_total (balances : list (Z * Q)) : Q :=
  match balances with
  | [] => 0
  | (_, a) :: l => (if Qltb a 0 then - a else 0) + negative_total l
  end.

(** What is left of the balance of [u] once the transfers are applied: a
    debtor's balance rises by what they send, a creditor's falls by what
    they receive. *)
Definition residual (balances : list (Z * Q)) (txs : list transfer) (u : Z) : Q :=
  match Dict.get u balances with
  | Some a => a + paid u txs - received u txs
  | None => 0
  end.

(** The property the specification asks of the engine: on a mapping whose
    two totals agree within [eps], the transfers add up to that total within
    [eps] and nobody is left with more than [eps]. *)
Definition balanced (balances : list (Z * Q)) : Prop :=
  Qabs (positive_total balances - negative_total balances) <= eps.

Definition settles_within_eps (balances : list (Z * Q)) : Prop :=
  let txs := minimize_transactions balances in
  Qabs (tx_total txs - positive_total balances) <= eps
  /\ Qabs (tx_total txs - negative_total balances) <= eps
  /\ forall u, Qabs (residual balances txs u) <= eps.

(** Three debtors of 1 against creditors of 1 + 1/128, 1 + 1/128 and
    1 - 1/64: every value is a binary fraction, so the run below is also
    exact in floating point. *)
Definition uneven_table : list (Z * Q) :=
  [(1%Z, - (1)); (2%Z, - (1)); (3%Z, - (1));
   (4%Z, 129 # 128); (5%Z, 129 # 128); (6%Z, 63 # 64)].

(** The same loop seen from the two cursors: only [debtors[i:]] and
    [creditors[j:]] are ever read again, so the loop is a function of these
    two suffixes ([settle_loop_rest] relates the two). *)
Definition keep_or_drop (uid : Z) (rest : Q) (tail : list (Z * Q)) : list (Z * Q) :=
  if Qle_bool rest eps then tail else (uid, rest) :: tail.

Fixpoint settle_rest (fuel : nat) (ds cs : list (Z * Q)) : list transfer :=
  match fuel with
  | O => []
  | S fuel' =>
      match ds, cs with
      | (duid, debt) :: ds', (cuid, cred) :: cs' =>
          let amount := Qmin debt cred in
          (duid, cuid, amount)
            :: settle_rest fuel' (keep_or_drop duid (debt - amount) ds')
                                 (keep_or_drop cuid (cred - amount) cs')
      | _, _ => []
      end
  end.

(** *** Vocabulary of the proofs

    [side_ok]: along one side of the matching (debtors with what they send,
    creditors with what they receive) nobody outside the list moves money,
    nobody in it moves more than their magnitude, and what the side is left
    with is its total less the transfers.  [side_settled]: everybody on the
    side is within [eps] of their magnitude, and so is the side as a whole,
    up to [eps] per head. *)

Fixpoint residual_sum (side : transfer -> Z) (l : list (Z * Q))
         (txs : list transfer) : Q :=
  match l with
  | [] => 0
  | (u, m) :: l' => (m - flow side u txs) + residual_sum side l' txs
  end.

Definition above_eps (l : list (Z * Q)) : Prop :=
  Forall (fun p => eps < snd p) l.

Definition side_ok (side : transfer -> Z) (l : list (Z * Q))
           (txs : list transfer) : Prop :=
  (forall u, ~ In u (Dict.keys l) -> flow side u txs == 0)
  /\ (forall u m, In (u, m) l -> 0 <= flow side u txs /\ flow side u txs <= m)
  /\ residual_sum side l txs == total l - tx_total txs.

Definition side_settled (side : transfer -> Z) (l : list (Z * Q))
           (txs : list transfer) : Prop :=
  (forall u m, In (u, m) l -> m - flow side u txs <= eps)
  /\ total l - tx_total txs <= inject_Z (Z.of_nat (length l)) * eps.

(** A list in descending order of magnitude. *)
Definition descending (l : list (Z * Q)) : Prop :=
  forall i j x y, (i <= j)%nat -> nth_error l i = Some x -> nth_error l j = Some y ->
                  snd y <= snd x.

(** *** Where the arithmetic of the loop is exact

    [on_grid k x]: [x] is a multiple of [2^-k], of magnitude at most [2^53]
    times [2^-k].  For [k] up to 1000 such a number is a binary64 number.
    The loop only subtracts from a remainder an amount between zero and that
    remainder; on such a mapping the difference is again on the grid, so the
    subtraction of the code does not round and the remainders and transfers
    of the code are the ones computed here. *)
Definition on_grid (k : nat) (x : Q) : bool :=
  let n := (Qnum x * 2 ^ Z.of_nat k)%Z in
  let den := Zpos (Qden x) in
  ((n mod den =? 0) && (Z.abs (n / den) <=? 2 ^ 53))%Z.

Definition exact_balances (k : nat) (balances : list (Z * Q)) : bool :=
  (k <=? 1000)%nat && forallb (fun p => on_grid k (snd p)) balances.

(** The same as a proposition: [x * 2^k] is an integer of magnitude at most
    [2^53]. *)
Definition grid (k : nat) (x : Q) : Prop :=
  exists m : Z, (Z.abs m <= 2 ^ 53)%Z /\ x * inject_Z (2 ^ Z.of_nat k) == inject_Z m.

End Settlement.

(** ** Text: the string operations the handlers use

    Strings are byte strings; whitespace is the ASCII whitespace of Python's
    [str.strip] and [str.split] (tab to carriage return, the four separators
    0x1c to 0x1f, and the space). *)

Module Text.

Local Open Scope nat_scope.

Definition is_space (c : ascii) : bool :=
  let n := nat_of_ascii c in
  ((9 <=? n) && (n <=? 13)) || ((28 <=? n) && (n <=? 32)).

Fixpoint drop_spaces (l : list ascii) : list ascii :=
  match l with
  | c :: l' => if is_space c then drop_spaces l' else l
  | [] => []
  end.

(** [s.strip()] *)
Definition strip (s : string) : string :=
  string_of_list_ascii
    (rev (drop_spaces (rev (drop_spaces (list_ascii_of_string s))))).

(** The longest prefix without whitespace, and what follows it. *)
Fixpoint span_word (l : list ascii) : list ascii * list ascii :=
  match l with
  | c :: l' =>
      if is_space c then ([], l)
      else let '(w, r) := span_word l' in (c :: w, r)
  | [] => ([], [])
  end.

(** [s.rsplit(maxsplit=1)]: the last whitespace-separated word is split off;
    the head keeps its inner whitespace and loses the whitespace next to the
    cut.  A string of no word gives no part, a string of one word one part. *)
Definition rsplit1 (s : string) : list string :=
  let r := drop_spaces (rev (list_ascii_of_string s)) in
  match r with
  | [] => []
  | _ =>
      let '(w, rest) := span_word r in
      match drop_spaces rest with
      | [] => [string_of_list_ascii (rev w)]
      | h => [string_of_list_ascii (rev h); string_of_list_ascii (rev w)]
      end
  end.

(** [s.replace(c, "")] for a one-character [c]. *)
Definition remove_char (c : ascii) (s : string) : string :=
  string_of_list_ascii
    (filter (fun x => negb (Ascii.eqb x c)) (list_ascii_of_string s)).

Definition digit_value (c : ascii) : option Z :=
  let n := nat_of_ascii c in
  if (48 <=? n) && (n <=? 57) then Some (Z.of_nat (n - 48)) else None.

(** Reads a run of decimal digits: its value, its length and what follows. *)
Fixpoint read_digits (acc : Z) (len : nat) (l : list ascii) : Z * nat * list ascii :=
  match l with
  | c :: l' =>
      match digit_value c with
      | Some d => read_digits (10 * acc + d)%Z (S len) l'
      | None => (acc, len, l)
      end
  | [] => (acc, len, [])
  end.

Definition read_sign (l : list ascii) : bool * list ascii :=
  match l with
  | "-"%char :: l' => (true, l')
  | "+"%char :: l' => (false, l')
  | _ => (false, l)
  end.

(** A reader of signed decimal literals ([12], [-500], [+3.75], [.5]).  On
    these Python's [float] returns the same number; it is the reader the
    worked examples run with, the handlers themselves are stated for any
    reader. *)
Definition decimal_float (s : string) : option Q :=
  let '(neg, l) := read_sign (list_ascii_of_string s) in
  let '(ip, ilen, l) := read_digits 0 0 l in
  let '(fp, flen, l) :=
    match l with
    | "."%char :: l' => read_digits 0 0 l'
    | _ => (0%Z, 0, l)
    end in
  match l, ilen + flen with
  | _ :: _, _ => None
  | [], 0 => None
  | [], _ =>
      let scale := Z.pow 10 (Z.of_nat flen) in
      let q := Qmake (ip * scale + fp) (Z.to_pos scale) in
      Some (if neg then Qopp q else q)
  end.

(** The same for [int]: signed runs of digits. *)
Definition decimal_int (s : string) : option Z :=
  let '(neg, l) := read_sign (list_ascii_of_string s) in
  let '(ip, ilen, l) := read_digits 0 0 l in
  match l, ilen with
  | _ :: _, _ => None
  | [], 0 => None
  | [], _ => Some (if neg then Z.opp ip else ip)
  end.

(** Every character is an ASCII character.  On such a text the whitespace
    of [str.strip] and [str.split] is the one of [is_space]; beyond ASCII,
    Unicode has further whitespace (U+00A0 and others). *)
Definition is_ascii (s : string) : bool :=
  forallb (fun c => nat_of_ascii c <? 128) (list_ascii_of_string s).

Definition is_special_letter (c : ascii) : bool :=
  existsb (Ascii.eqb c) ["e"; "E"; "i"; "I"; "n"; "N"]%char.

(** At most 300 characters, none of them one of the letters e, i, n in
    either case.  [float] cannot read such a token as an infinity or as a
    NaN ([inf], [infinity], [nan]), nor as a literal with an exponent, and a
    literal of at most 300 digits is below the largest binary64 number: on
    such a token [float] raises ValueError or returns a finite number. *)
Definition plain_token (s : string) : bool :=
  (String.length s <=? 300)
  && forallb (fun c => negb (is_special_letter c)) (list_ascii_of_string s).

End Text.

(** ** Binary64: the arithmetic of Python's [float]

    The operations of IEEE 754 binary64 with rounding to nearest, ties to
    even, from the specification of floating-point numbers of the standard
    library. *)

Module Binary64.

Definition prec : Z := 53.
Definition emax : Z := 1024.

Definition of_Z (z : Z) : spec_float := binary_normalize prec emax z 0 false.
Definition add : spec_float -> spec_float -> spec_float := SFadd prec emax.
Definition sub : spec_float -> spec_float -> spec_float := SFsub prec emax.
Definition mul : spec_float -> spec_float -> spec_float := SFmul prec emax.
Definition div : spec_float -> spec_float -> spec_float := SFdiv prec emax.

(** The value of a finite number. *)
Definition value (x : spec_float) : option Q :=
  match x with
  | S754_zero _ => Some 0
  | S754_finite s m e =>
      let v := inject_Z (Zpos m) * Qpower 2 e in
      Some (if s then - v else v)
  | _ => None
  end.

(** [user_totals[uid] += total_price / len(choosers)], with
    [total_price = price * qty], as [close_resto] computes it. *)
Definition credit (total price : spec_float) (qty : Z) (choosers : nat)
  : spec_float :=
  add total (div (mul price (of_Z qty)) (of_Z (Z.of_nat choosers))).

End Binary64.

(** ** JSON values, as [json.loads] returns them *)

Module Json.

#[local] Unset Elimination Schemes.
Inductive json : Type :=
| JNull
| JBool (b : bool)
| JNum (q : Q)
| JStr (s : string)
| JArr (l : list json)
| JObj (o : list (string * json)).
#[local] Set Elimination Schemes.

(** Python truthiness, as used by [x or default]. *)
Definition truthy (v : json) : bool :=
  match v with
  | JNull => false
  | JBool b => b
  | JNum q => negb (Qeq_bool q 0)
  | JStr s => negb (String.eqb s EmptyString)
  | JArr l => match l with [] => false | _ => true end
  | JObj o => match o with [] => false | _ => true end
  end.

(** [o.get(k)] *)
Fixpoint obj_get (k : string) (o : list (string * json)) : option json :=
  match o with
  | [] => None
  | (k', v) :: o' => if String.eqb k k' then Some v else obj_get k o'
  end.

(** [o.get(k, d) or d] *)
Definition get_or (k : string) (d : json) (o : list (string * json)) : json :=
  match obj_get k o with
  | Some v => if truthy v then v else d
  | None => d
  end.

End Json.

(** ** The ledger: the six tables of [Database.init_db] *)

Module Ledger.
Import Settlement Json.

(** The [status] column: ['open'] by default, ['closed'] once closed. *)
Inductive status : Type := Open | Closed.

Definition is_open (st : status) : bool :=
  match st with Open => true | Closed => false end.

(** A row of [bills] or of [resto_sessions]: the two tables have the same
    columns. *)
Record session : Type := mkSession {
  s_id : Z;
  s_chat_id : Z;
  s_creator_id : Z;
  s_creator_username : string;
  s_created_at : Z;
  s_closed_at : option Z;
  s_status : status
}.

(** Rows of [bill_participants], [expenses], [resto_items] and
    [resto_choices].  The [id] of a participant, an expense or a choice is
    never selected by the program; these rows are kept without it, in rowid
    order. *)
Record participant : Type := mkParticipant {
  p_bill_id : Z;
  p_user_id : Z;
  p_username : string
}.

Record expense : Type := mkExpense {
  e_bill_id : Z;
  e_user_id : Z;
  e_username : string;
  e_description : string;
  e_amount : Q;
  e_created_at : Z
}.

Record item : Type := mkItem {
  i_id : Z;
  i_session_id : Z;
  i_name : string;
  i_price : Q;
  i_quantity : Z;
  i_is_shared : bool
}.

Record choice : Type := mkChoice {
  c_item_id : Z;
  c_user_id : Z;
  c_username : string
}.

(** The database.  [seq_*] is the AUTOINCREMENT counter of the table (the
    largest id ever given). *)
Record db : Type := mkDb {
  bills : list session;
  bill_participants : list participant;
  expenses : list expense;
  resto_sessions : list session;
  resto_items : list item;
  resto_choices : list choice;
  seq_bills : Z;
  seq_sessions : Z;
  seq_items : Z
}.

Definition empty_db : db := mkDb [] [] [] [] [] [] 0 0 0.

Definition with_bills (d : db) (l : list session) (n : Z) : db :=
  mkDb l (bill_participants d) (expenses d) (resto_sessions d)
       (resto_items d) (resto_choices d) n (seq_sessions d) (seq_items d).

Definition with_participants (d : db) (l : list participant) : db :=
  mkDb (bills d) l (expenses d) (resto_sessions d)
       (resto_items d) (resto_choices d) (seq_bills d) (seq_sessions d) (seq_items d).

Definition with_expenses (d : db) (l : list expense) : db :=
  mkDb (bills d) (bill_participants d) l (resto_sessions d)
       (resto_items d) (resto_choices d) (seq_bills d) (seq_sessions d) (seq_items d).

Definition with_sessions (d : db) (l : list session) (n : Z) : db :=
  mkDb (bills d) (bill_participants d) (expenses d) l
       (resto_items d) (resto_choices d) (seq_bills d) n (seq_items d).

Definition with_items (d : db) (l : list item) (n : Z) : db :=
  mkDb (bills d) (bill_participants d) (expenses d) (resto_sessions d)
       l (resto_choices d) (seq_bills d) (seq_sessions d) n.

Definition with_choices (d : db) (l : list choice) : db :=
  mkDb (bills d) (bill_participants d) (expenses d) (resto_sessions d)
       (resto_items d) l (seq_bills d) (seq_sessions d) (seq_items d).

(** *** Queries *)

(** [WHERE chat_id = ? AND status = 'open'] *)
Definition open_in (chat : Z) (s : session) : bool :=
  Z.eqb (s_chat_id s) chat && is_open (s_status s).

(** [SELECT ... WHERE chat_id = ? AND status = 'open'] then [fetchone()]. *)
Definition find_open (chat : Z) (tbl : list session) : option session :=
  find (open_in chat) tbl.

(** The same [ORDER BY id DESC LIMIT 1]; rows are in ascending id order. *)
Definition find_open_last (chat : Z) (tbl : list session) : option session :=
  find (open_in chat) (rev tbl).

Definition find_session (id : Z) (tbl : list session) : option session :=
  find (fun s => Z.eqb (s_id s) id) tbl.

Definition find_item (id : Z) (tbl : list item) : option item :=
  find (fun it => Z.eqb (i_id it) id) tbl.

Definition is_participant (bill user : Z) (p : participant) : bool :=
  Z.eqb (p_bill_id p) bill && Z.eqb (p_user_id p) user.

(** Rows sorted by user id, rows of one user in the order they have. *)
Fixpoint insert_by_user (p : participant) (l : list participant)
  : list participant :=
  match l with
  | [] => [p]
  | q :: l' =>
      if Z.leb (p_user_id p) (p_user_id q) then p :: l
      else q :: insert_by_user p l'
  end.

Definition by_user_id (l : list participant) : list participant :=
  fold_right insert_by_user [] l.

(** [... FROM bill_participants WHERE bill_id = ?]: SQLite answers the
    query through the index of [UNIQUE (bill_id, user_id)], so the rows of
    the bill come in the order of the user ids, not in the order of
    joining. *)
Definition participants_of (bill : Z) (tbl : list participant) : list participant :=
  by_user_id (filter (fun p => Z.eqb (p_bill_id p) bill) tbl).

Definition expenses_of (bill : Z) (tbl : list expense) : list expense :=
  filter (fun e => Z.eqb (e_bill_id e) bill) tbl.

Definition items_of (sid : Z) (tbl : list item) : list item :=
  filter (fun it => Z.eqb (i_session_id it) sid) tbl.

Definition is_choice (item_id user : Z) (c : choice) : bool :=
  Z.eqb (c_item_id c) item_id && Z.eqb (c_user_id c) user.

(** [SELECT user_id FROM resto_choices WHERE item_id = ?] *)
Definition choosers_of (item_id : Z) (tbl : list choice) : list Z :=
  map c_user_id (filter (fun c => Z.eqb (c_item_id c) item_id) tbl).

(** [resto_choices rc JOIN resto_items ri ON rc.item_id = ri.id
    WHERE ri.session_id = ?] *)
Definition choices_of_session (sid : Z) (d : db) : list choice :=
  filter (fun c => existsb (fun it => Z.eqb (i_id it) (c_item_id c))
                           (items_of sid (resto_items d)))
         (resto_choices d).

(** [UPDATE ... SET status='closed', closed_at=? WHERE id=?] *)
Definition close_row (id now : Z) (s : session) : session :=
  if Z.eqb (s_id s) id
  then mkSession (s_id s) (s_chat_id s) (s_creator_id s) (s_creator_username s)
                 (s_created_at s) (Some now) Closed
  else s.

Definition close_rows (id now : Z) (tbl : list session) : list session :=
  map (close_row id now) tbl.

(** *** What a handler answers *)

(** One line and button of [build_resto_ui]. *)
Record ui_row : Type := mkUiRow {
  ui_item : Z;
  ui_name : string;
  ui_quantity : Z;
  ui_total : Q;
  ui_count : nat;
  ui_picked : bool
}.

Inductive kind : Type := PooledBill | ItemizedReceipt.

Inductive reply : Type :=
| Silent                       (* the handler returns without a message *)
| AlreadyOpen (k : kind)
| BillCreated (bill_id : Z)
| BillNotOpen                  (* join: "this bill is already closed" *)
| Joined (usernames : list string)
| AlreadyJoined
| ExpenseAdded (description : string) (amount : Q)
| RestoCreated
| Forbidden                    (* only the creator may do this *)
| AlreadyIngested              (* "the receipt is already loaded" *)
| ExtractionFailed             (* no JSON in the answer of the service *)
| NoValidItems                 (* "could not recognise items in the receipt" *)
| ProcessingError              (* the handler's catch-all [except] *)
| ReceiptProcessed (ui : list ui_row)
| SessionClosed                (* item button: "this session is already closed" *)
| ChoiceToggled (picked : bool) (ui : list ui_row)
| NoOpenSession                (* nothing open to close *)
| NoParticipants
| NoExpenses
| BillSettled (total per_person : Q) (paid : list (Z * Q))
              (txs : list transfer)
| RestoSettled (total : Q) (shares : list (Z * Q))
| Crashed.                     (* uncaught exception: nothing is committed *)

(** What the outside world hands to [handle_receipt_photo] inside its
    [try]: the extraction service raised, its answer held no JSON, or
    [data.get("items", [])], with or without the delivery of the result. *)
Inductive extraction : Type :=
| ServiceFailed
| NoJson
| Items (items : list json)
| ItemsUnsent (items : list json).   (* [items] came back, and sending the
                                        processed receipt then raised *)

(** The updates the handlers are registered for in [main]. *)
Inductive update : Type :=
| CmdNewbill (chat user : Z) (username : string) (now : Z)
| CbJoinBill (bill_id user : Z) (username : string)
| MsgText (chat user : Z) (username : string) (text : string) (now : Z)
| CmdResto (chat user : Z) (username : string) (now : Z)
| MsgPhoto (chat user : Z) (result : extraction)
| CbItem (item_id user : Z) (username : string)
| CbCloseResto (chat user : Z) (now : Z)
| CmdClosebill (chat user : Z) (now : Z).

(** [build_resto_ui] *)
Definition build_resto_ui (d : db) (session_id current_user : Z) : list ui_row :=
  map (fun it =>
         let choosers := choosers_of (i_id it) (resto_choices d) in
         mkUiRow (i_id it) (i_name it) (i_quantity it)
                 (i_price it * inject_Z (i_quantity it))
                 (length choosers)
                 (existsb (Z.eqb current_user) choosers))
      (items_of session_id (resto_items d)).

(** *** [/newbill] and [/resto] *)

Definition newbill (d : db) (chat user : Z) (username : string) (now : Z)
  : db * reply :=
  match find_open chat (bills d) with
  | Some _ => (d, AlreadyOpen PooledBill)
  | None =>
      let bill_id := (seq_bills d + 1)%Z in
      (with_bills d (bills d ++ [mkSession bill_id chat user username now None Open])
                  bill_id,
       BillCreated bill_id)
  end.

Definition resto (d : db) (chat user : Z) (username : string) (now : Z)
  : db * reply :=
  match find_open chat (resto_sessions d) with
  | Some _ => (d, AlreadyOpen ItemizedReceipt)
  | None =>
      let session_id := (seq_sessions d + 1)%Z in
      (with_sessions d
         (resto_sessions d ++ [mkSession session_id chat user username now None Open])
         session_id,
       RestoCreated)
  end.

(** *** [join_bill_callback]

    The INSERT fails on [UNIQUE (bill_id, user_id)] when the user has
    joined. *)
Definition join_bill_callback (d : db) (bill_id user : Z) (username : string)
  : db * reply :=
  match find_session bill_id (bills d) with
  | Some b =>
      if is_open (s_status b) then
        if existsb (is_participant bill_id user) (bill_participants d)
        then (d, AlreadyJoined)
        else
          let parts := bill_participants d ++ [mkParticipant bill_id user username] in
          (with_participants d parts,
           Joined (map p_username (participants_of bill_id parts)))
      else (d, BillNotOpen)
  | None => (d, BillNotOpen)
  end.

(** *** [close_newbill]: the equal split *)

(** [sum(...)]: Python adds from the left, starting at 0. *)
Definition sum_list (l : list Q) : Q := fold_left Qplus l 0.

Definition get0 (uid : Z) (d : list (Z * Q)) : Q :=
  match Dict.get uid d with Some v => v | None => 0 end.

(** [{row[0]: row[1] for row in rows}] *)
Definition dict_of {V} (rows : list (Z * V)) : list (Z * V) :=
  fold_left (fun d r => Dict.set (fst r) (snd r) d) rows [].

(** [user_paid[uid] = user_paid.get(uid, 0) + amt] over the expenses. *)
Definition user_paid_of (rows : list (Z * Q)) : list (Z * Q) :=
  fold_left (fun d r => Dict.set (fst r) (get0 (fst r) d + snd r) d) rows [].

Definition equal_split_balances (participants : list (Z * string))
           (rows : list (Z * Q)) : list (Z * Q) :=
  let total := sum_list (map snd rows) in
  let per_person := total / inject_Z (Z.of_nat (length participants)) in
  let user_paid := user_paid_of rows in
  map (fun p => (fst p, get0 (fst p) user_paid - per_person)) participants.

Definition close_newbill (d : db) (bill_id now : Z) : db * reply :=
  let participants :=
    dict_of (map (fun p => (p_user_id p, p_username p))
                 (participants_of bill_id (bill_participants d))) in
  match participants with
  | [] => (d, NoParticipants)
  | _ =>
      let rows := map (fun e => (e_user_id e, e_amount e))
                      (expenses_of bill_id (expenses d)) in
      match rows with
      | [] => (d, NoExpenses)
      | _ =>
          let total := sum_list (map snd rows) in
          let per_person := total / inject_Z (Z.of_nat (length participants)) in
          let user_paid := user_paid_of rows in
          let balances := equal_split_balances participants rows in
          let txs := minimize_transactions balances in
          (with_bills d (close_rows bill_id now (bills d)) (seq_bills d),
           BillSettled total per_person
                       (map (fun p => (fst p, get0 (fst p) user_paid)) participants)
                       txs)
      end
  end.

(** *** [close_resto]: the claim split *)

(** [user_totals[uid] += x]; a missing key is a [KeyError]. *)
Definition add_to (uid : Z) (x : Q) (totals : list (Z * Q)) : option (list (Z * Q)) :=
  match Dict.get uid totals with
  | Some v => Some (Dict.set uid (v + x) totals)
  | None => None
  end.

(** [for uid in uids: user_totals[uid] += x] *)
Fixpoint add_to_each (uids : list Z) (x : Q) (totals : list (Z * Q))
  : option (list (Z * Q)) :=
  match uids with
  | [] => Some totals
  | uid :: uids' =>
      match add_to uid x totals with
      | Some totals' => add_to_each uids' x totals'
      | None => None
      end
  end.

(** The body of the loop over the items; the state is [user_totals] and
    [shared_total]. *)
Definition split_item (choices : list choice) (acc : list (Z * Q) * Q) (it : item)
  : option (list (Z * Q) * Q) :=
  let '(user_totals, shared_total) := acc in
  let total_price := i_price it * inject_Z (i_quantity it) in
  if i_is_shared it then Some (user_totals, shared_total + total_price)
  else
    let choosers := choosers_of (i_id it) choices in
    match choosers with
    | [] => Some (user_totals, shared_total)
    | _ =>
        let split := total_price / inject_Z (Z.of_nat (length choosers)) in
        match add_to_each choosers split user_totals with
        | Some user_totals' => Some (user_totals', shared_total)
        | None => None
        end
    end.

Fixpoint split_items (choices : list choice) (acc : list (Z * Q) * Q)
         (items : list item) : option (list (Z * Q) * Q) :=
  match items with
  | [] => Some acc
  | it :: items' =>
      match split_item choices acc it with
      | Some acc' => split_items choices acc' items'
      | None => None
      end
  end.

(** The participants of a restaurant session: everybody who chose an item
    of the session, then the creator when not among them. *)
Definition resto_participants (d : db) (s : session) : list (Z * string) :=
  let participants :=
    dict_of (map (fun c => (c_user_id c, c_username c))
                 (choices_of_session (s_id s) d)) in
  if Dict.mem (s_creator_id s) participants then participants
  else Dict.set (s_creator_id s) (s_creator_username s) participants.

Definition close_resto (d : db) (session_id now : Z) : db * reply :=
  match find_session session_id (resto_sessions d) with
  | None => (d, Crashed)
  | Some s =>
      let participants := resto_participants d s in
      match participants with
      | [] => (d, NoParticipants)
      | _ =>
          let user_totals := map (fun p => (fst p, 0)) participants in
          let items := items_of session_id (resto_items d) in
          match split_items (resto_choices d) (user_totals, 0) items with
          | None => (d, Crashed)
          | Some (user_totals, shared_total) =>
              let shared :=
                if Qltb 0 shared_total then
                  add_to_each (Dict.keys participants)
                              (shared_total / inject_Z (Z.of_nat (length participants)))
                              user_totals
                else Some user_totals in
              match shared with
              | None => (d, Crashed)
              | Some user_totals =>
                  (with_sessions d (close_rows session_id now (resto_sessions d))
                                 (seq_sessions d),
                   RestoSettled (sum_list (map snd user_totals)) user_totals)
              end
          end
      end
  end.

(** *** [/closebill] and the close button *)

Definition closebill (d : db) (chat user now : Z) : db * reply :=
  let bill_res := find_open chat (bills d) in
  let resto_res := find_open chat (resto_sessions d) in
  match bill_res with
  | Some b =>
      if Z.eqb user (s_creator_id b) then close_newbill d (s_id b) now
      else (d, Forbidden)
  | None =>
      match resto_res with
      | Some s =>
          if Z.eqb user (s_creator_id s) then close_resto d (s_id s) now
          else (d, Forbidden)
      | None => (d, NoOpenSession)
      end
  end.

(** [handle_item_choice] on the data [close_resto]. *)
Definition close_resto_button (d : db) (chat user now : Z) : db * reply :=
  match find_open_last chat (resto_sessions d) with
  | None => (d, NoOpenSession)
  | Some s =>
      if Z.eqb user (s_creator_id s) then close_resto d (s_id s) now
      else (d, Forbidden)
  end.

(** *** [handle_item_choice] on the data [item_<id>]: the toggle *)

Definition handle_item_choice (d : db) (item_id user : Z) (username : string)
  : db * reply :=
  let owner :=
    match find_item item_id (resto_items d) with
    | Some it => find_session (i_session_id it) (resto_sessions d)
    | None => None
    end in
  match owner with
  | Some s =>
      if is_open (s_status s) then
        let exists_ := existsb (is_choice item_id user) (resto_choices d) in
        let choices :=
          if exists_
          then filter (fun c => negb (is_choice item_id user c)) (resto_choices d)
          else resto_choices d ++ [mkChoice item_id user username] in
        let d' := with_choices d choices in
        (d', ChoiceToggled (negb exists_) (build_resto_ui d' (s_id s) user))
      else (d, SessionClosed)
  | None => (d, SessionClosed)
  end.

(** *** The handlers that read text: [handle_expense] and
    [handle_receipt_photo]

    [py_float] and [py_int] stand for Python's [float] and [int] on strings
    ([None] is the [ValueError]). *)

Section Parsing.
(** [float(s)] and [int(s)]: [None] is the ValueError, [Some] the finite
    number read.  A string that [float] reads as a NaN or as an infinity
    ([nan], [inf], [1e999]) has no image among the rationals; the statements
    about the amount of an expense are for tokens that exclude them
    ([Text.plain_token]). *)
Variable py_float : string -> option Q.
Variable py_int : string -> option Z.

Definition handle_expense (d : db) (chat user : Z) (username text : string)
           (now : Z) : db * reply :=
  match find_open chat (bills d) with
  | None => (d, Silent)
  | Some b =>
      let bill_id := s_id b in
      if existsb (is_participant bill_id user) (bill_participants d) then
        match Text.rsplit1 (Text.strip text) with
        | [description; amount_str] =>
            match py_float (Text.remove_char ","%char
                              (Text.remove_char " "%char amount_str)) with
            | None => (d, Silent)
            | Some amount =>
                (with_expenses d
                   (expenses d
                    ++ [mkExpense bill_id user username description amount now]),
                 ExpenseAdded description amount)
            end
        | _ => (d, Silent)
        end
      else (d, Silent)
  end.

(** [float(v)] and [int(v)] on a JSON value; [None] is the exception. *)
Definition float_of (v : json) : option Q :=
  match v with
  | JNum q => Some q
  | JBool b => Some (if b then 1 else 0)
  | JStr s => py_float s
  | _ => None
  end.

Definition int_of (v : json) : option Z :=
  match v with
  | JNum q => Some (Z.quot (Qnum q) (Zpos (Qden q)))
  | JBool b => Some (if b then 1%Z else 0%Z)
  | JStr s => py_int s
  | _ => None
  end.

(** One turn of the loop over the extracted items. *)
Inductive parsed : Type :=
| Raised                                   (* not a dict, a name that is not text,
                                              or a quantity beyond 64 bits *)
| Skipped                                  (* [continue] *)
| Row (name : string) (price : Q) (qty : Z).

Definition parse_item (v : json) : parsed :=
  match v with
  | JObj o =>
      match get_or "name" (JStr "") o with
      | JStr raw =>
          let name := Text.strip raw in
          let price :=
            match float_of (get_or "price" (JNum 0) o) with
            | Some q => q
            | None => 0
            end in
          let qty :=
            match int_of (get_or "quantity" (JNum 1) o) with
            | Some n => n
            | None => 1%Z
            end in
          if String.eqb name "" || Qle_bool price 0 then Skipped
          else if (- 2 ^ 63 <=? qty)%Z && (qty <? 2 ^ 63)%Z then Row name price qty
          else Raised             (* the INSERT: the integer does not fit *)
      | _ => Raised
      end
  | _ => Raised
  end.

(** The INSERTs of the loop; [None] when an item raises, in which case
    nothing is committed. *)
Fixpoint insert_items (session_id : Z) (items : list json)
         (tbl : list item) (seq : Z) : option (list item * Z) :=
  match items with
  | [] => Some (tbl, seq)
  | v :: items' =>
      match parse_item v with
      | Raised => None
      | Skipped => insert_items session_id items' tbl seq
      | Row name price qty =>
          let id := (seq + 1)%Z in
          insert_items session_id items'
                       (tbl ++ [mkItem id session_id name price qty false]) id
      end
  end.

(** The rows the loop of [handle_receipt_photo] inserts: one for every item
    that has a name and a positive price, in the order of the receipt. *)
Fixpoint valid_rows (session_id : Z) (items : list json) (seq : Z) : list item :=
  match items with
  | [] => []
  | v :: items' =>
      match parse_item v with
      | Row name price qty =>
          mkItem (seq + 1)%Z session_id name price qty false
                 :: valid_rows session_id items' (seq + 1)%Z
      | _ => valid_rows session_id items' seq
      end
  end.

(** The handler, the check before the call of the extraction service and
    the inserts after it taken as one transition. *)
Definition handle_receipt_photo (d : db) (chat user : Z) (result : extraction)
  : db * reply :=
  match find_open chat (resto_sessions d) with
  | None => (d, Silent)
  | Some s =>
      let session_id := s_id s in
      if negb (Z.eqb user (s_creator_id s)) then (d, Forbidden)
      else if negb (Nat.eqb (length (items_of session_id (resto_items d))) 0)
      then (d, AlreadyIngested)
      else
        match result with
        | ServiceFailed => (d, ProcessingError)
        | NoJson => (d, ExtractionFailed)
        | Items [] | ItemsUnsent [] => (d, NoValidItems)
        | Items items =>
            match insert_items session_id items (resto_items d) (seq_items d) with
            | None => (d, ProcessingError)
            | Some (tbl, seq) =>
                let d' := with_items d tbl seq in
                (d', ReceiptProcessed (build_resto_ui d' session_id user))
            end
        | ItemsUnsent items =>
            (* [conn.commit()] comes before [reply_text] in the same [try]:
               when the send raises, the catch-all answers the error and the
               rows stay *)
            match insert_items session_id items (resto_items d) (seq_items d) with
            | None => (d, ProcessingError)
            | Some (tbl, seq) => (with_items d tbl seq, ProcessingError)
            end
        end
  end.

(** *** The bot as a transition system *)

Definition step (d : db) (u : update) : db * reply :=
  match u with
  | CmdNewbill chat user username now => newbill d chat user username now
  | CbJoinBill bill_id user username => join_bill_callback d bill_id user username
  | MsgText chat user username text now =>
      handle_expense d chat user username text now
  | CmdResto chat user username now => resto d chat user username now
  | MsgPhoto chat user result => handle_receipt_photo d chat user result
  | CbItem item_id user username => handle_item_choice d item_id user username
  | CbCloseResto chat user now => close_resto_button d chat user now
  | CmdClosebill chat user now => closebill d chat user now
  end.

Definition run (d : db) (us : list update) : db :=
  fold_left (fun d u => fst (step d u)) us d.

(** The ledgers the bot can be in: those a sequence of updates leads to
    from the empty database. *)
Definition reachable (d : db) : Prop := exists us, d = run empty_db us.

End Parsing.

(** The number of open sessions of a chat, of either kind. *)
Definition open_count (chat : Z) (d : db) : nat :=
  length (filter (open_in chat) (bills d))
  + length (filter (open_in chat) (resto_sessions d)).

(** The claim set: who claims what.  A claim is identified by its item and
    its user. *)
Definition claim_set (d : db) : list (Z * Z) :=
  map (fun c => (c_item_id c, c_user_id c)) (resto_choices d).

Definition claimed (d : db) (item_id user : Z) : bool :=
  existsb (is_choice item_id user) (resto_choices d).

(** All that is stored of a bill, and of a restaurant session: its row, and
    the rows that hang from it. *)
Definition bill_view (d : db) (bill_id : Z)
  : list session * list participant * list expense :=
  (filter (fun s => Z.eqb (s_id s) bill_id) (bills d),
   participants_of bill_id (bill_participants d),
   expenses_of bill_id (expenses d)).

Definition resto_view (d : db) (session_id : Z)
  : list session * list item * list choice :=
  (filter (fun s => Z.eqb (s_id s) session_id) (resto_sessions d),
   items_of session_id (resto_items d),
   choices_of_session session_id d).

(** The bot run with the reader of decimal literals, for worked examples. *)
Definition step10 : db -> update -> db * reply :=
  step Text.decimal_float Text.decimal_int.

Definition run10 : list update -> db :=
  run Text.decimal_float Text.decimal_int empty_db.

(** Chat 7: ann (user 1) opens a restaurant session and sends a receipt of
    a pizza at 50000 and two colas at 10000; ann and bob (user 2) choose the
    pizza, ann the colas. *)
Definition pizza_receipt : list json :=
  [JObj [("name"%string, JStr "Pizza"); ("price"%string, JNum 50000);
         ("quantity"%string, JNum 1)];
   JObj [("name"%string, JStr "Cola"); ("price"%string, JNum 10000);
         ("quantity"%string, JNum 2)]].

Definition pizza_evening : list update :=
  [CmdResto 7 1 "ann" 100; MsgPhoto 7 1 (Items pizza_receipt);
   CbItem 1 1 "ann"; CbItem 1 2 "bob"; CbItem 2 1 "ann"].

(** Chat 7: ann opens a bill, ann and bob join, ann pays a pizza. *)
Definition pizza_bill : list update :=
  [CmdNewbill 7 1 "ann" 100; CbJoinBill 1 1 "ann"; CbJoinBill 1 2 "bob";
   MsgText 7 1 "ann" "Pizza 50000" 101].

(** A receipt none of whose items is valid: a price of zero, a blank name. *)
Definition blank_receipt : list json :=
  [JObj [("name"%string, JStr "Tea"); ("price"%string, JNum 0)];
   JObj [("name"%string, JStr "  "); ("price"%string, JNum 12000)]].

(** ** Well-formed ledgers *)

(** At most one open row per chat in a table of sessions. *)
Definition single_open (tbl : list session) : Prop :=
  forall chat, (length (filter (open_in chat) tbl) <= 1)%nat.

(** The primary key of a table of sessions, below the AUTOINCREMENT
    counter. *)
Definition keyed (tbl : list session) (seq : Z) : Prop :=
  NoDup (map s_id tbl) /\ Forall (fun s => (s_id s <= seq)%Z) tbl.

Definition items_keyed (tbl : list item) (seq : Z) : Prop :=
  NoDup (map i_id tbl) /\ Forall (fun it => (i_id it <= seq)%Z) tbl.

(** At most one choice row per item and user. *)
Definition claims_unique (tbl : list choice) : Prop :=
  forall item_id user, (length (filter (is_choice item_id user) tbl) <= 1)%nat.

Record db_ok (d : db) : Prop := mkOk {
  ok_bills_open : single_open (bills d);
  ok_sessions_open : single_open (resto_sessions d);
  ok_bills_keyed : keyed (bills d) (seq_bills d);
  ok_sessions_keyed : keyed (resto_sessions d) (seq_sessions d);
  ok_items_keyed : items_keyed (resto_items d) (seq_items d);
  ok_claims : claims_unique (resto_choices d)
}.

(** ** What one update can do to the ledger *)

Inductive changes (d : db) : db -> Prop :=
| Unchanged : changes d d
| NewBill (row : session) :
    find_open (s_chat_id row) (bills d) = None ->
    s_id row = (seq_bills d + 1)%Z -> s_status row = Open ->
    changes d (with_bills d (bills d ++ [row]) (s_id row))
| NewSession (row : session) :
    find_open (s_chat_id row) (resto_sessions d) = None ->
    s_id row = (seq_sessions d + 1)%Z -> s_status row = Open ->
    changes d (with_sessions d (resto_sessions d ++ [row]) (s_id row))
| NewParticipant (b : session) (p : participant) :
    find_session (p_bill_id p) (bills d) = Some b -> s_status b = Open ->
    changes d (with_participants d (bill_participants d ++ [p]))
| NewExpense (b : session) (e : expense) :
    In b (bills d) -> s_status b = Open -> e_bill_id e = s_id b ->
    changes d (with_expenses d (expenses d ++ [e]))
| NewItems (s : session) (added : list item) (seq : Z) :
    In s (resto_sessions d) -> s_status s = Open ->
    (seq_items d <= seq)%Z ->
    Forall (fun it => i_session_id it = s_id s /\ (seq_items d < i_id it <= seq)%Z) added ->
    NoDup (map i_id added) ->
    changes d (with_items d (resto_items d ++ added) seq)
| Toggled (it : item) (s : session) (user : Z) (username : string) :
    find_item (i_id it) (resto_items d) = Some it ->
    find_session (i_session_id it) (resto_sessions d) = Some s ->
    s_status s = Open ->
    changes d
      (with_choices d
         (if existsb (is_choice (i_id it) user) (resto_choices d)
          then filter (fun c => negb (is_choice (i_id it) user c)) (resto_choices d)
          else resto_choices d ++ [mkChoice (i_id it) user username]))
| BillClosed (b : session) (now : Z) :
    In b (bills d) -> s_status b = Open ->
    changes d (with_bills d (close_rows (s_id b) now (bills d)) (seq_bills d))
| SessionIsClosed (s : session) (now : Z) :
    In s (resto_sessions d) -> s_status s = Open ->
    changes d (with_sessions d (close_rows (s_id s) now (resto_sessions d))
                             (seq_sessions d)).

(** ** Integrity of the stored rows

    The schema declares its foreign keys but the connection never turns
    their enforcement on; what keeps the rows consistent is the handlers. *)

Definition participants_unique (tbl : list participant) : Prop :=
  forall bill user, (length (filter (is_participant bill user) tbl) <= 1)%nat.

Definition has_id (id : Z) (tbl : list session) : bool :=
  existsb (fun s => Z.eqb (s_id s) id) tbl.

Definition has_item (id : Z) (tbl : list item) : bool :=
  existsb (fun it => Z.eqb (i_id it) id) tbl.

Definition item_valid (it : item) : Prop :=
  i_name it <> EmptyString /\ 0 < i_price it /\ i_is_shared it = false.

Record db_sound (d : db) : Prop := mkSound {
  sound_participants_unique : participants_unique (bill_participants d);
  sound_participants_bill :
    Forall (fun p => has_id (p_bill_id p) (bills d) = true) (bill_participants d);
  sound_expenses_payer :
    Forall (fun e => existsb (is_participant (e_bill_id e) (e_user_id e))
                             (bill_participants d) = true)
           (expenses d);
  sound_items_session :
    Forall (fun it => has_id (i_session_id it) (resto_sessions d) = true)
           (resto_items d);
  sound_items_valid : Forall item_valid (resto_items d);
  sound_choices_item :
    Forall (fun c => has_item (c_item_id c) (resto_items d) = true)
           (resto_choices d)
}.

(** The answers that report that something was done. *)
Definition is_success (r : reply) : bool :=
  match r with
  | BillCreated _ | Joined _ | ExpenseAdded _ _ | RestoCreated
  | ReceiptProcessed _ | ChoiceToggled _ _ | BillSettled _ _ _ _
  | RestoSettled _ _ => true
  | _ => false
  end.

(** What never changes in a row of [bills] or [resto_sessions]. *)
Definition identity (s : session) : Z * Z * Z * string * Z :=
  (s_id s, s_chat_id s, s_creator_id s, s_creator_username s, s_created_at s).

(** Sums, from the right. *)
Definition qsum (l : list Q) : Q := fold_right Qplus 0 l.

(** The cost of the items that somebody chose. *)
Definition claimed_total (choices : list choice) (items : list item) : Q :=
  qsum (map (fun it => match choosers_of (i_id it) choices with
                       | [] => 0
                       | _ => i_price it * inject_Z (i_quantity it)
                       end) items).

(** The sum of the values of a dictionary. *)
Definition vsum (d : list (Z * Q)) : Q := qsum (map snd d).

(** What the users of [ks] have paid, according to a dictionary. *)
Definition paid_by (ks : list Z) (d : list (Z * Q)) : Q :=
  qsum (map (fun k => get0 k d) ks).

(** A table that only received new rows at its end. *)
Definition extends {A} (l l' : list A) : Prop := exists more, l' = l ++ more.

(** No row of a ledger was deleted or rewritten, sessions up to their
    status and closing time. *)
Definition grows (d d' : db) : Prop :=
  extends (map identity (bills d)) (map identity (bills d'))
  /\ extends (bill_participants d) (bill_participants d')
  /\ extends (expenses d) (expenses d')
  /\ extends (map identity (resto_sessions d)) (map identity (resto_sessions d'))
  /\ extends (resto_items d) (resto_items d').

(** The button of [item_id] once a toggle is shown on it: ticked or not,
    with one claimant more or less; every other button as it is. *)
Definition toggle_row (item_id : Z) (picked : bool) (r : ui_row) : ui_row :=
  if Z.eqb (ui_item r) item_id
  then mkUiRow (ui_item r) (ui_name r) (ui_quantity r) (ui_total r)
               (if picked then S (ui_count r) else pred (ui_count r)) picked
  else r.

(** What [user] owes for the items of a session: for each item the user
    chose, its cost divided by the number of those who chose it. *)
Definition share_of (choices : list choice) (items : list item) (user : Z) : Q :=
  qsum (map (fun it =>
               let choosers := choosers_of (i_id it) choices in
               if existsb (Z.eqb user) choosers
               then i_price it * inject_Z (i_quantity it)
                    / inject_Z (Z.of_nat (length choosers))
               else 0)
            items).

(** *** Where the arithmetic of the splits is exact *)

(** A whole number. *)
Definition whole (x : Q) : bool := (Qnum x mod Zpos (Qden x) =? 0)%Z.

(** [price * qty] *)
Definition cost (it : item) : Q := i_price it * inject_Z (i_quantity it).

(** The receipts on which the claim split is exact in binary64: the prices
    are whole, the cost of every claimed item is a whole multiple of the
    number of its claimants, and the costs add up, in magnitude, to at most
    2^53.  Every product, quotient and sum that [close_resto] computes is
    then a whole number of magnitude at most 2^53, which binary64 holds
    exactly, so that the shares of the code are the ones computed here. *)
Definition exact_claims (choices : list choice) (items : list item) : bool :=
  forallb (fun it =>
             whole (i_price it)
             && match choosers_of (i_id it) choices with
                | [] => true
                | us => whole (cost it / inject_Z (Z.of_nat (length us)))
                end)
          items
  && Qle_bool (qsum (map (fun it => Qabs (cost it)) items)) (inject_Z (2 ^ 53)).

(** The bills whose amounts add up, in magnitude, to at most 2^1000: no
    sum, share or balance that [close_newbill] computes overflows binary64,
    every balance is finite, and the loop of [minimize_transactions] ends
    (one of its two remainders is zero in every turn). *)
Definition modest_bill (d : db) (bill : Z) : bool :=
  Qle_bool (qsum (map (fun e => Qabs (e_amount e)) (expenses_of bill (expenses d))))
           (inject_Z (2 ^ 1000)).

(** The bills on which the equal split is exact in binary64: the amounts
    are whole and add up, in magnitude, to at most 2^52, and the number of
    participants divides the total.  The total, the share, what each user
    paid, the balances and the remainders of the matching are then whole
    numbers of magnitude at most 2^53. *)
Definition exact_bill (d : db) (bill : Z) : bool :=
  let amounts := map e_amount (expenses_of bill (expenses d)) in
  let participants :=
    dict_of (map (fun p => (p_user_id p, p_username p))
                 (participants_of bill (bill_participants d))) in
  forallb whole amounts
  && Qle_bool (qsum (map Qabs amounts)) (inject_Z (2 ^ 52))
  && whole (sum_list amounts / inject_Z (Z.of_nat (length participants))).

End Ledger.

(** * Facts about the settlement engine *)

Module SettlementFacts.
Import Settlement.

Lemma Qltb_lt (a b : Q) : Qltb a b = true <-> a < b.
Proof.
  unfold Qltb. rewrite negb_true_iff.
  destruct (Qle_bool b a) eqn:E.
  - apply Qle_bool_iff in E. split; [discriminate | intros H; lra].
  - split; [intros _ | reflexivity].
    destruct (Qlt_le_dec a b) as [H | H]; [exact H |].
    apply Qle_bool_iff in H. congruence.
Qed.

Lemma Qltb_ge (a b : Q) : Qltb a b = false <-> b <= a.
Proof.
  unfold Qltb. rewrite negb_false_iff. apply Qle_bool_iff.
Qed.

Lemma Qle_bool_false (a b : Q) : Qle_bool a b = false <-> b < a.
Proof.
  rewrite <- (Qltb_lt b a). unfold Qltb.
  destruct (Qle_bool a b); simpl; split; congruence.
Qed.

(** ** The index loop and its suffix view *)

Lemma skipn_nth_error_some {A} (l : list A) (i : nat) (x : A) :
  nth_error l i = Some x -> skipn i l = x :: skipn (S i) l.
Proof.
  revert l; induction i as [| i IH]; intros [| y l] H; simpl in *;
    try discriminate.
  - now inversion H.
  - now apply IH.
Qed.

Lemma skipn_nth_error_none {A} (l : list A) (i : nat) :
  nth_error l i = None -> skipn i l = [].
Proof.
  revert l; induction i as [| i IH]; intros [| y l] H; simpl in *;
    try discriminate; auto.
Qed.

Lemma skipn_list_set {A} (l : list A) (i : nat) (x y : A) :
  nth_error l i = Some y ->
  skipn i (list_set i x l) = x :: skipn (S i) l.
Proof.
  revert l; induction i as [| i IH]; intros [| z l] H; simpl in *;
    try discriminate.
  - reflexivity.
  - now apply IH.
Qed.

Lemma settle_loop_rest (fuel : nat) :
  forall ds cs i j txs,
    settle_loop fuel ds cs i j txs
    = txs ++ settle_rest fuel (skipn i ds) (skipn j cs).
Proof.
  induction fuel as [| fuel IH]; intros ds cs i j txs; simpl.
  - now rewrite app_nil_r.
  - destruct (nth_error ds i) as [[duid debt] |] eqn:Ed.
    2:{ rewrite (skipn_nth_error_none _ _ Ed). now rewrite app_nil_r. }
    rewrite (skipn_nth_error_some _ _ _ Ed).
    destruct (nth_error cs j) as [[cuid cred] |] eqn:Ec.
    2:{ rewrite (skipn_nth_error_none _ _ Ec). now rewrite app_nil_r. }
    rewrite (skipn_nth_error_some _ _ _ Ec).
    unfold keep_or_drop.
    destruct (Qle_bool (debt - Qmin debt cred) eps);
      destruct (Qle_bool (cred - Qmin debt cred) eps);
      rewrite IH, <- app_assoc; simpl;
      rewrite ?(skipn_list_set _ _ _ _ Ed), ?(skipn_list_set _ _ _ _ Ec);
      reflexivity.
Qed.

Lemma minimize_transactions_rest (balances : list (Z * Q)) :
  minimize_transactions balances
  = let ds := sort_desc (debtors_of balances) in
    let cs := sort_desc (creditors_of balances) in
    settle_rest (length ds + length cs) ds cs.
Proof.
  unfold minimize_transactions. now rewrite settle_loop_rest.
Qed.

(** ** One iteration *)

Lemma Qmin_cases (d c : Q) :
  (Qmin d c == d /\ d <= c) \/ (Qmin d c == c /\ c <= d).
Proof.
  destruct (Q.min_spec d c) as [[H E] | [H E]]; [left | right]; split;
    trivial; lra.
Qed.

Lemma keep_or_drop_cases (u : Z) (r : Q) (l : list (Z * Q)) :
  (r <= eps /\ keep_or_drop u r l = l)
  \/ (eps < r /\ keep_or_drop u r l = (u, r) :: l).
Proof.
  unfold keep_or_drop. destruct (Qle_bool r eps) eqn:E.
  - left. split; [now apply Qle_bool_iff | reflexivity].
  - right. split; [now apply Qle_bool_false | reflexivity].
Qed.

Lemma keep_or_drop_above (u : Z) (r : Q) (l : list (Z * Q)) :
  above_eps l -> above_eps (keep_or_drop u r l).
Proof.
  intros H. destruct (keep_or_drop_cases u r l) as [[_ ->] | [Hr ->]];
    [exact H | constructor; [exact Hr | exact H]].
Qed.

Lemma keep_or_drop_NoDup (u : Z) (m r : Q) (l : list (Z * Q)) :
  NoDup (Dict.keys ((u, m) :: l)) -> NoDup (Dict.keys (keep_or_drop u r l)).
Proof.
  intros H. destruct (keep_or_drop_cases u r l) as [[_ ->] | [_ ->]].
  - now inversion H.
  - exact H.
Qed.

Lemma keep_or_drop_length (u : Z) (r : Q) (l : list (Z * Q)) :
  (length (keep_or_drop u r l) <= S (length l))%nat
  /\ (r <= eps -> length (keep_or_drop u r l) = length l).
Proof.
  destruct (keep_or_drop_cases u r l) as [[Hr ->] | [Hr ->]]; simpl; split;
    try lia; intros; lra.
Qed.

(** ** Termination: the fuel given by [minimize_transactions] is enough *)

Lemma settle_rest_fuel (fuel : nat) :
  forall extra ds cs,
    (length ds + length cs <= fuel)%nat ->
    settle_rest (fuel + extra) ds cs = settle_rest fuel ds cs.
Proof.
  induction fuel as [| fuel IH]; intros extra ds cs Hf.
  - destruct ds, cs; simpl in Hf; try lia. now destruct extra.
  - simpl. destruct ds as [| [du d] ds]; [reflexivity |].
    destruct cs as [| [cu c] cs]; [reflexivity |].
    f_equal. apply IH. simpl in Hf.
    pose proof (keep_or_drop_length du (d - Qmin d c) ds) as [Hd Hd'].
    pose proof (keep_or_drop_length cu (c - Qmin d c) cs) as [Hc Hc'].
    destruct (Qmin_cases d c) as [[E _] | [E _]].
    + rewrite Hd' by (unfold eps; lra). lia.
    + rewrite Hc' by (unfold eps; lra). lia.
Qed.

(** ** Totals *)

Lemma total_nonneg (l : list (Z * Q)) : above_eps l -> 0 <= total l.
Proof.
  induction 1 as [| [u m] l Hm _ IHl]; cbn [total snd] in *; unfold eps in *; lra.
Qed.

Lemma scaled_length_cons {A} (x : A) (l : list A) :
  inject_Z (Z.of_nat (length (x :: l))) * eps
  == inject_Z (Z.of_nat (length l)) * eps + eps.
Proof.
  cbn [length]. rewrite Nat2Z.inj_succ. unfold Z.succ.
  rewrite inject_Z_plus. ring.
Qed.

Lemma settle_rest_total (fuel : nat) :
  forall ds cs,
    above_eps ds -> above_eps cs ->
    let txs := settle_rest fuel ds cs in
    0 <= tx_total txs /\ tx_total txs <= total ds /\ tx_total txs <= total cs.
Proof.
  induction fuel as [| fuel IH]; intros ds cs Hd Hc; cbn [settle_rest]; cbv zeta;
    pose proof (total_nonneg _ Hd) as Pd; pose proof (total_nonneg _ Hc) as Pc.
  - cbn [tx_total]. lra.
  - destruct ds as [| [du d] ds]; [cbn [tx_total total] in *; lra |].
    destruct cs as [| [cu c] cs]; [cbn [tx_total total] in *; lra |].
    inversion Hd as [| ? ? Hd1 Hd2]; inversion Hc as [| ? ? Hc1 Hc2]; subst.
    cbn [snd] in Hd1, Hc1.
    specialize (IH _ _ (keep_or_drop_above du (d - Qmin d c) ds Hd2)
                       (keep_or_drop_above cu (c - Qmin d c) cs Hc2)).
    cbv zeta in IH. destruct IH as (I0 & I1 & I2).
    cbn [tx_total tx_amount snd total].
    destruct (keep_or_drop_cases du (d - Qmin d c) ds) as [[Rd Ed] | [Rd Ed]];
      destruct (keep_or_drop_cases cu (c - Qmin d c) cs) as [[Rc Ec] | [Rc Ec]];
      rewrite Ed, Ec in *; cbn [total] in *;
      destruct (Qmin_cases d c) as [[E Hle] | [E Hle]];
      unfold eps in *; lra.
Qed.

(** ** Per-party accounting *)

Lemma side_settled_nil (side : transfer -> Z) (txs : list transfer) :
  0 <= tx_total txs -> side_settled side [] txs.
Proof.
  intros H. split; [intros u m [] |].
  cbn [total length]. change (inject_Z (Z.of_nat 0) * eps) with (0 * eps). lra.
Qed.

Lemma in_keys {V} (u : Z) (m : V) (l : list (Z * V)) :
  In (u, m) l -> In u (Dict.keys l).
Proof. intros H. apply (in_map fst) in H. exact H. Qed.

Lemma residual_sum_nil (side : transfer -> Z) (l : list (Z * Q)) :
  residual_sum side l [] == total l.
Proof.
  induction l as [| [u m] l IH]; cbn [residual_sum total flow]; lra.
Qed.

Lemma residual_sum_other (side : transfer -> Z) (t : transfer)
      (txs : list transfer) (l : list (Z * Q)) :
  ~ In (side t) (Dict.keys l) ->
  residual_sum side l (t :: txs) == residual_sum side l txs.
Proof.
  induction l as [| [u m] l IH]; cbn [residual_sum Dict.keys map fst In flow];
    intros H; [reflexivity |].
  destruct (Z.eqb_spec (side t) u) as [E | _];
    [exfalso; apply H; left; now symmetry |].
  rewrite IH by (intros Hin; apply H; now right). lra.
Qed.

Lemma residual_le_sum (side : transfer -> Z) (txs : list transfer)
      (l : list (Z * Q)) :
  (forall u m, In (u, m) l -> flow side u txs <= m) ->
  0 <= residual_sum side l txs
  /\ forall u m, In (u, m) l -> m - flow side u txs <= residual_sum side l txs.
Proof.
  induction l as [| [v n] l IH]; cbn [residual_sum]; intros H.
  - split; [lra | intros u m []].
  - destruct IH as [I0 I1]; [intros u m Hin; apply H; now right |].
    pose proof (H v n (or_introl eq_refl)) as Hv.
    split; [lra |]. intros u m [E | Hin].
    + inversion E; subst. lra.
    + specialize (I1 u m Hin). lra.
Qed.

Lemma side_ok_nil (side : transfer -> Z) (l : list (Z * Q)) :
  above_eps l -> side_ok side l [].
Proof.
  intros H. split; [reflexivity | split].
  - intros u m Hin. unfold above_eps in H. rewrite Forall_forall in H.
    specialize (H _ Hin). cbn [flow snd] in *. unfold eps in H. lra.
  - rewrite residual_sum_nil. cbn [tx_total]. lra.
Qed.

Section OneSide.
Variable side : transfer -> Z.
Variables (hu : Z) (h a : Q) (l' : list (Z * Q)).
Variables (t : transfer) (txs' : list transfer).
Hypothesis Hnodup : NoDup (Dict.keys ((hu, h) :: l')).
Hypothesis Hside : side t = hu.
Hypothesis Hamount : tx_amount t = a.
Hypothesis Ha : 0 <= a /\ a <= h.
Hypothesis Hrest : side_ok side (keep_or_drop hu (h - a) l') txs'.

Lemma flow_head : flow side hu (t :: txs') == a + flow side hu txs'.
Proof.
  cbn [flow]. rewrite Hside, Z.eqb_refl, Hamount. reflexivity.
Qed.

Lemma flow_other (u : Z) :
  u <> hu -> flow side u (t :: txs') == flow side u txs'.
Proof.
  intros Hu. cbn [flow]. rewrite Hside.
  destruct (Z.eqb_spec hu u); [congruence | lra].
Qed.

Lemma head_not_in_tail : ~ In hu (Dict.keys l').
Proof. now inversion Hnodup. Qed.

Lemma tail_not_head (u : Z) (m : Q) : In (u, m) l' -> u <> hu.
Proof.
  intros Hin ->. apply head_not_in_tail. exact (in_keys _ _ _ Hin).
Qed.

Lemma in_tail_kept (u : Z) (m : Q) :
  In (u, m) l' -> In (u, m) (keep_or_drop hu (h - a) l').
Proof.
  intros Hin.
  destruct (keep_or_drop_cases hu (h - a) l') as [[_ ->] | [_ ->]];
    [exact Hin | now right].
Qed.

Lemma side_ok_step : side_ok side ((hu, h) :: l') (t :: txs').
Proof.
  destruct Hrest as (Out & In_ & Sum). split; [| split].
  - intros u Hu. cbn [Dict.keys map fst In] in Hu.
    assert (Hne : u <> hu) by (intros ->; tauto).
    rewrite (flow_other u Hne). apply Out.
    intros Hk. apply Hu.
    destruct (keep_or_drop_cases hu (h - a) l') as [[_ E] | [_ E]];
      rewrite E in Hk; [now right | exact Hk].
  - intros u m [Heq | Hin].
    + inversion Heq; subst u m. rewrite flow_head.
      destruct (keep_or_drop_cases hu (h - a) l') as [[_ E] | [_ E]].
      * rewrite E in Out. rewrite (Out hu head_not_in_tail). lra.
      * rewrite E in In_. specialize (In_ hu (h - a) (or_introl eq_refl)). lra.
    + rewrite (flow_other u (tail_not_head _ _ Hin)).
      apply In_. now apply in_tail_kept.
  - cbn [residual_sum total tx_total]. rewrite flow_head, Hamount.
    rewrite residual_sum_other by (rewrite Hside; exact head_not_in_tail).
    destruct (keep_or_drop_cases hu (h - a) l') as [[_ E] | [_ E]];
      rewrite E in Sum, Out.
    + rewrite (Out hu head_not_in_tail). lra.
    + cbn [residual_sum total] in Sum. lra.
Qed.

Lemma side_settled_step :
  side_settled side (keep_or_drop hu (h - a) l') txs' ->
  side_settled side ((hu, h) :: l') (t :: txs').
Proof.
  destruct Hrest as (Out & In_ & _). intros [Hs Ht]. split.
  - intros u m [Heq | Hin].
    + inversion Heq; subst u m. rewrite flow_head.
      destruct (keep_or_drop_cases hu (h - a) l') as [[Hr E] | [_ E]].
      * rewrite E in Out. rewrite (Out hu head_not_in_tail). lra.
      * rewrite E in Hs. specialize (Hs hu (h - a) (or_introl eq_refl)). lra.
    + rewrite (flow_other u (tail_not_head _ _ Hin)).
      apply Hs. now apply in_tail_kept.
  - rewrite scaled_length_cons. cbn [total tx_total]. rewrite Hamount.
    destruct (keep_or_drop_cases hu (h - a) l') as [[Hr E] | [_ E]];
      rewrite E in Ht; [| rewrite scaled_length_cons in Ht];
      cbn [total] in Ht; lra.
Qed.
End OneSide.

Lemma settle_rest_sides (fuel : nat) :
  forall ds cs,
    above_eps ds -> above_eps cs ->
    NoDup (Dict.keys ds) -> NoDup (Dict.keys cs) ->
    let txs := settle_rest fuel ds cs in
    side_ok tx_from ds txs /\ side_ok tx_to cs txs
    /\ ((length ds + length cs <= fuel)%nat ->
        side_settled tx_from ds txs \/ side_settled tx_to cs txs).
Proof.
  induction fuel as [| fuel IH]; intros ds cs Hd Hc Nd Nc;
    cbn [settle_rest]; cbv zeta.
  - split; [now apply side_ok_nil | split; [now apply side_ok_nil |]].
    intros Hf. destruct ds; [| simpl in Hf; lia].
    left. apply side_settled_nil. cbn [tx_total]. lra.
  - destruct ds as [| [du d] ds].
    { split; [now apply side_ok_nil | split; [now apply side_ok_nil |]].
      intros _. left. apply side_settled_nil. cbn [tx_total]. lra. }
    destruct cs as [| [cu c] cs].
    { split; [now apply side_ok_nil | split; [now apply side_ok_nil |]].
      intros _. right. apply side_settled_nil. cbn [tx_total]. lra. }
    inversion Hd as [| ? ? Hd1 Hd2]; inversion Hc as [| ? ? Hc1 Hc2]; subst.
    cbn [snd] in Hd1, Hc1.
    assert (Ha : (0 <= Qmin d c /\ Qmin d c <= d)
                 /\ (0 <= Qmin d c /\ Qmin d c <= c)).
    { unfold eps in *. destruct (Qmin_cases d c) as [[E ?] | [E ?]]; lra. }
    destruct Ha as [Had Hac].
    specialize (IH _ _ (keep_or_drop_above du (d - Qmin d c) ds Hd2)
                       (keep_or_drop_above cu (c - Qmin d c) cs Hc2)
                       (keep_or_drop_NoDup du d _ ds Nd)
                       (keep_or_drop_NoDup cu c _ cs Nc)).
    cbv zeta in IH. destruct IH as (Id & Ic & Is).
    split; [| split].
    + now apply side_ok_step with (a := Qmin d c).
    + now apply side_ok_step with (a := Qmin d c).
    + intros Hf.
      assert (Hlen : (length (keep_or_drop du (d - Qmin d c) ds)
                      + length (keep_or_drop cu (c - Qmin d c) cs) <= fuel)%nat).
      { pose proof (keep_or_drop_length du (d - Qmin d c) ds) as [Ld Ld'].
        pose proof (keep_or_drop_length cu (c - Qmin d c) cs) as [Lc Lc'].
        simpl in Hf.
        destruct (Qmin_cases d c) as [[E _] | [E _]].
        - rewrite Ld' by (unfold eps; lra). lia.
        - rewrite Lc' by (unfold eps; lra). lia. }
      destruct (Is Hlen) as [S | S]; [left | right];
        now apply side_settled_step with (a := Qmin d c).
Qed.

(** ** From the loop to [minimize_transactions] *)

Lemma insert_desc_perm (x : Z * Q) (l : list (Z * Q)) :
  Permutation (insert_desc x l) (x :: l).
Proof.
  induction l as [| y l IH]; cbn [insert_desc]; [reflexivity |].
  destruct (Qltb (snd x) (snd y)); [| reflexivity].
  rewrite IH. apply perm_swap.
Qed.

Lemma sort_desc_perm (l : list (Z * Q)) : Permutation (sort_desc l) l.
Proof.
  induction l as [| x l IH]; cbn [sort_desc]; [reflexivity |].
  rewrite insert_desc_perm. now constructor.
Qed.

Lemma total_perm (l l' : list (Z * Q)) :
  Permutation l l' -> total l == total l'.
Proof.
  induction 1 as [| [u m] l l' _ IH | [u m] [v n] l | l l' l'' _ IH1 _ IH2];
    cbn [total]; lra.
Qed.

Lemma sort_desc_above (l : list (Z * Q)) : above_eps l -> above_eps (sort_desc l).
Proof.
  unfold above_eps. intros H.
  eapply Permutation_Forall; [symmetry; apply sort_desc_perm | exact H].
Qed.

Lemma sort_desc_NoDup (l : list (Z * Q)) :
  NoDup (Dict.keys l) -> NoDup (Dict.keys (sort_desc l)).
Proof.
  intros H. unfold Dict.keys.
  eapply Permutation_NoDup; [| exact H].
  apply Permutation_map. symmetry. apply sort_desc_perm.
Qed.

Lemma sort_desc_in (x : Z * Q) (l : list (Z * Q)) :
  In x (sort_desc l) <-> In x l.
Proof.
  split; apply Permutation_in; [| symmetry]; apply sort_desc_perm.
Qed.

Lemma keys_filter_NoDup {V} (f : Z * V -> bool) (l : list (Z * V)) :
  NoDup (Dict.keys l) -> NoDup (Dict.keys (filter f l)).
Proof.
  unfold Dict.keys. induction l as [| x l IH]; cbn [filter map]; intros H;
    [constructor |].
  inversion H as [| ? ? Hx Hl]; subst.
  destruct (f x); [| now apply IH].
  cbn [map]. constructor; [| now apply IH].
  intros Hin. apply Hx. apply in_map_iff in Hin as (y & Ey & Hy).
  apply filter_In in Hy as [Hy _]. rewrite <- Ey. now apply in_map.
Qed.

Lemma get_in {V} (u : Z) (a : V) (l : list (Z * V)) :
  NoDup (Dict.keys l) -> In (u, a) l -> Dict.get u l = Some a.
Proof.
  induction l as [| [k v] l IH]; cbn [Dict.get Dict.keys map fst];
    intros Hn Hin; [contradiction |].
  inversion Hn as [| ? ? Hk Hl]; subst.
  destruct Hin as [E | Hin].
  - inversion E; subst. now rewrite Z.eqb_refl.
  - destruct (Z.eqb_spec u k) as [-> | _]; [| now apply IH].
    exfalso. apply Hk. exact (in_keys _ _ _ Hin).
Qed.

Lemma in_debtors (u : Z) (m : Q) (balances : list (Z * Q)) :
  In (u, m) (debtors_of balances)
  <-> exists a, In (u, a) balances /\ a < - eps /\ m = - a.
Proof.
  unfold debtors_of. rewrite in_map_iff. split.
  - intros ([k a] & E & Hin). inversion E; subst.
    apply filter_In in Hin as [Hin Hlt]. apply Qltb_lt in Hlt.
    exists a. auto.
  - intros (a & Hin & Hlt & ->). exists (u, a). split; [reflexivity |].
    apply filter_In. split; [exact Hin | now apply Qltb_lt].
Qed.

Lemma in_creditors (u : Z) (m : Q) (balances : list (Z * Q)) :
  In (u, m) (creditors_of balances) <-> In (u, m) balances /\ eps < m.
Proof.
  unfold creditors_of. rewrite filter_In. cbn [snd]. now rewrite Qltb_lt.
Qed.

Lemma debtors_above (balances : list (Z * Q)) : above_eps (debtors_of balances).
Proof.
  apply Forall_forall. intros [u m] Hin.
  apply in_debtors in Hin as (a & _ & Hlt & ->). cbn [snd]. lra.
Qed.

Lemma creditors_above (balances : list (Z * Q)) : above_eps (creditors_of balances).
Proof.
  apply Forall_forall. intros [u m] Hin. now apply in_creditors in Hin.
Qed.

Lemma debtors_NoDup (balances : list (Z * Q)) :
  NoDup (Dict.keys balances) -> NoDup (Dict.keys (debtors_of balances)).
Proof.
  intros H. unfold debtors_of, Dict.keys. rewrite map_map. cbn [fst].
  now apply (keys_filter_NoDup (V := Q)).
Qed.

Lemma creditors_NoDup (balances : list (Z * Q)) :
  NoDup (Dict.keys balances) -> NoDup (Dict.keys (creditors_of balances)).
Proof. apply keys_filter_NoDup. Qed.

Lemma in_keys_inv {V} (u : Z) (l : list (Z * V)) :
  In u (Dict.keys l) -> exists m, In (u, m) l.
Proof.
  unfold Dict.keys. rewrite in_map_iff. intros ([k m] & E & H).
  cbn [fst] in E. subst. now exists m.
Qed.

(** The loop has left the [while] within the fuel it is given: more fuel
    yields the same transfers. *)
Lemma minimize_transactions_fuel (balances : list (Z * Q)) (extra : nat) :
  let ds := sort_desc (debtors_of balances) in
  let cs := sort_desc (creditors_of balances) in
  settle_loop (length ds + length cs + extra) ds cs 0 0 []
  = minimize_transactions balances.
Proof.
  cbv zeta. unfold minimize_transactions. rewrite !settle_loop_rest.
  f_equal. now apply settle_rest_fuel.
Qed.

(** The scenario of the specification: A is owed 50000, B owes 40000 and C
    owes 10000; B and C each pay A. *)
Example minimize_transactions_scenario :
  minimize_transactions [(1%Z, 50000); (2%Z, - (40000)); (3%Z, - (10000))]
  = [(2%Z, 1%Z, 40000); (3%Z, 1%Z, 10000)].
Proof. reflexivity. Qed.

Example minimize_transactions_uneven :
  minimize_transactions uneven_table
  = [(1%Z, 4%Z, 1); (2%Z, 5%Z, 1); (3%Z, 6%Z, 63 # 64)].
Proof. vm_compute. reflexivity. Qed.

(** C2, as stated, fails: on [uneven_table] the positive and the negative
    balances both add up to 3, yet the transfers add up to 3 - 1/64, which is
    further than 0.01 from 3, and user 3 still owes 1/64 > 0.01.  (The two
    creditors of 1 + 1/128 are each dropped with 1/128 <= 0.01 left.) *)
Lemma minimize_transactions_not_within_eps :
  NoDup (Dict.keys uneven_table)
  /\ balanced uneven_table
  /\ ~ settles_within_eps uneven_table
  /\ ~ Qabs (tx_total (minimize_transactions uneven_table)
             - positive_total uneven_table) <= eps
  /\ ~ Qabs (residual uneven_table (minimize_transactions uneven_table) 3) <= eps.
Proof.
  assert (Hsum : ~ Qabs (tx_total (minimize_transactions uneven_table)
                         - positive_total uneven_table) <= eps).
  { intros H. vm_compute in H. now apply H. }
  split; [| split; [| split; [| split]]].
  - repeat constructor; cbn; intuition discriminate.
  - unfold balanced. vm_compute. discriminate.
  - intros (H & _). now apply Hsum.
  - exact Hsum.
  - intros H. vm_compute in H. now apply H.
Qed.

Lemma get_in_inv {V} (u : Z) (a : V) (l : list (Z * V)) :
  Dict.get u l = Some a -> In (u, a) l.
Proof.
  induction l as [| [k v] l IH]; cbn [Dict.get]; [discriminate |].
  destruct (Z.eqb_spec u k) as [-> | _].
  - intros E. inversion E. now left.
  - intros E. right. now apply IH.
Qed.

Lemma count_nonneg {A} (l : list A) : 0 <= inject_Z (Z.of_nat (length l)).
Proof.
  change 0 with (inject_Z 0). rewrite <- Zle_Qle. apply Nat2Z.is_nonneg.
Qed.

Ltac qltb_to_prop :=
  repeat match goal with
         | H : Qltb _ _ = true |- _ => apply Qltb_lt in H
         | H : Qltb _ _ = false |- _ => apply Qltb_ge in H
         end.

(** The users left out of the matching hold at most [eps] each. *)
Lemma positive_total_creditors (balances : list (Z * Q)) :
  total (creditors_of balances) <= positive_total balances
  /\ positive_total balances
     + inject_Z (Z.of_nat (length (creditors_of balances))) * eps
     <= total (creditors_of balances)
        + inject_Z (Z.of_nat (length balances)) * eps.
Proof.
  unfold creditors_of.
  induction balances as [| [u a] l [IH1 IH2]]; cbn [filter positive_total snd].
  - cbn [total length]. lra.
  - rewrite scaled_length_cons.
    destruct (Qltb eps a) eqn:E1; destruct (Qltb 0 a) eqn:E2;
      rewrite ?scaled_length_cons; cbn [total];
      qltb_to_prop; unfold eps in *; lra.
Qed.

Lemma negative_total_debtors (balances : list (Z * Q)) :
  total (debtors_of balances) <= negative_total balances
  /\ negative_total balances
     + inject_Z (Z.of_nat (length (debtors_of balances))) * eps
     <= total (debtors_of balances)
        + inject_Z (Z.of_nat (length balances)) * eps.
Proof.
  unfold debtors_of.
  induction balances as [| [u a] l [IH1 IH2]];
    cbn [filter map negative_total snd fst].
  - cbn [total length]. lra.
  - rewrite scaled_length_cons.
    destruct (Qltb a (- eps)) eqn:E1; destruct (Qltb a 0) eqn:E2;
      cbn [map fst snd]; rewrite ?scaled_length_cons; cbn [total];
      qltb_to_prop; unfold eps in *; lra.
Qed.

(** What the loop guarantees, side by side: the transfers stay below both
    totals; a debtor only sends, a creditor only receives, a user within
    [eps] of zero is left alone; nobody moves more than their balance nor is
    left with more than their side is; and one side is settled. *)
Lemma minimize_transactions_accounts (balances : list (Z * Q)) :
  NoDup (Dict.keys balances) ->
  let txs := minimize_transactions balances in
  let debt := total (debtors_of balances) in
  let cred := total (creditors_of balances) in
  let count l := inject_Z (Z.of_nat (length l)) in
  (0 <= tx_total txs /\ tx_total txs <= debt /\ tx_total txs <= cred)
  /\ (forall u a, In (u, a) balances -> a < - eps ->
        a <= residual balances txs u /\ residual balances txs u <= 0
        /\ - residual balances txs u <= debt - tx_total txs)
  /\ (forall u a, In (u, a) balances -> eps < a ->
        0 <= residual balances txs u /\ residual balances txs u <= a
        /\ residual balances txs u <= cred - tx_total txs)
  /\ (forall u a, In (u, a) balances -> - eps <= a -> a <= eps ->
        residual balances txs u == a)
  /\ (((forall u a, In (u, a) balances -> a < - eps ->
          - eps <= residual balances txs u)
       /\ debt - tx_total txs <= count (debtors_of balances) * eps)
      \/ ((forall u a, In (u, a) balances -> eps < a ->
             residual balances txs u <= eps)
          /\ cred - tx_total txs <= count (creditors_of balances) * eps)).
Proof.
  intros Hn. cbv zeta. rewrite minimize_transactions_rest. cbv zeta.
  set (ds := sort_desc (debtors_of balances)).
  set (cs := sort_desc (creditors_of balances)).
  set (txs := settle_rest (length ds + length cs) ds cs).
  assert (Ad : above_eps ds) by apply sort_desc_above, debtors_above.
  assert (Ac : above_eps cs) by apply sort_desc_above, creditors_above.
  assert (Nd : NoDup (Dict.keys ds)) by now apply sort_desc_NoDup, debtors_NoDup.
  assert (Nc : NoDup (Dict.keys cs)) by now apply sort_desc_NoDup, creditors_NoDup.
  destruct (settle_rest_total (length ds + length cs) ds cs Ad Ac)
    as (T0 & Td & Tc).
  destruct (settle_rest_sides (length ds + length cs) ds cs Ad Ac Nd Nc)
    as ((Dout & Din & Dsum) & (Cout & Cin & Csum) & Hs).
  fold txs in T0, Td, Tc, Dout, Din, Dsum, Cout, Cin, Csum, Hs.
  specialize (Hs (Nat.le_refl _)).
  destruct (residual_le_sum tx_from txs ds) as [_ Dle];
    [intros u m Hin; now apply Din |].
  destruct (residual_le_sum tx_to txs cs) as [_ Cle];
    [intros u m Hin; now apply Cin |].
  assert (Ed : total ds == total (debtors_of balances))
    by apply total_perm, sort_desc_perm.
  assert (Ec : total cs == total (creditors_of balances))
    by apply total_perm, sort_desc_perm.
  assert (Ld : length ds = length (debtors_of balances))
    by apply Permutation_length, sort_desc_perm.
  assert (Lc : length cs = length (creditors_of balances))
    by apply Permutation_length, sort_desc_perm.
  (* who is on which side *)
  assert (Hnotd : forall u a, In (u, a) balances -> - eps <= a ->
                              ~ In u (Dict.keys ds)).
  { intros u a Hin Hge Hk. apply in_keys_inv in Hk as (m & Hm).
    apply sort_desc_in, in_debtors in Hm as (b & Hb & Hneg & _).
    pose proof (get_in u b balances Hn Hb) as G.
    rewrite (get_in u a balances Hn Hin) in G. inversion G; subst. lra. }
  assert (Hnotc : forall u a, In (u, a) balances -> a <= eps ->
                              ~ In u (Dict.keys cs)).
  { intros u a Hin Hle Hk. apply in_keys_inv in Hk as (m & Hm).
    apply sort_desc_in, in_creditors in Hm as [Hm Hpos].
    pose proof (get_in u m balances Hn Hm) as G.
    rewrite (get_in u a balances Hn Hin) in G. inversion G; subst. lra. }
  assert (Hdebtor : forall u a, In (u, a) balances -> a < - eps ->
            In (u, - a) ds /\ residual balances txs u == a + paid u txs).
  { intros u a Hin Hlt. split.
    - apply sort_desc_in, in_debtors. now exists a.
    - unfold residual. rewrite (get_in u a balances Hn Hin).
      unfold received. rewrite Cout; [lra |].
      apply (Hnotc u a Hin). unfold eps in *. lra. }
  assert (Hcreditor : forall u a, In (u, a) balances -> eps < a ->
            In (u, a) cs /\ residual balances txs u == a - received u txs).
  { intros u a Hin Hlt. split.
    - apply sort_desc_in, in_creditors. now split.
    - unfold residual. rewrite (get_in u a balances Hn Hin).
      unfold paid. rewrite Dout; [lra |].
      apply (Hnotd u a Hin). unfold eps in *. lra. }
  split; [| split; [| split; [| split]]].
  - lra.
  - intros u a Hin Hlt. destruct (Hdebtor u a Hin Hlt) as [Hd ->].
    destruct (Din u (- a) Hd) as [P0 P1]. specialize (Dle u (- a) Hd).
    unfold paid. repeat split; lra.
  - intros u a Hin Hlt. destruct (Hcreditor u a Hin Hlt) as [Hc ->].
    destruct (Cin u a Hc) as [P0 P1]. specialize (Cle u a Hc).
    unfold received. repeat split; lra.
  - intros u a Hin Hge Hle. unfold residual.
    rewrite (get_in u a balances Hn Hin). unfold paid, received.
    rewrite (Dout u (Hnotd u a Hin Hge)), (Cout u (Hnotc u a Hin Hle)). lra.
  - destruct Hs as [[Sp St] | [Sp St]]; [left | right]; split.
    + intros u a Hin Hlt. destruct (Hdebtor u a Hin Hlt) as [Hd ->].
      specialize (Sp u (- a) Hd). unfold paid. lra.
    + rewrite <- Ld, <- Ed. exact St.
    + intros u a Hin Hlt. destruct (Hcreditor u a Hin Hlt) as [Hc ->].
      specialize (Sp u a Hc). unfold received. lra.
    + rewrite <- Lc, <- Ec. exact St.
Qed.

(** ** The remainders and the transfers stay on the grid *)

Lemma on_grid_grid (k : nat) (x : Q) : on_grid k x = true <-> grid k x.
Proof.
  unfold on_grid, grid. destruct x as [qn qd]. cbn [Qnum Qden].
  set (P := (2 ^ Z.of_nat k)%Z).
  assert (Hq : forall m : Z,
             (qn # qd) * inject_Z P == inject_Z m <-> (qn * P = m * Zpos qd)%Z).
  { intros m. unfold Qeq. cbn [Qnum Qden Qmult inject_Z].
    rewrite Pos.mul_1_r, Z.mul_1_r. reflexivity. }
  rewrite andb_true_iff, Z.eqb_eq, Z.leb_le. split.
  - intros [Hm Hb]. exists (qn * P / Zpos qd)%Z. split; [exact Hb |].
    apply Hq. rewrite (Z.mul_comm (_ / _)). apply Z.div_exact; [discriminate | exact Hm].
  - intros (m & Hb & E). apply Hq in E. rewrite E.
    rewrite Z.mod_mul, Z.div_mul by discriminate. now split.
Qed.

Lemma grid_eq (k : nat) (x y : Q) : x == y -> grid k x -> grid k y.
Proof. intros E (m & Hb & Hm). exists m. split; [exact Hb | now rewrite <- E]. Qed.

Lemma grid_opp (k : nat) (x : Q) : grid k x -> grid k (- x).
Proof.
  intros (m & Hb & Hm). exists (- m)%Z. split; [lia |].
  rewrite inject_Z_opp, <- Hm. ring.
Qed.

Lemma grid_zero (k : nat) : grid k 0.
Proof. exists 0%Z. split; [lia | ring]. Qed.

(** The subtraction of the loop: an amount between zero and the remainder
    is taken off the remainder. *)
Lemma grid_sub (k : nat) (a b : Q) :
  grid k a -> grid k b -> 0 <= b -> b <= a -> grid k (a - b).
Proof.
  intros (ma & Ha & Ea) (mb & Hb & Eb) H0 Hle.
  assert (HP : 0 < inject_Z (2 ^ Z.of_nat k)).
  { change 0 with (inject_Z 0). rewrite <- Zlt_Qlt. apply Z.pow_pos_nonneg; lia. }
  assert (Hb0 : (0 <= mb)%Z).
  { rewrite Zle_Qle, <- Eb. change (inject_Z 0) with 0. nra. }
  assert (Hba : (mb <= ma)%Z).
  { rewrite Zle_Qle, <- Ea, <- Eb. nra. }
  exists (ma - mb)%Z. split; [lia |].
  unfold Z.sub. rewrite inject_Z_plus, inject_Z_opp, <- Ea, <- Eb. ring.
Qed.

Lemma keep_or_drop_grid (k : nat) (u : Z) (r : Q) (l : list (Z * Q)) :
  grid k r -> 0 <= r ->
  Forall (fun p => grid k (snd p) /\ 0 <= snd p) l ->
  Forall (fun p => grid k (snd p) /\ 0 <= snd p) (keep_or_drop u r l).
Proof.
  intros Hr H0 Hl. destruct (keep_or_drop_cases u r l) as [[_ ->] | [_ ->]];
    [exact Hl | now constructor].
Qed.

Lemma settle_rest_grid (k : nat) (fuel : nat) :
  forall ds cs,
    Forall (fun p => grid k (snd p) /\ 0 <= snd p) ds ->
    Forall (fun p => grid k (snd p) /\ 0 <= snd p) cs ->
    Forall (fun t => grid k (tx_amount t)) (settle_rest fuel ds cs).
Proof.
  induction fuel as [| fuel IH]; intros ds cs Hd Hc; cbn [settle_rest];
    [constructor |].
  destruct ds as [| [du d] ds]; [constructor |].
  destruct cs as [| [cu c] cs]; [constructor |].
  inversion Hd as [| ? ? [Gd Pd] Hd']; inversion Hc as [| ? ? [Gc Pc] Hc']; subst.
  cbn [snd] in *.
  assert (Hmin : grid k (Qmin d c) /\ 0 <= Qmin d c
                 /\ Qmin d c <= d /\ Qmin d c <= c).
  { destruct (Qmin_cases d c) as [[E ?] | [E ?]].
    - split; [apply (grid_eq k d); [now symmetry | exact Gd] | lra].
    - split; [apply (grid_eq k c); [now symmetry | exact Gc] | lra]. }
  destruct Hmin as (Gm & Pm & Ld & Lc).
  constructor; [exact Gm |].
  apply IH; apply keep_or_drop_grid; trivial;
    try (now apply grid_sub); lra.
Qed.

Lemma minimize_transactions_grid (k : nat) (balances : list (Z * Q)) :
  exact_balances k balances = true ->
  Forall (fun t => on_grid k (tx_amount t) = true) (minimize_transactions balances).
Proof.
  unfold exact_balances. rewrite andb_true_iff, forallb_forall. intros [_ Hg].
  rewrite minimize_transactions_rest. cbv zeta.
  eapply Forall_impl; [intros t Ht; apply on_grid_grid; exact Ht |].
  apply settle_rest_grid; apply Forall_forall; intros [u m] Hin;
    apply (proj1 (sort_desc_in _ _)) in Hin; cbn [snd].
  - apply in_debtors in Hin as (a & Ha & Hlt & ->).
    split; [apply grid_opp, on_grid_grid; exact (Hg _ Ha) | unfold eps in *; lra].
  - apply in_creditors in Hin as [Ha Hlt].
    split; [apply on_grid_grid; exact (Hg _ Ha) | unfold eps in *; lra].
Qed.

(** C2 (amended): for every balance mapping with distinct users whose
    balances are on a binary grid (multiples of 2^-k, k at most 1000, of
    magnitude at most 2^53 such multiples: whole amounts up to 2^53, for
    one), and whose positive balances and negative balances add up to the
    same total within 0.01, the transfers of [minimize_transactions] add up
    to at most that total and to it within (n + 1) times 0.01, for n users;
    once the transfers are applied no residual has changed sign, no user is
    left with more than (n + 1) times 0.01, and on one of the two sides, the
    users who owe or the users who are owed, no user is left with more than
    0.01.  (Remainders of at most 0.01 are dropped, one per user at most,
    and they add up.)  On the grid the subtractions of the loop are exact in
    binary64, and every transfer is on the grid again: the transfers are the
    ones the code returns.  Off the grid the code rounds each remainder, and
    the sums above are those of the rounded numbers only approximately. *)
Theorem minimize_transactions_settles_one_side (k : nat)
        (balances : list (Z * Q)) :
  NoDup (Dict.keys balances) ->
  exact_balances k balances = true ->
  balanced balances ->
  let txs := minimize_transactions balances in
  let slack := (inject_Z (Z.of_nat (length balances)) + 1) * eps in
  Forall (fun t => on_grid k (tx_amount t) = true) txs
  /\ (tx_total txs <= positive_total balances
      /\ positive_total balances - tx_total txs <= slack)
  /\ (tx_total txs <= negative_total balances
      /\ negative_total balances - tx_total txs <= slack)
  /\ (forall u, Qabs (residual balances txs u) <= slack)
  /\ (forall u a, In (u, a) balances ->
        (a <= 0 -> a <= residual balances txs u /\ residual balances txs u <= 0)
        /\ (0 <= a -> 0 <= residual balances txs u /\ residual balances txs u <= a))
  /\ ((forall u a, In (u, a) balances -> a <= 0 ->
         - eps <= residual balances txs u)
      \/ (forall u a, In (u, a) balances -> 0 <= a ->
            residual balances txs u <= eps)).
Proof.
  intros Hn Hgrid Hbal. cbv zeta.
  split; [now apply minimize_transactions_grid |].
  destruct (minimize_transactions_accounts balances Hn)
    as ((T0 & Td & Tc) & Hdeb & Hcre & Hsmall & Hside).
  cbv zeta in Td, Tc, Hdeb, Hcre, Hsmall, Hside.
  set (txs := minimize_transactions balances) in *.
  destruct (positive_total_creditors balances) as [P1 P2].
  destruct (negative_total_debtors balances) as [N1 N2].
  pose proof (count_nonneg balances) as Cb.
  pose proof (count_nonneg (debtors_of balances)) as Cd.
  pose proof (count_nonneg (creditors_of balances)) as Cc.
  unfold balanced in Hbal. apply Qabs_Qle_condition in Hbal as [B1 B2].
  (* the three kinds of users *)
  assert (Hkind : forall u a, In (u, a) balances ->
            (a < - eps /\ a <= residual balances txs u
             /\ residual balances txs u <= 0
             /\ - residual balances txs u
                <= total (debtors_of balances) - tx_total txs)
            \/ (eps < a /\ 0 <= residual balances txs u
                /\ residual balances txs u <= a
                /\ residual balances txs u
                   <= total (creditors_of balances) - tx_total txs)
            \/ (- eps <= a /\ a <= eps /\ residual balances txs u == a)).
  { intros u a Hin.
    destruct (Qlt_le_dec a (- eps)) as [Hlt | Hge].
    - left. destruct (Hdeb u a Hin Hlt) as (? & ? & ?). auto.
    - destruct (Qlt_le_dec eps a) as [Hgt | Hle].
      + right; left. destruct (Hcre u a Hin Hgt) as (? & ? & ?). auto.
      + right; right. split; [exact Hge | split; [exact Hle |]].
        now apply Hsmall. }
  assert (Hslack : positive_total balances - tx_total txs
                   <= (inject_Z (Z.of_nat (length balances)) + 1) * eps
                   /\ negative_total balances - tx_total txs
                      <= (inject_Z (Z.of_nat (length balances)) + 1) * eps).
  { unfold eps in *. destruct Hside as [[_ St] | [_ St]]; split; lra. }
  destruct Hslack as [SP SN].
  split; [split; [lra | exact SP] |].
  split; [split; [lra | exact SN] |].
  split; [| split].
  - intros u. apply Qabs_Qle_condition. unfold residual at 1 2.
    destruct (Dict.get u balances) as [a |] eqn:G.
    + apply get_in_inv in G.
      pose proof (Hkind u a G) as K. unfold residual in K.
      rewrite (get_in u a balances Hn G) in K.
      unfold eps in *.
      destruct K as [(? & ? & ? & ?) | [(? & ? & ? & ?) | (? & ? & ?)]];
        split; lra.
    + unfold eps. split; lra.
  - intros u a Hin. unfold eps in *.
    destruct (Hkind u a Hin) as [(? & ? & ? & ?) | [(? & ? & ? & ?) | (? & ? & ?)]];
      split; intros; split; lra.
  - destruct Hside as [[Sd _] | [Sc _]]; [left | right]; intros u a Hin Hsign;
      unfold eps in *;
      destruct (Hkind u a Hin) as [(Hk & ? & ? & ?) | [(Hk & ? & ? & ?) | (? & ? & ?)]];
      try lra.
    + specialize (Sd u a Hin Hk). lra.
    + specialize (Sc u a Hin Hk). lra.
Qed.

Lemma minimize_transactions_settles_one_side_witness :
  NoDup (Dict.keys uneven_table)
  /\ exact_balances 7 uneven_table = true
  /\ balanced uneven_table
  /\ tx_total (minimize_transactions uneven_table) <= positive_total uneven_table
  /\ positive_total uneven_table - tx_total (minimize_transactions uneven_table)
     <= (inject_Z (Z.of_nat (length uneven_table)) + 1) * eps.
Proof.
  assert (Hn : NoDup (Dict.keys uneven_table))
    by (repeat constructor; cbn; intuition discriminate).
  assert (Hb : balanced uneven_table)
    by (unfold balanced; vm_compute; discriminate).
  split; [exact Hn | split; [reflexivity | split; [exact Hb |]]].
  exact (proj1 (proj2 (minimize_transactions_settles_one_side
                         7 uneven_table Hn eq_refl Hb))).
Defined.

End SettlementFacts.

(** * Facts about the ledger *)

Module LedgerFacts.
Import Settlement Json Ledger.

Local Open Scope Z_scope.

(** ** Lists and lookups *)

Lemma find_open_some (chat : Z) (tbl : list session) (s : session) :
  find_open chat tbl = Some s ->
  In s tbl /\ s_chat_id s = chat /\ s_status s = Open.
Proof.
  intros H. apply find_some in H as [Hin Ho]. unfold open_in in Ho.
  apply andb_true_iff in Ho as [Hc Hs]. apply Z.eqb_eq in Hc.
  destruct (s_status s); [auto | discriminate].
Qed.

Lemma find_open_last_some (chat : Z) (tbl : list session) (s : session) :
  find_open_last chat tbl = Some s ->
  In s tbl /\ s_chat_id s = chat /\ s_status s = Open.
Proof.
  intros H. apply find_some in H as [Hin Ho]. apply in_rev in Hin.
  unfold open_in in Ho. apply andb_true_iff in Ho as [Hc Hs].
  apply Z.eqb_eq in Hc. destruct (s_status s); [auto | discriminate].
Qed.

Lemma find_open_none_filter (chat : Z) (tbl : list session) :
  find_open chat tbl = None -> filter (open_in chat) tbl = [].
Proof.
  intros H. induction tbl as [| s tbl IH]; [reflexivity |].
  cbn [find_open find filter] in *. destruct (open_in chat s); [discriminate |].
  now apply IH.
Qed.

Lemma find_session_some (id : Z) (tbl : list session) (s : session) :
  find_session id tbl = Some s -> In s tbl /\ s_id s = id.
Proof.
  intros H. apply find_some in H as [Hin E]. now apply Z.eqb_eq in E.
Qed.

Lemma find_item_some (id : Z) (tbl : list item) (it : item) :
  find_item id tbl = Some it -> In it tbl /\ i_id it = id.
Proof.
  intros H. apply find_some in H as [Hin E]. now apply Z.eqb_eq in E.
Qed.

(** With a primary key, a row is the one its id finds. *)
Lemma NoDup_map_inj {A} (f : A -> Z) (l : list A) (x y : A) :
  NoDup (map f l) -> In x l -> In y l -> f x = f y -> x = y.
Proof.
  induction l as [| z l IH]; cbn [map]; intros Hn Hx Hy E; [contradiction |].
  inversion Hn as [| ? ? Hz Hl]; subst.
  destruct Hx as [-> | Hx], Hy as [-> | Hy]; auto.
  - exfalso. apply Hz. rewrite E. now apply in_map.
  - exfalso. apply Hz. rewrite <- E. now apply in_map.
Qed.

Lemma find_session_in (tbl : list session) (s : session) :
  NoDup (map s_id tbl) -> In s tbl -> find_session (s_id s) tbl = Some s.
Proof.
  intros Hn Hin. unfold find_session.
  destruct (find (fun s0 => s_id s0 =? s_id s) tbl) as [s' |] eqn:E.
  - apply find_some in E as [Hin' E']. apply Z.eqb_eq in E'.
    f_equal. eapply NoDup_map_inj; eauto.
  - exfalso. eapply find_none in E; [| exact Hin]. cbn in E.
    now rewrite Z.eqb_refl in E.
Qed.

Lemma find_item_in (tbl : list item) (it : item) :
  NoDup (map i_id tbl) -> In it tbl -> find_item (i_id it) tbl = Some it.
Proof.
  intros Hn Hin. unfold find_item.
  destruct (find (fun x => i_id x =? i_id it) tbl) as [it' |] eqn:E.
  - apply find_some in E as [Hin' E']. apply Z.eqb_eq in E'.
    f_equal. eapply NoDup_map_inj; eauto.
  - exfalso. eapply find_none in E; [| exact Hin]. cbn in E.
    now rewrite Z.eqb_refl in E.
Qed.

(** ** Dictionaries *)

Lemma get_set_same {V} (k : Z) (v : V) (d : list (Z * V)) :
  Dict.get k (Dict.set k v d) = Some v.
Proof.
  induction d as [| [k' v'] d IH]; cbn [Dict.set Dict.get].
  - now rewrite Z.eqb_refl.
  - destruct (k =? k') eqn:E; cbn [Dict.get]; rewrite ?Z.eqb_refl, ?E; auto.
Qed.

Lemma get_set_other {V} (k k' : Z) (v : V) (d : list (Z * V)) :
  k' <> k -> Dict.get k' (Dict.set k v d) = Dict.get k' d.
Proof.
  intros Hne. induction d as [| [k0 v0] d IH]; cbn [Dict.set Dict.get].
  - destruct (Z.eqb_spec k' k); [contradiction | reflexivity].
  - destruct (Z.eqb_spec k k0) as [-> | Hk]; cbn [Dict.get].
    + destruct (Z.eqb_spec k' k0); [contradiction | reflexivity].
    + destruct (k' =? k0); [reflexivity | exact IH].
Qed.

Lemma get_some_in {V} (k : Z) (d : list (Z * V)) :
  In k (Dict.keys d) <-> exists v, Dict.get k d = Some v.
Proof.
  induction d as [| [k' v'] d IH]; cbn [Dict.keys map fst In Dict.get].
  - split; [contradiction | intros [v Hv]; discriminate].
  - destruct (Z.eqb_spec k k') as [-> | Hne].
    + split; [eauto | auto].
    + rewrite <- IH. unfold Dict.keys. split; [intros [E | H]; [congruence | exact H] | auto].
Qed.

Lemma keys_set_in {V} (k : Z) (v : V) (d : list (Z * V)) :
  In k (Dict.keys d) -> Dict.keys (Dict.set k v d) = Dict.keys d.
Proof.
  unfold Dict.keys.
  induction d as [| [k' v'] d IH]; cbn [Dict.set map fst In]; [contradiction |].
  intros H. destruct (Z.eqb_spec k k') as [-> | Hne]; cbn [map fst]; [reflexivity |].
  f_equal. apply IH. destruct H; [congruence | assumption].
Qed.

Lemma keys_set {V} (k k' : Z) (v : V) (d : list (Z * V)) :
  In k' (Dict.keys (Dict.set k v d)) <-> k' = k \/ In k' (Dict.keys d).
Proof.
  unfold Dict.keys.
  induction d as [| [k0 v0] d IH]; cbn [Dict.set map fst In].
  - intuition congruence.
  - destruct (Z.eqb_spec k k0) as [-> | Hne]; cbn [map fst In].
    + intuition congruence.
    + rewrite IH. intuition congruence.
Qed.

Lemma set_not_nil {V} (k : Z) (v : V) (d : list (Z * V)) : Dict.set k v d <> [].
Proof.
  destruct d as [| [k' v'] d]; cbn [Dict.set]; [discriminate |].
  destruct (k =? k'); discriminate.
Qed.

Lemma keys_dict_of_from {V} (rows : list (Z * V)) :
  forall (d : list (Z * V)) k,
    In k (Dict.keys (fold_left (fun d r => Dict.set (fst r) (snd r) d) rows d))
    <-> In k (map fst rows) \/ In k (Dict.keys d).
Proof.
  induction rows as [| [k0 v0] rows IH]; intros d k; cbn [fold_left map fst snd In].
  - tauto.
  - rewrite IH, keys_set. intuition congruence.
Qed.

Lemma keys_dict_of {V} (rows : list (Z * V)) (k : Z) :
  In k (Dict.keys (dict_of rows)) <-> In k (map fst rows).
Proof.
  unfold dict_of. rewrite keys_dict_of_from. cbn. tauto.
Qed.

Lemma dict_of_nil {V} (rows : list (Z * V)) : dict_of rows = [] <-> rows = [].
Proof.
  split; [| intros ->; reflexivity].
  intros H. destruct rows as [| [k v] rows]; [reflexivity |].
  exfalso. assert (Hk : In k (Dict.keys (dict_of ((k, v) :: rows)))).
  { apply keys_dict_of. now left. }
  rewrite H in Hk. exact Hk.
Qed.

(** ** The invariant is kept by every change *)

Lemma single_open_insert (tbl : list session) (row : session) :
  single_open tbl -> find_open (s_chat_id row) tbl = None ->
  single_open (tbl ++ [row]).
Proof.
  intros H Hnone chat. rewrite filter_app, length_app. cbn [filter].
  destruct (open_in chat row) eqn:E; cbn [length]; [| specialize (H chat); lia].
  unfold open_in in E. apply andb_true_iff in E as [E _]. apply Z.eqb_eq in E.
  subst chat. rewrite (find_open_none_filter _ _ Hnone). cbn. lia.
Qed.

Lemma close_row_id (id now : Z) (s : session) : s_id (close_row id now s) = s_id s.
Proof. unfold close_row. now destruct (s_id s =? id). Qed.

Lemma close_rows_ids (id now : Z) (tbl : list session) :
  map s_id (close_rows id now tbl) = map s_id tbl.
Proof.
  unfold close_rows. rewrite map_map. apply map_ext, close_row_id.
Qed.

Lemma close_row_open (id now chat : Z) (s : session) :
  open_in chat (close_row id now s) = true -> close_row id now s = s.
Proof.
  unfold close_row. destruct (s_id s =? id); [| reflexivity].
  unfold open_in. cbn. rewrite andb_false_r. discriminate.
Qed.

Lemma close_rows_open_le (id now chat : Z) (tbl : list session) :
  (length (filter (open_in chat) (close_rows id now tbl))
   <= length (filter (open_in chat) tbl))%nat.
Proof.
  induction tbl as [| s tbl IH]; cbn [close_rows map filter]; [auto |].
  fold (close_rows id now tbl).
  destruct (open_in chat (close_row id now s)) eqn:E.
  - rewrite (close_row_open _ _ _ _ E) in E. rewrite E. cbn [length]. lia.
  - destruct (open_in chat s); cbn [length]; lia.
Qed.

Lemma single_open_close (id now : Z) (tbl : list session) :
  single_open tbl -> single_open (close_rows id now tbl).
Proof.
  intros H chat. specialize (H chat).
  pose proof (close_rows_open_le id now chat tbl). lia.
Qed.

Lemma keyed_insert (tbl : list session) (seq : Z) (row : session) :
  keyed tbl seq -> s_id row = seq + 1 -> keyed (tbl ++ [row]) (s_id row).
Proof.
  intros [Hn Hb] E. rewrite Forall_forall in Hb. split.
  - rewrite map_app. cbn [map].
    apply NoDup_app; [exact Hn | repeat constructor; intros [] |].
    intros x Hx [<- | []]. apply in_map_iff in Hx as (s & Es & Hs).
    specialize (Hb s Hs). lia.
  - apply Forall_app. split; [| repeat constructor; lia].
    apply Forall_forall. intros s Hs. specialize (Hb s Hs). lia.
Qed.

Lemma keyed_close (id now : Z) (tbl : list session) (seq : Z) :
  keyed tbl seq -> keyed (close_rows id now tbl) seq.
Proof.
  intros [Hn Hb]. split; [now rewrite close_rows_ids |].
  unfold close_rows. rewrite Forall_map.
  eapply Forall_impl; [| exact Hb]. intros s Hs. now rewrite close_row_id.
Qed.

Lemma items_keyed_add (tbl added : list item) (seq seq' sid : Z) :
  items_keyed tbl seq -> seq <= seq' ->
  Forall (fun it => i_session_id it = sid /\ seq < i_id it <= seq') added ->
  NoDup (map i_id added) ->
  items_keyed (tbl ++ added) seq'.
Proof.
  intros [Hn Hb] Hle Ha Hna. rewrite Forall_forall in Hb, Ha. split.
  - rewrite map_app. apply NoDup_app; [exact Hn | exact Hna |].
    intros x Hx Hx'. apply in_map_iff in Hx as (it & <- & Hit).
    apply in_map_iff in Hx' as (it' & E & Hit').
    specialize (Hb it Hit). specialize (Ha it' Hit'). lia.
  - apply Forall_app. split; apply Forall_forall; intros it Hit.
    + specialize (Hb it Hit). lia.
    + specialize (Ha it Hit). lia.
Qed.

Lemma filter_length_le {A} (f : A -> bool) (l : list A) :
  (length (filter f l) <= length l)%nat.
Proof.
  induction l as [| x l IH]; cbn [filter length]; [lia |].
  destruct (f x); cbn [length]; lia.
Qed.

Lemma existsb_false_filter {A} (f : A -> bool) (l : list A) :
  existsb f l = false -> filter f l = [].
Proof.
  induction l as [| x l IH]; cbn [existsb filter]; [reflexivity |].
  intros H. apply orb_false_iff in H as [-> H]. now apply IH.
Qed.

Lemma filter_filter_neg {A} (f : A -> bool) (l : list A) :
  filter f (filter (fun x => negb (f x)) l) = [].
Proof.
  induction l as [| x l IH]; cbn [filter]; [reflexivity |].
  destruct (f x) eqn:E; cbn [negb filter]; [exact IH | now rewrite E].
Qed.

Lemma filter_comm {A} (f g : A -> bool) (l : list A) :
  filter f (filter g l) = filter g (filter f l).
Proof.
  induction l as [| x l IH]; cbn [filter]; [reflexivity |].
  destruct (f x) eqn:Ef, (g x) eqn:Eg; cbn [filter];
    rewrite ?Ef, ?Eg, IH; reflexivity.
Qed.

Lemma is_choice_same (i u i' u' : Z) (c : choice) :
  is_choice i u c = true -> is_choice i' u' c = true -> i' = i /\ u' = u.
Proof.
  unfold is_choice. rewrite !andb_true_iff, !Z.eqb_eq. lia.
Qed.

Lemma claims_unique_remove (item_id user : Z) (tbl : list choice) :
  claims_unique tbl ->
  claims_unique (filter (fun c => negb (is_choice item_id user c)) tbl).
Proof.
  intros H i u. rewrite filter_comm.
  etransitivity; [apply filter_length_le | apply H].
Qed.

Lemma claims_unique_add (item_id user : Z) (username : string) (tbl : list choice) :
  claims_unique tbl -> existsb (is_choice item_id user) tbl = false ->
  claims_unique (tbl ++ [mkChoice item_id user username]).
Proof.
  intros H Hno i u. rewrite filter_app, length_app. cbn [filter].
  destruct (is_choice i u (mkChoice item_id user username)) eqn:E;
    cbn [length]; [| specialize (H i u); lia].
  unfold is_choice in E. cbn in E.
  apply andb_true_iff in E as [Ei Eu]. apply Z.eqb_eq in Ei, Eu. subst.
  rewrite (existsb_false_filter _ _ Hno). cbn. lia.
Qed.

Lemma changes_ok (d d' : db) : db_ok d -> changes d d' -> db_ok d'.
Proof.
  intros [Ob Os Kb Ks Ki Cu] Hc.
  destruct Hc as [| row Hnone Hid Hst | row Hnone Hid Hst | b p Hb Hst
                  | b e Hb Hst He | s added seq Hs Hst Hle Hadd Hnd
                  | it s user username Hit Hs Hst | b now Hb Hst | s now Hs Hst];
    constructor; cbn; auto;
    try solve [ now apply single_open_insert
              | now apply single_open_close
              | now apply keyed_close
              | now apply (keyed_insert _ (seq_bills d))
              | now apply (keyed_insert _ (seq_sessions d))
              | now apply items_keyed_add with (seq := seq_items d) (sid := s_id s) ].
  destruct (existsb (is_choice (i_id it) user) (resto_choices d)) eqn:E.
  - now apply claims_unique_remove.
  - now apply claims_unique_add.
Qed.

Lemma empty_db_ok : db_ok empty_db.
Proof.
  constructor; cbn; try (intros ?; cbn; lia); try (intros ? ?; cbn; lia);
    split; constructor.
Qed.

(** ** The claim split never misses a key *)

Lemma get0_set_same (k : Z) (v : Q) (d : list (Z * Q)) :
  get0 k (Dict.set k v d) = v.
Proof. unfold get0. now rewrite get_set_same. Qed.

Lemma get0_set_other (k k' : Z) (v : Q) (d : list (Z * Q)) :
  k' <> k -> get0 k' (Dict.set k v d) = get0 k' d.
Proof. intros H. unfold get0. now rewrite get_set_other. Qed.

Lemma add_to_some (uid : Z) (x : Q) (totals : list (Z * Q)) :
  In uid (Dict.keys totals) ->
  add_to uid x totals = Some (Dict.set uid (get0 uid totals + x)%Q totals).
Proof.
  intros H. apply get_some_in in H as [v Hv].
  unfold add_to, get0. now rewrite Hv.
Qed.

Lemma add_to_each_total (uids : list Z) (x : Q) :
  forall totals,
    (forall u, In u uids -> In u (Dict.keys totals)) ->
    exists totals',
      add_to_each uids x totals = Some totals'
      /\ Dict.keys totals' = Dict.keys totals.
Proof.
  induction uids as [| uid uids IH]; intros totals Hin; cbn [add_to_each].
  - now exists totals.
  - rewrite add_to_some by (apply Hin; now left).
    destruct (IH (Dict.set uid (get0 uid totals + x)%Q totals)) as (t' & E & K).
    + intros u Hu. rewrite keys_set_in by (apply Hin; now left).
      apply Hin. now right.
    + exists t'. split; [exact E |].
      rewrite K. apply keys_set_in, Hin. now left.
Qed.

(** With distinct users, each of them is credited once. *)
Lemma add_to_each_credit (uids : list Z) (x : Q) :
  forall totals totals',
    NoDup uids ->
    add_to_each uids x totals = Some totals' ->
    forall u, get0 u totals'
              = if existsb (Z.eqb u) uids then (get0 u totals + x)%Q else get0 u totals.
Proof.
  induction uids as [| uid uids IH]; intros totals totals' Hn H u;
    cbn [add_to_each existsb] in *.
  - now inversion H.
  - inversion Hn as [| ? ? Hnot Hn']; subst.
    unfold add_to in H. destruct (Dict.get uid totals) as [v |] eqn:G;
      [| discriminate].
    rewrite (IH _ _ Hn' H u).
    destruct (Z.eqb_spec u uid) as [-> | Hne]; cbn [orb].
    + assert (E : existsb (Z.eqb uid) uids = false).
      { destruct (existsb (Z.eqb uid) uids) eqn:E; [| reflexivity].
        apply existsb_exists in E as (y & Hy & Ey). apply Z.eqb_eq in Ey.
        subst y. contradiction. }
      rewrite E, get0_set_same. unfold get0. now rewrite G.
    + now rewrite get0_set_other.
Qed.

Lemma claims_unique_tail (c : choice) (tbl : list choice) :
  claims_unique (c :: tbl) -> claims_unique tbl.
Proof.
  intros H i u. specialize (H i u). cbn [filter] in H.
  destruct (is_choice i u c); cbn [length] in H; lia.
Qed.

Lemma claims_unique_choosers (item_id : Z) (tbl : list choice) :
  claims_unique tbl -> NoDup (choosers_of item_id tbl).
Proof.
  unfold choosers_of. induction tbl as [| c tbl IH]; intros H; cbn [filter map].
  - constructor.
  - pose proof (IH (claims_unique_tail _ _ H)) as IH'.
    destruct (Z.eqb_spec (c_item_id c) item_id) as [E | _]; [| exact IH'].
    cbn [map]. constructor; [| exact IH'].
    intros Hin. apply in_map_iff in Hin as (c' & Eu & Hc').
    apply filter_In in Hc' as [Hc' Ei]. apply Z.eqb_eq in Ei.
    specialize (H item_id (c_user_id c)). cbn [filter] in H.
    assert (E1 : is_choice item_id (c_user_id c) c = true).
    { unfold is_choice. now rewrite E, !Z.eqb_refl. }
    assert (E2 : In c' (filter (is_choice item_id (c_user_id c)) tbl)).
    { apply filter_In. split; [exact Hc' |].
      unfold is_choice. now rewrite Ei, Eu, !Z.eqb_refl. }
    rewrite E1 in H. cbn [length] in H.
    destruct (filter (is_choice item_id (c_user_id c)) tbl);
      [contradiction | cbn [length] in H; lia].
Qed.

Lemma creator_participates (d : db) (s : session) :
  In (s_creator_id s) (Dict.keys (resto_participants d s)).
Proof.
  unfold resto_participants, Dict.mem.
  destruct (Dict.get (s_creator_id s) (dict_of _)) eqn:G.
  - apply get_some_in. eauto.
  - apply keys_set. now left.
Qed.

Lemma choosers_participate (d : db) (s : session) (it : item) (u : Z) :
  In it (items_of (s_id s) (resto_items d)) ->
  In u (choosers_of (i_id it) (resto_choices d)) ->
  In u (Dict.keys (resto_participants d s)).
Proof.
  intros Hit Hu.
  assert (Hd : In u (Dict.keys
                       (dict_of (map (fun c => (c_user_id c, c_username c))
                                     (choices_of_session (s_id s) d))))).
  { apply keys_dict_of. rewrite map_map. cbn [fst].
    unfold choosers_of in Hu. apply in_map_iff in Hu as (c & <- & Hc).
    apply filter_In in Hc as [Hc Ei]. apply in_map.
    unfold choices_of_session. apply filter_In. split; [exact Hc |].
    apply existsb_exists. exists it. split; [exact Hit |].
    rewrite Z.eqb_eq in *. congruence. }
  unfold resto_participants. destruct (Dict.mem _ _); [exact Hd |].
  apply keys_set. now right.
Qed.

Lemma split_item_total (choices : list choice) (it : item)
      (totals : list (Z * Q)) (shared : Q) :
  (forall u, In u (choosers_of (i_id it) choices) -> In u (Dict.keys totals)) ->
  exists totals' shared',
    split_item choices (totals, shared) it = Some (totals', shared')
    /\ Dict.keys totals' = Dict.keys totals.
Proof.
  intros Hin. unfold split_item.
  destruct (i_is_shared it); [eauto |].
  destruct (choosers_of (i_id it) choices) as [| u0 us] eqn:E; [eauto |].
  destruct (add_to_each_total (u0 :: us)
              (i_price it * inject_Z (i_quantity it)
               / inject_Z (Z.of_nat (length (u0 :: us))))%Q totals Hin)
    as (t' & Ht & K).
  rewrite Ht. eauto.
Qed.

Lemma split_items_total (choices : list choice) (items : list item) :
  forall totals shared,
    (forall it u, In it items -> In u (choosers_of (i_id it) choices) ->
                  In u (Dict.keys totals)) ->
    exists totals' shared',
      split_items choices (totals, shared) items = Some (totals', shared')
      /\ Dict.keys totals' = Dict.keys totals.
Proof.
  induction items as [| it items IH]; intros totals shared Hin;
    cbn [split_items]; [eauto |].
  destruct (split_item_total choices it totals shared) as (t1 & s1 & E1 & K1).
  { intros u Hu. apply (Hin it u); [now left | exact Hu]. }
  rewrite E1.
  destruct (IH t1 s1) as (t2 & s2 & E2 & K2).
  { intros it' u Hit Hu. rewrite K1. apply (Hin it' u); [now right | exact Hu]. }
  exists t2, s2. split; [exact E2 | congruence].
Qed.

(** Closing a restaurant session that exists always goes through. *)
Lemma close_resto_settles (d : db) (s : session) (now : Z) :
  find_session (s_id s) (resto_sessions d) = Some s ->
  exists total shares,
    close_resto d (s_id s) now
    = (with_sessions d (close_rows (s_id s) now (resto_sessions d)) (seq_sessions d),
       RestoSettled total shares)
    /\ Dict.keys shares = Dict.keys (resto_participants d s).
Proof.
  intros Hs. unfold close_resto. rewrite Hs.
  pose proof (creator_participates d s) as Hc.
  destruct (resto_participants d s) as [| p ps] eqn:Ep; [contradiction |].
  rewrite <- Ep in *.
  assert (K0 : Dict.keys (map (fun p => (fst p, 0%Q)) (resto_participants d s))
               = Dict.keys (resto_participants d s)).
  { unfold Dict.keys. rewrite map_map. reflexivity. }
  destruct (split_items_total (resto_choices d)
              (items_of (s_id s) (resto_items d))
              (map (fun p => (fst p, 0%Q)) (resto_participants d s)) 0%Q)
    as (t1 & s1 & E1 & K1).
  { intros it u Hit Hu. rewrite K0. now apply choosers_participate with (it := it). }
  rewrite E1. destruct (Qltb 0 s1).
  - destruct (add_to_each_total (Dict.keys (resto_participants d s))
                (s1 / inject_Z (Z.of_nat (length (resto_participants d s))))%Q t1)
      as (t2 & E2 & K2).
    { intros u Hu. now rewrite K1, K0. }
    rewrite E2. exists (sum_list (map snd t2)), t2. split; [reflexivity | congruence].
  - exists (sum_list (map snd t1)), t1. split; [reflexivity | congruence].
Qed.

(** ** Toggling *)

Lemma filter_split_perm {A} (f : A -> bool) (l : list A) :
  Permutation l (filter f l ++ filter (fun x => negb (f x)) l).
Proof.
  induction l as [| x l IH]; cbn [filter]; [constructor |].
  destruct (f x); cbn [negb app].
  - now constructor.
  - now apply Permutation_cons_app.
Qed.

Lemma filter_all {A} (f : A -> bool) (l : list A) :
  (forall x, In x l -> f x = true) -> filter f l = l.
Proof.
  induction l as [| x l IH]; intros H; cbn [filter]; [reflexivity |].
  rewrite (H x (or_introl eq_refl)). f_equal. apply IH. intros y Hy.
  apply H. now right.
Qed.

Lemma existsb_false_all {A} (f : A -> bool) (l : list A) :
  existsb f l = false -> forall x, In x l -> f x = false.
Proof.
  intros H x Hx. destruct (f x) eqn:E; [| reflexivity].
  assert (existsb f l = true) by (apply existsb_exists; eauto). congruence.
Qed.

Lemma existsb_filter_neg {A} (f : A -> bool) (l : list A) :
  existsb f (filter (fun x => negb (f x)) l) = false.
Proof.
  destruct (existsb f (filter _ l)) eqn:E; [| reflexivity].
  apply existsb_exists in E as (x & Hx & Fx).
  apply filter_In in Hx as [_ Hn]. rewrite Fx in Hn. discriminate.
Qed.

Lemma existsb_perm {A} (f : A -> bool) (l l' : list A) :
  Permutation l l' -> existsb f l = existsb f l'.
Proof.
  induction 1 as [| x l l' _ IH | x y l | l l' l'' _ IH1 _ IH2]; cbn [existsb].
  - reflexivity.
  - now rewrite IH.
  - now destruct (f x), (f y).
  - congruence.
Qed.

Lemma claimed_claim_set (d : db) (item_id user : Z) :
  claimed d item_id user
  = existsb (fun k => (fst k =? item_id) && (snd k =? user)) (claim_set d).
Proof.
  unfold claimed, claim_set. induction (resto_choices d) as [| c l IH];
    cbn [existsb map]; [reflexivity |]. now rewrite IH.
Qed.

Lemma existsb_filter_other {A} (f g : A -> bool) (l : list A) :
  (forall x, f x = true -> g x = false) ->
  existsb f (filter (fun x => negb (g x)) l) = existsb f l.
Proof.
  intros H. induction l as [| x l IH]; cbn [filter existsb]; [reflexivity |].
  destruct (g x) eqn:Hg; cbn [negb existsb].
  - destruct (f x) eqn:Hf; [| exact IH]. rewrite (H x Hf) in Hg. discriminate.
  - now rewrite IH.
Qed.

(** With unique claims, a claimed pair has exactly one row. *)
Lemma claimed_once (tbl : list choice) (item_id user : Z) :
  claims_unique tbl -> existsb (is_choice item_id user) tbl = true ->
  exists c, filter (is_choice item_id user) tbl = [c]
            /\ c_item_id c = item_id /\ c_user_id c = user.
Proof.
  intros H E. apply existsb_exists in E as (c & Hc & Ec).
  assert (Hf : In c (filter (is_choice item_id user) tbl)) by now apply filter_In.
  specialize (H item_id user).
  destruct (filter (is_choice item_id user) tbl) as [| c0 [| c1 l]];
    cbn [length] in H; [contradiction | | lia].
  destruct Hf as [-> | []]. exists c. split; [reflexivity |].
  unfold is_choice in Ec. apply andb_true_iff in Ec as [E1 E2].
  now rewrite Z.eqb_eq in E1, E2.
Qed.

(** ** Closing *)

Lemma single_open_found (tbl : list session) (chat : Z) (b x : session) :
  single_open tbl -> find_open chat tbl = Some b ->
  In x tbl -> open_in chat x = true -> x = b.
Proof.
  intros H Hb Hx Ho. apply find_some in Hb as [Hin Hob].
  assert (Fx : In x (filter (open_in chat) tbl)) by now apply filter_In.
  assert (Fb : In b (filter (open_in chat) tbl)) by now apply filter_In.
  specialize (H chat).
  destruct (filter (open_in chat) tbl) as [| y [| z l]]; cbn [length] in H;
    [contradiction | | lia].
  destruct Fx as [<- | []], Fb as [<- | []]. reflexivity.
Qed.

Lemma close_found_none (tbl : list session) (chat now : Z) (b : session) :
  single_open tbl -> find_open chat tbl = Some b ->
  find_open chat (close_rows (s_id b) now tbl) = None.
Proof.
  intros H Hb. unfold find_open.
  destruct (find (open_in chat) (close_rows (s_id b) now tbl)) as [x' |] eqn:E;
    [| reflexivity].
  exfalso. apply find_some in E as [Hin Ho].
  unfold close_rows in Hin. apply in_map_iff in Hin as (x & <- & Hx).
  pose proof (close_row_open _ _ _ _ Ho) as Hsame. rewrite Hsame in Ho.
  pose proof (single_open_found _ _ _ _ H Hb Hx Ho) as ->.
  unfold close_row in Hsame. rewrite Z.eqb_refl in Hsame.
  apply find_open_some in Hb as (_ & _ & Hst). rewrite <- Hsame in Hst.
  discriminate.
Qed.

Lemma close_rows_closed (id now : Z) (tbl : list session) (x : session) :
  In x (close_rows id now tbl) -> s_id x = id ->
  s_status x = Closed /\ s_closed_at x = Some now.
Proof.
  unfold close_rows. intros Hin E. apply in_map_iff in Hin as (y & <- & _).
  rewrite close_row_id in E. unfold close_row.
  destruct (Z.eqb_spec (s_id y) id); [now cbn | contradiction].
Qed.

Lemma insert_by_user_perm (p : participant) (l : list participant) :
  Permutation (insert_by_user p l) (p :: l).
Proof.
  induction l as [| q l IH]; cbn [insert_by_user]; [reflexivity |].
  destruct (p_user_id p <=? p_user_id q)%Z; [reflexivity |].
  rewrite IH. apply perm_swap.
Qed.

Lemma by_user_id_perm (l : list participant) : Permutation (by_user_id l) l.
Proof.
  induction l as [| p l IH]; cbn [by_user_id fold_right]; [reflexivity |].
  fold (by_user_id l). rewrite insert_by_user_perm. now constructor.
Qed.

Lemma in_participants_of (bill : Z) (tbl : list participant) (p : participant) :
  In p (participants_of bill tbl) <-> In p tbl /\ p_bill_id p = bill.
Proof.
  unfold participants_of. split.
  - intros H. apply (Permutation_in _ (by_user_id_perm _)) in H.
    apply filter_In in H as [H E]. now apply Z.eqb_eq in E.
  - intros [H E]. apply (Permutation_in _ (Permutation_sym (by_user_id_perm _))).
    apply filter_In. split; [exact H | now apply Z.eqb_eq].
Qed.

Lemma close_newbill_settles (d : db) (bill_id now : Z) :
  participants_of bill_id (bill_participants d) <> [] ->
  expenses_of bill_id (expenses d) <> [] ->
  exists total per_person paid txs,
    close_newbill d bill_id now
    = (with_bills d (close_rows bill_id now (bills d)) (seq_bills d),
       BillSettled total per_person paid txs).
Proof.
  intros Hp He. unfold close_newbill.
  destruct (dict_of _) as [| p ps] eqn:Ed.
  { apply dict_of_nil, map_eq_nil in Ed. contradiction. }
  destruct (map _ (expenses_of bill_id (expenses d))) as [| r rs] eqn:Er.
  { apply map_eq_nil in Er. contradiction. }
  eauto 10.
Qed.

Lemma close_newbill_resto (d : db) (bill_id now : Z) :
  let d' := fst (close_newbill d bill_id now) in
  resto_sessions d' = resto_sessions d /\ resto_items d' = resto_items d
  /\ resto_choices d' = resto_choices d.
Proof.
  unfold close_newbill. destruct (dict_of _); [now cbn |].
  destruct (map _ (expenses_of bill_id (expenses d))); now cbn.
Qed.

(** ** A closed session is out of reach of every change *)

Lemma filter_id_close (id id0 now : Z) (tbl : list session) :
  id <> id0 ->
  filter (fun s => s_id s =? id) (close_rows id0 now tbl)
  = filter (fun s => s_id s =? id) tbl.
Proof.
  intros Hne. induction tbl as [| s tbl IH]; cbn [close_rows map filter];
    [reflexivity |].
  fold (close_rows id0 now tbl). rewrite close_row_id, IH.
  destruct (Z.eqb_spec (s_id s) id) as [E | _]; [| reflexivity].
  unfold close_row. destruct (Z.eqb_spec (s_id s) id0); [congruence | reflexivity].
Qed.

Lemma filter_app_none {A} (f : A -> bool) (l l' : list A) :
  (forall x, In x l' -> f x = false) -> filter f (l ++ l') = filter f l.
Proof.
  intros H. rewrite filter_app.
  replace (filter f l') with (@nil A); [now rewrite app_nil_r |].
  symmetry. induction l' as [| x l' IH]; cbn [filter]; [reflexivity |].
  rewrite (H x (or_introl eq_refl)). apply IH. intros y Hy. apply H. now right.
Qed.

Lemma participants_of_app_none (bill : Z) (tbl more : list participant) :
  (forall p, In p more -> (p_bill_id p =? bill)%Z = false) ->
  participants_of bill (tbl ++ more) = participants_of bill tbl.
Proof.
  intros H. unfold participants_of. f_equal. now apply filter_app_none.
Qed.

Lemma filter_filter_keep {A} (f g : A -> bool) (l : list A) :
  (forall x, In x l -> f x = true -> g x = true) ->
  filter f (filter g l) = filter f l.
Proof.
  intros H. induction l as [| x l IH]; cbn [filter]; [reflexivity |].
  assert (IH' : filter f (filter g l) = filter f l).
  { apply IH. intros y Hy. apply H. now right. }
  destruct (f x) eqn:Ef.
  - rewrite (H x (or_introl eq_refl) Ef). cbn [filter]. now rewrite Ef, IH'.
  - destruct (g x); cbn [filter]; rewrite ?Ef; exact IH'.
Qed.

(** An open row and a closed row of a keyed table have different ids. *)
Lemma open_closed_ids (tbl : list session) (seq : Z) (o c : session) :
  keyed tbl seq -> In o tbl -> In c tbl ->
  s_status o = Open -> s_status c = Closed -> s_id o <> s_id c.
Proof.
  intros [Hn _] Ho Hc So Sc E.
  pose proof (NoDup_map_inj s_id tbl o c Hn Ho Hc E). subst. congruence.
Qed.

Lemma changes_closed_bill (d d' : db) (b : session) :
  db_ok d -> changes d d' ->
  In b (bills d) -> s_status b = Closed ->
  bill_view d' (s_id b) = bill_view d (s_id b).
Proof.
  intros [_ _ Kb _ _ _] Hc Hin Hcl.
  destruct Hc as [| row Hnone Hid Hst | row Hnone Hid Hst | b0 p Hb Hst
                  | b0 e Hb Hst He | s added seq Hs Hst Hle Hadd Hnd
                  | it s user username Hit Hs Hst | b0 now Hb Hst | s now Hs Hst];
    unfold bill_view; cbn [bills bill_participants expenses with_bills
                           with_sessions with_participants with_expenses
                           with_items with_choices]; try reflexivity.
  - f_equal. f_equal. apply filter_app_none. intros x [<- | []].
    destruct Kb as [_ Kb]. rewrite Forall_forall in Kb. specialize (Kb b Hin).
    apply Z.eqb_neq. lia.
  - f_equal. f_equal. apply participants_of_app_none.
    intros x [<- | []]. apply Z.eqb_neq. intros E. rewrite E in Hb.
    destruct Kb as [Kn _]. rewrite (find_session_in _ _ Kn Hin) in Hb.
    inversion Hb; subst. congruence.
  - f_equal. unfold expenses_of. apply filter_app_none.
    intros x [<- | []]. apply Z.eqb_neq. rewrite He.
    now apply (open_closed_ids (bills d) (seq_bills d)).
  - f_equal. f_equal. apply filter_id_close. apply not_eq_sym.
    now apply (open_closed_ids (bills d) (seq_bills d)).
Qed.

Lemma changes_closed_resto (d d' : db) (c : session) :
  db_ok d -> changes d d' ->
  In c (resto_sessions d) -> s_status c = Closed ->
  resto_view d' (s_id c) = resto_view d (s_id c).
Proof.
  intros [_ _ _ Ks Ki _] Hc Hin Hcl.
  destruct Hc as [| row Hnone Hid Hst | row Hnone Hid Hst | b0 p Hb Hst
                  | b0 e Hb Hst He | s added seq Hs Hst Hle Hadd Hnd
                  | it s user username Hit Hs Hst | b0 now Hb Hst | s now Hs Hst];
    unfold resto_view, choices_of_session;
    cbn [resto_sessions resto_items resto_choices with_bills
         with_sessions with_participants with_expenses
         with_items with_choices]; try reflexivity.
  - f_equal. f_equal. apply filter_app_none. intros x [<- | []].
    destruct Ks as [_ Ks]. rewrite Forall_forall in Ks. specialize (Ks c Hin).
    apply Z.eqb_neq. lia.
  - assert (E : items_of (s_id c) (resto_items d ++ added)
                = items_of (s_id c) (resto_items d)).
    { unfold items_of. apply filter_app_none. intros x Hx.
      rewrite Forall_forall in Hadd. destruct (Hadd x Hx) as [-> _].
      apply Z.eqb_neq.
      now apply (open_closed_ids (resto_sessions d) (seq_sessions d)). }
    now rewrite E.
  - assert (Hfree : forall x, In x (items_of (s_id c) (resto_items d)) ->
                              (i_id x =? i_id it) = false).
    { intros x Hx. apply filter_In in Hx as [Hx Ex]. apply Z.eqb_eq in Ex.
      apply Z.eqb_neq. intros E. destruct Ki as [Kn _].
      apply find_item_some in Hit as [Hit _].
      pose proof (NoDup_map_inj i_id _ x it Kn Hx Hit E). subst x.
      apply find_session_some in Hs as [Hs Es].
      apply (open_closed_ids (resto_sessions d) (seq_sessions d) s c); auto.
      congruence. }
    assert (Hout : forall x,
               existsb (fun i => i_id i =? c_item_id x)
                       (items_of (s_id c) (resto_items d)) = true ->
               is_choice (i_id it) user x = false).
    { intros x Hx. apply existsb_exists in Hx as (i & Hi & Ei).
      apply Z.eqb_eq in Ei. unfold is_choice. rewrite <- Ei.
      now rewrite (Hfree i Hi). }
    f_equal. destruct (existsb (is_choice (i_id it) user) (resto_choices d)).
    + apply filter_filter_keep. intros x _ Hx. now rewrite (Hout x Hx).
    + apply filter_app_none. intros x [<- | []].
      destruct (existsb _ (items_of (s_id c) (resto_items d))) eqn:Ex;
        [| reflexivity].
      apply Hout in Ex. unfold is_choice in Ex. cbn in Ex.
      now rewrite !Z.eqb_refl in Ex.
  - f_equal. f_equal. apply filter_id_close. apply not_eq_sym.
    now apply (open_closed_ids (resto_sessions d) (seq_sessions d)).
Qed.

(** ** Every handler makes one of the changes *)

Section Handlers.
Variable py_float : string -> option Q.
Variable py_int : string -> option Z.

Local Abbreviation step := (Ledger.step py_float py_int).
Local Abbreviation run := (Ledger.run py_float py_int).
Local Abbreviation reachable := (Ledger.reachable py_float py_int).
Local Abbreviation handle_expense := (Ledger.handle_expense py_float).
Local Abbreviation handle_receipt_photo := (Ledger.handle_receipt_photo py_float py_int).
Local Abbreviation insert_items := (Ledger.insert_items py_float py_int).
Local Abbreviation parse_item := (Ledger.parse_item py_float py_int).
Local Abbreviation valid_rows := (Ledger.valid_rows py_float py_int).

Lemma insert_items_added (sid : Z) (items : list json) :
  forall tbl seq tbl' seq',
    insert_items sid items tbl seq = Some (tbl', seq') ->
    exists added,
      tbl' = tbl ++ added /\ seq <= seq'
      /\ Forall (fun it => i_session_id it = sid /\ seq < i_id it <= seq') added
      /\ NoDup (map i_id added).
Proof.
  induction items as [| v items IH]; intros tbl seq tbl' seq' H;
    cbn [Ledger.insert_items] in H.
  - inversion H; subst. exists []. rewrite app_nil_r.
    repeat split; try constructor. lia.
  - destruct (parse_item v) as [| | name price qty]; [discriminate | eauto |].
    apply IH in H as (added & -> & Hle & Hall & Hnd).
    exists (mkItem (seq + 1) sid name price qty false :: added).
    rewrite <- app_assoc. cbn [app]. rewrite Forall_forall in Hall.
    repeat split; try lia.
    + constructor; [cbn; lia |]. apply Forall_forall. intros it Hit.
      specialize (Hall it Hit). lia.
    + cbn [map i_id]. constructor; [| exact Hnd].
      intros Hin. apply in_map_iff in Hin as (it & E & Hit).
      specialize (Hall it Hit). lia.
Qed.

Lemma newbill_changes d chat user username now :
  changes d (fst (newbill d chat user username now)).
Proof.
  unfold newbill. destruct (find_open chat (bills d)) eqn:E; cbn [fst].
  - constructor.
  - now apply (NewBill d (mkSession (seq_bills d + 1) chat user username now None Open)).
Qed.

Lemma resto_changes d chat user username now :
  changes d (fst (resto d chat user username now)).
Proof.
  unfold resto. destruct (find_open chat (resto_sessions d)) eqn:E; cbn [fst].
  - constructor.
  - now apply (NewSession d (mkSession (seq_sessions d + 1) chat user username now None Open)).
Qed.

Lemma join_changes d bill_id user username :
  changes d (fst (join_bill_callback d bill_id user username)).
Proof.
  unfold join_bill_callback.
  destruct (find_session bill_id (bills d)) as [b |] eqn:E; [| constructor].
  destruct (s_status b) eqn:Hst; cbn [is_open]; [| constructor].
  destruct (existsb _ _); cbn [fst]; [constructor |].
  now apply NewParticipant with (b := b).
Qed.

Lemma expense_changes d chat user username text now :
  changes d (fst (handle_expense d chat user username text now)).
Proof.
  unfold Ledger.handle_expense.
  destruct (find_open chat (bills d)) as [b |] eqn:E; [| constructor].
  apply find_open_some in E as (Hin & _ & Hst).
  destruct (existsb _ _); [| constructor].
  destruct (Text.rsplit1 _) as [| description [| amount_str [| ? ?]]];
    try constructor.
  destruct (py_float _) as [amount |]; cbn [fst]; [| constructor].
  now apply NewExpense with (b := b).
Qed.

Lemma photo_changes d chat user result :
  changes d (fst (handle_receipt_photo d chat user result)).
Proof.
  unfold Ledger.handle_receipt_photo.
  destruct (find_open chat (resto_sessions d)) as [s |] eqn:E; [| constructor].
  apply find_open_some in E as (Hin & _ & Hst).
  destruct (negb (user =? s_creator_id s)); [constructor |].
  destruct (negb _); [constructor |].
  destruct result as [| | [| v items] | [| v items]]; try constructor;
    (destruct (insert_items _ _ _ _) as [[tbl seq] |] eqn:Hi; [| constructor];
     apply insert_items_added in Hi as (added & -> & Hle & Hall & Hnd);
     cbn [fst]; now apply NewItems with (s := s)).
Qed.

Lemma toggle_changes d item_id user username :
  changes d (fst (handle_item_choice d item_id user username)).
Proof.
  unfold handle_item_choice.
  destruct (find_item item_id (resto_items d)) as [it |] eqn:Ei; [| constructor].
  destruct (find_session (i_session_id it) (resto_sessions d)) as [s |] eqn:Es;
    [| constructor].
  destruct (s_status s) eqn:Hst; cbn [is_open fst]; [| constructor].
  destruct (find_item_some _ _ _ Ei) as [_ <-].
  now apply Toggled with (s := s).
Qed.

Lemma close_newbill_changes d b now :
  In b (bills d) -> s_status b = Open ->
  changes d (fst (close_newbill d (s_id b) now)).
Proof.
  intros Hin Hst. unfold close_newbill.
  destruct (dict_of _); [constructor |].
  destruct (map _ (expenses_of _ _)); [constructor |].
  cbn [fst]. now constructor.
Qed.

Lemma close_resto_changes d s now :
  In s (resto_sessions d) -> s_status s = Open ->
  changes d (fst (close_resto d (s_id s) now)).
Proof.
  intros Hin Hst. unfold close_resto.
  destruct (find_session _ _); [| constructor].
  destruct (resto_participants _ _); [constructor |].
  destruct (split_items _ _ _) as [[user_totals shared_total] |]; [| constructor].
  destruct (if Qltb 0 shared_total then _ else _); [| constructor].
  cbn [fst]. now constructor.
Qed.

Lemma closebill_changes d chat user now :
  changes d (fst (closebill d chat user now)).
Proof.
  unfold closebill.
  destruct (find_open chat (bills d)) as [b |] eqn:Eb.
  - apply find_open_some in Eb as (Hin & _ & Hst).
    destruct (user =? s_creator_id b); [| constructor].
    now apply close_newbill_changes.
  - destruct (find_open chat (resto_sessions d)) as [s |] eqn:Es; [| constructor].
    apply find_open_some in Es as (Hin & _ & Hst).
    destruct (user =? s_creator_id s); [| constructor].
    now apply close_resto_changes.
Qed.

Lemma close_button_changes d chat user now :
  changes d (fst (close_resto_button d chat user now)).
Proof.
  unfold close_resto_button.
  destruct (find_open_last chat (resto_sessions d)) as [s |] eqn:Es; [| constructor].
  apply find_open_last_some in Es as (Hin & _ & Hst).
  destruct (user =? s_creator_id s); [| constructor].
  now apply close_resto_changes.
Qed.

Lemma step_changes d u : changes d (fst (step d u)).
Proof.
  destruct u; cbn [Ledger.step].
  - apply newbill_changes.
  - apply join_changes.
  - apply expense_changes.
  - apply resto_changes.
  - apply photo_changes.
  - apply toggle_changes.
  - apply close_button_changes.
  - apply closebill_changes.
Qed.

Lemma run_snoc d us u : run d (us ++ [u]) = fst (step (run d us) u).
Proof. unfold Ledger.run. now rewrite fold_left_app. Qed.

Lemma reachable_step d u : reachable d -> reachable (fst (step d u)).
Proof. intros [us ->]. exists (us ++ [u]). now rewrite run_snoc. Qed.

Lemma reachable_run us : reachable (run empty_db us).
Proof. now exists us. Qed.

Lemma find_open_none_count chat tbl :
  find_open chat tbl = None <-> length (filter (open_in chat) tbl) = 0%nat.
Proof.
  split.
  - intros H. now rewrite (find_open_none_filter _ _ H).
  - intros H. unfold find_open.
    destruct (find (open_in chat) tbl) as [s |] eqn:E; [| reflexivity].
    apply find_some in E as [Hin Ho].
    assert (Hf : In s (filter (open_in chat) tbl)) by now apply filter_In.
    destruct (filter (open_in chat) tbl); [contradiction | discriminate].
Qed.

Lemma reachable_ok d : reachable d -> db_ok d.
Proof.
  intros [us ->]. induction us as [| u us IH] using rev_ind.
  - apply empty_db_ok.
  - rewrite run_snoc. eapply changes_ok; [exact IH | apply step_changes].
Qed.

(** ** C1: one open session per chat and kind *)

(** C1 (amended): in every reachable ledger each chat has at most one open
    PooledBill and at most one open ItemizedReceipt session.  [/newbill]
    fails with AlreadyOpen, leaving the ledger as it is, exactly when a
    PooledBill of the chat is open, and otherwise opens one; [/resto]
    fails with AlreadyOpen exactly when an ItemizedReceipt session of the
    chat is open, and otherwise opens one.  Neither looks at the sessions
    of the other kind. *)
Theorem one_open_session_per_kind (d : db) :
  reachable d ->
  forall chat,
    (length (filter (open_in chat) (bills d)) <= 1)%nat
    /\ (length (filter (open_in chat) (resto_sessions d)) <= 1)%nat
    /\ (forall user username now,
          let r := newbill d chat user username now in
          (length (filter (open_in chat) (bills d)) = 1%nat ->
           r = (d, AlreadyOpen PooledBill))
          /\ (length (filter (open_in chat) (bills d)) = 0%nat ->
              snd r = BillCreated (seq_bills d + 1)
              /\ resto_sessions (fst r) = resto_sessions d
              /\ filter (open_in chat) (bills (fst r))
                 = [mkSession (seq_bills d + 1) chat user username now None Open]))
    /\ (forall user username now,
          let r := resto d chat user username now in
          (length (filter (open_in chat) (resto_sessions d)) = 1%nat ->
           r = (d, AlreadyOpen ItemizedReceipt))
          /\ (length (filter (open_in chat) (resto_sessions d)) = 0%nat ->
              snd r = RestoCreated
              /\ bills (fst r) = bills d
              /\ filter (open_in chat) (resto_sessions (fst r))
                 = [mkSession (seq_sessions d + 1) chat user username now None Open])).
Proof.
  intros Hr chat. destruct (reachable_ok d Hr) as [Ob Os _ _ _ _].
  split; [apply Ob | split; [apply Os | split]];
    intros user username now; cbv zeta; [unfold newbill | unfold resto].
  - destruct (find_open chat (bills d)) as [b |] eqn:E.
    + split; [reflexivity |]. intros H0. apply find_open_none_count in H0. congruence.
    + split; [intros H1; apply find_open_none_count in E; lia |].
      intros _. cbn. rewrite filter_app, (find_open_none_filter _ _ E).
      cbn. unfold open_in. cbn. now rewrite Z.eqb_refl.
  - destruct (find_open chat (resto_sessions d)) as [b |] eqn:E.
    + split; [reflexivity |]. intros H0. apply find_open_none_count in H0. congruence.
    + split; [intros H1; apply find_open_none_count in E; lia |].
      intros _. cbn. rewrite filter_app, (find_open_none_filter _ _ E).
      cbn. unfold open_in. cbn. now rewrite Z.eqb_refl.
Qed.

(** ** C8: a second receipt is rejected *)

(** C8: when the open restaurant session of the chat already has a line
    item, a receipt sent by its creator is answered AlreadyIngested,
    whatever the extraction would return, and nothing in the ledger
    changes; in particular the items and the claims are as before.  (A
    receipt sent by somebody else is refused as Forbidden, the ledger
    unchanged as well.) *)
Theorem second_receipt_is_rejected (d : db) (chat user : Z)
        (result : extraction) (s : session) :
  find_open chat (resto_sessions d) = Some s ->
  items_of (s_id s) (resto_items d) <> [] ->
  let r := handle_receipt_photo d chat user result in
  fst r = d
  /\ items_of (s_id s) (resto_items (fst r)) = items_of (s_id s) (resto_items d)
  /\ choices_of_session (s_id s) (fst r) = choices_of_session (s_id s) d
  /\ (user = s_creator_id s -> snd r = AlreadyIngested)
  /\ (user <> s_creator_id s -> snd r = Forbidden).
Proof.
  intros Hs Hitems. cbv zeta. unfold Ledger.handle_receipt_photo. rewrite Hs.
  destruct (Z.eqb_spec user (s_creator_id s)) as [E | E]; cbn [negb].
  - destruct (items_of (s_id s) (resto_items d)) eqn:Ei; [contradiction |].
    cbn. repeat split; auto; try contradiction.
  - cbn. repeat split; auto; contradiction.
Qed.

(** ** C9: the creator is always a participant of the claim split *)

(** C9: the participants computed by [close_resto] always contain the
    creator of the session, so they are never empty and [close_resto]
    never answers NoParticipants, be it called from the close button or
    from [/closebill]; when nobody chose anything the creator is the only
    participant, and closing an existing session goes through. *)
Theorem close_resto_never_lacks_participants (d : db) (s : session) :
  In (s_creator_id s) (Dict.keys (resto_participants d s))
  /\ resto_participants d s <> []
  /\ (choices_of_session (s_id s) d = [] ->
      resto_participants d s = [(s_creator_id s, s_creator_username s)])
  /\ (forall sid now, snd (close_resto d sid now) <> NoParticipants)
  /\ (forall chat user now,
        snd (close_resto_button d chat user now) <> NoParticipants)
  /\ (forall chat user now,
        find_open chat (bills d) = None ->
        snd (closebill d chat user now) <> NoParticipants)
  /\ (forall now,
        find_session (s_id s) (resto_sessions d) = Some s ->
        exists total shares,
          snd (close_resto d (s_id s) now) = RestoSettled total shares).
Proof.
  assert (Hne : forall s0, resto_participants d s0 <> []).
  { intros s0 E. pose proof (creator_participates d s0) as H.
    rewrite E in H. exact H. }
  assert (Hclose : forall sid now, snd (close_resto d sid now) <> NoParticipants).
  { intros sid now. unfold close_resto.
    destruct (find_session sid (resto_sessions d)) as [s0 |]; [| discriminate].
    destruct (resto_participants d s0) eqn:Ep; [now apply Hne in Ep |].
    destruct (split_items _ _ _) as [[t sh] |]; [| discriminate].
    destruct (if Qltb 0 sh then _ else _); discriminate. }
  split; [apply creator_participates | split; [apply Hne |]].
  split; [| split; [| split; [| split]]].
  - intros E. unfold resto_participants. now rewrite E.
  - exact Hclose.
  - intros chat user now. unfold close_resto_button.
    destruct (find_open_last chat (resto_sessions d)); [| discriminate].
    destruct (user =? s_creator_id s0); [apply Hclose | discriminate].
  - intros chat user now Hb. unfold closebill. rewrite Hb.
    destruct (find_open chat (resto_sessions d)); [| discriminate].
    destruct (user =? s_creator_id s0); [apply Hclose | discriminate].
  - intros now Hs.
    destruct (close_resto_settles d s now Hs) as (t & sh & E & _).
    rewrite E. cbn [snd]. eauto.
Qed.

(** ** C10: [/closebill] with both kinds open *)

(** C10 (amended): in a chat with an open PooledBill and an open
    ItemizedReceipt session, [/closebill] acts on the bill alone: the
    restaurant session, its items and its claims are untouched and the
    session is still the open one of the chat.  The bill itself is closed
    when the requester is its creator and it has a participant and an
    expense, its amounts being modest (adding up to at most 2^1000, so that
    no balance overflows and the matching ends); a requester who is not the
    creator is answered Forbidden.  Once the bill is closed, a further
    [/closebill] from the creator of the restaurant session closes that
    session. *)
Theorem closebill_closes_the_bill_first (d : db) (chat user now : Z)
        (b s : session) :
  reachable d ->
  find_open chat (bills d) = Some b ->
  find_open chat (resto_sessions d) = Some s ->
  let r := closebill d chat user now in
  (resto_sessions (fst r) = resto_sessions d
   /\ resto_items (fst r) = resto_items d
   /\ resto_choices (fst r) = resto_choices d
   /\ find_open chat (resto_sessions (fst r)) = Some s)
  /\ (user <> s_creator_id b -> r = (d, Forbidden))
  /\ (user = s_creator_id b ->
      participants_of (s_id b) (bill_participants d) <> [] ->
      expenses_of (s_id b) (expenses d) <> [] ->
      modest_bill d (s_id b) = true ->
      (exists total per_person paid txs,
          snd r = BillSettled total per_person paid txs)
      /\ (forall b', In b' (bills (fst r)) -> s_id b' = s_id b ->
                     s_status b' = Closed /\ s_closed_at b' = Some now)
      /\ find_open chat (bills (fst r)) = None
      /\ forall now',
          let r' := closebill (fst r) chat (s_creator_id s) now' in
          (exists total shares, snd r' = RestoSettled total shares)
          /\ forall s', In s' (resto_sessions (fst r')) -> s_id s' = s_id s ->
                        s_status s' = Closed /\ s_closed_at s' = Some now').
Proof.
  intros Hr Hb Hs. cbv zeta.
  destruct (reachable_ok d Hr) as [Ob _ _ [Ns _] _ _].
  assert (Er : closebill d chat user now
               = if user =? s_creator_id b then close_newbill d (s_id b) now
                 else (d, Forbidden)).
  { unfold closebill. now rewrite Hb. }
  rewrite Er. clear Er.
  destruct (Z.eqb_spec user (s_creator_id b)) as [E | E].
  - destruct (close_newbill_resto d (s_id b) now) as (R1 & R2 & R3).
    cbv zeta in R1, R2, R3.
    split; [rewrite R1; auto | split; [contradiction |]].
    intros _ Hp He _.
    destruct (close_newbill_settles d (s_id b) now Hp He) as (t & pp & pd & txs & Ec).
    rewrite Ec. cbn [fst snd with_bills bills].
    assert (Hnone : find_open chat (close_rows (s_id b) now (bills d)) = None)
      by now apply close_found_none.
    split; [eauto |].
    split; [intros b' Hb'; now apply (close_rows_closed (s_id b) now (bills d)) |].
    split; [exact Hnone |].
    intros now'. cbv zeta. unfold closebill.
    cbn [bills resto_sessions with_bills]. rewrite Hnone, Hs, Z.eqb_refl.
    apply find_open_some in Hs as (Hin & _ & _).
    pose proof (find_session_in _ _ Ns Hin) as Hf.
    destruct (close_resto_settles
                (with_bills d (close_rows (s_id b) now (bills d)) (seq_bills d))
                s now' Hf) as (t' & sh & Ec' & _).
    rewrite Ec'. cbn [fst snd with_sessions resto_sessions with_bills].
    split; [eauto |]. intros s' Hs'.
    now apply (close_rows_closed (s_id s) now' (resto_sessions d)).
  - cbn [fst]. split; [auto |]. split; [reflexivity | contradiction].
Qed.

(** ** C6: the toggle *)

(** C6: on an item of an open session, one toggle removes the one claim of
    the pair when it is claimed and adds one when it is not, all other
    claims as they were; two toggles in a row give back the claim set:
    every pair is claimed after exactly when it was before, the claims are
    the same up to the order of the rows, the rest of the ledger is
    untouched, and when the pair was not claimed the table is the very same
    list. *)
Theorem double_toggle_restores_claims (d : db) (item_id user : Z)
        (username : string) (it : item) (s : session) :
  reachable d ->
  find_item item_id (resto_items d) = Some it ->
  find_session (i_session_id it) (resto_sessions d) = Some s ->
  s_status s = Open ->
  let r1 := handle_item_choice d item_id user username in
  let r2 := handle_item_choice (fst r1) item_id user username in
  (if claimed d item_id user
   then snd r1 = ChoiceToggled false (build_resto_ui (fst r1) (s_id s) user)
        /\ resto_choices (fst r1)
           = filter (fun c => negb (is_choice item_id user c)) (resto_choices d)
        /\ S (length (resto_choices (fst r1))) = length (resto_choices d)
   else snd r1 = ChoiceToggled true (build_resto_ui (fst r1) (s_id s) user)
        /\ resto_choices (fst r1)
           = resto_choices d ++ [mkChoice item_id user username])
  /\ claimed (fst r1) item_id user = negb (claimed d item_id user)
  /\ (forall i u, (i, u) <> (item_id, user) ->
                  claimed (fst r1) i u = claimed d i u)
  /\ Permutation (claim_set (fst r2)) (claim_set d)
  /\ (forall i u, claimed (fst r2) i u = claimed d i u)
  /\ fst r2 = with_choices d (resto_choices (fst r2))
  /\ (claimed d item_id user = false -> fst r2 = d).
Proof.
  intros Hr Hit Hs Hst. cbv zeta.
  destruct (reachable_ok d Hr) as [_ _ _ _ _ Cu].
  assert (E1 : forall d0,
             resto_items d0 = resto_items d ->
             resto_sessions d0 = resto_sessions d ->
             handle_item_choice d0 item_id user username
             = (with_choices d0
                  (if existsb (is_choice item_id user) (resto_choices d0)
                   then filter (fun c => negb (is_choice item_id user c))
                               (resto_choices d0)
                   else resto_choices d0 ++ [mkChoice item_id user username]),
                ChoiceToggled
                  (negb (existsb (is_choice item_id user) (resto_choices d0)))
                  (build_resto_ui
                     (with_choices d0
                        (if existsb (is_choice item_id user) (resto_choices d0)
                         then filter (fun c => negb (is_choice item_id user c))
                                     (resto_choices d0)
                         else resto_choices d0 ++ [mkChoice item_id user username]))
                     (s_id s) user))).
  { intros d0 Hi Hss. unfold handle_item_choice.
    now rewrite Hi, Hss, Hit, Hs, Hst. }
  rewrite (E1 d eq_refl eq_refl). cbn [fst snd].
  rewrite (E1 (with_choices d _) eq_refl eq_refl).
  cbn [fst snd resto_choices with_choices]. clear E1.
  unfold claimed, claim_set. cbn [resto_choices with_choices].
  assert (Hnew : is_choice item_id user (mkChoice item_id user username) = true).
  { unfold is_choice. cbn. now rewrite !Z.eqb_refl. }
  assert (Hother : forall i u c, (i, u) <> (item_id, user) ->
                                 is_choice i u c = true ->
                                 is_choice item_id user c = false).
  { intros i u c Hne Hc. destruct (is_choice item_id user c) eqn:Hc'; [| reflexivity].
    destruct (is_choice_same _ _ _ _ _ Hc Hc'). congruence. }
  assert (Hkey : forall i u l,
             existsb (is_choice i u) l
             = existsb (fun k => (fst k =? i) && (snd k =? u))
                       (map (fun c => (c_item_id c, c_user_id c)) l)).
  { intros i u l. induction l as [| c l IH]; cbn [existsb map]; [reflexivity |].
    now rewrite IH. }
  destruct (existsb (is_choice item_id user) (resto_choices d)) eqn:E.
  - (* the pair is claimed: its row is removed, then a new one is added *)
    rewrite existsb_filter_neg. cbn [negb].
    destruct (claimed_once _ _ _ Cu E) as (c & Ec & Ei & Eu).
    assert (Hperm : Permutation
                      (map (fun c => (c_item_id c, c_user_id c))
                           (filter (fun c => negb (is_choice item_id user c))
                                   (resto_choices d)
                            ++ [mkChoice item_id user username]))
                      (map (fun c => (c_item_id c, c_user_id c)) (resto_choices d))).
    { rewrite map_app. cbn [map].
      etransitivity;
        [| symmetry;
           apply (Permutation_map _ (filter_split_perm (is_choice item_id user)
                                                       (resto_choices d)))].
      rewrite Ec. cbn [map app]. rewrite Ei, Eu.
      symmetry. apply Permutation_cons_append. }
    split; [split; [reflexivity | split; [reflexivity |]] |].
    { pose proof (filter_length (is_choice item_id user) (resto_choices d)) as Hl.
      rewrite Ec in Hl. cbn [length] in Hl. lia. }
    split; [reflexivity |].
    split; [| split; [exact Hperm | split; [| split; [reflexivity | discriminate]]]].
    + intros i u Hne. apply existsb_filter_other.
      intros c0. now apply Hother.
    + intros i u. rewrite !Hkey. now apply existsb_perm.
  - (* the pair is not claimed: a row is added, then removed *)
    assert (Ef : filter (fun c => negb (is_choice item_id user c)) (resto_choices d)
                 = resto_choices d).
    { apply filter_all. intros c Hc.
      now rewrite (existsb_false_all _ _ E c Hc). }
    rewrite existsb_app. cbn [existsb]. rewrite Hnew, orb_true_r.
    rewrite filter_app. cbn [filter]. rewrite Hnew. cbn [negb].
    rewrite app_nil_r, Ef.
    split; [split; reflexivity |]. split; [reflexivity |].
    split; [| split; [reflexivity | split; [reflexivity |]]].
    + intros i u Hne. rewrite existsb_app. cbn [existsb].
      destruct (is_choice i u (mkChoice item_id user username)) eqn:Hc.
      * rewrite (Hother i u _ Hne Hc) in Hnew. discriminate.
      * now rewrite !orb_false_r.
    + split; [| intros _]; now destruct d.
Qed.

(** ** C7: closing is final *)

Lemma closed_bill_forever (us : list update) :
  forall d b,
    reachable d -> In b (bills d) -> s_status b = Closed ->
    bill_view (run d us) (s_id b) = bill_view d (s_id b).
Proof.
  induction us as [| u us IH]; intros d b Hr Hin Hcl; [reflexivity |].
  change (run d (u :: us)) with (run (fst (step d u)) us).
  pose proof (changes_closed_bill d _ b (reachable_ok d Hr) (step_changes d u)
                                  Hin Hcl) as E.
  rewrite IH; [exact E | now apply reachable_step | | exact Hcl].
  assert (Hf : In b (fst (fst (bill_view (fst (step d u)) (s_id b))))).
  { rewrite E. cbn. apply filter_In. split; [exact Hin | apply Z.eqb_refl]. }
  cbn in Hf. now apply filter_In in Hf.
Qed.

Lemma closed_resto_forever (us : list update) :
  forall d c,
    reachable d -> In c (resto_sessions d) -> s_status c = Closed ->
    resto_view (run d us) (s_id c) = resto_view d (s_id c).
Proof.
  induction us as [| u us IH]; intros d c Hr Hin Hcl; [reflexivity |].
  change (run d (u :: us)) with (run (fst (step d u)) us).
  pose proof (changes_closed_resto d _ c (reachable_ok d Hr) (step_changes d u)
                                   Hin Hcl) as E.
  rewrite IH; [exact E | now apply reachable_step | | exact Hcl].
  assert (Hf : In c (fst (fst (resto_view (fst (step d u)) (s_id c))))).
  { rewrite E. cbn. apply filter_In. split; [exact Hin | apply Z.eqb_refl]. }
  cbn in Hf. now apply filter_In in Hf.
Qed.

(** C7 (amended): once a bill or a restaurant session of a reachable ledger is
    closed, no update, and no sequence of updates, changes anything stored
    of it: its row (status and timestamps included), its participants and
    expenses, or its items and their claims; so it is never closed a second
    time.  A join addressed to a closed bill is answered BillNotOpen and a
    toggle on an item of a closed session SessionClosed, both leaving the
    ledger as it is.  The updates addressed to the chat (an expense, a
    receipt, a close) only ever act on the open session of the chat: with
    none open they leave the ledger as it is, silently for an expense or a
    receipt and with NoOpenSession for a close. *)
Theorem closed_session_is_final (d : db) :
  reachable d ->
  (forall b, In b (bills d) -> s_status b = Closed ->
     (forall us, bill_view (run d us) (s_id b) = bill_view d (s_id b))
     /\ (forall user username,
           join_bill_callback d (s_id b) user username = (d, BillNotOpen)))
  /\ (forall c, In c (resto_sessions d) -> s_status c = Closed ->
        (forall us, resto_view (run d us) (s_id c) = resto_view d (s_id c))
        /\ (forall it user username,
              In it (resto_items d) -> i_session_id it = s_id c ->
              handle_item_choice d (i_id it) user username = (d, SessionClosed)))
  /\ (forall chat, find_open chat (bills d) = None ->
        (forall user username text now,
            handle_expense d chat user username text now = (d, Silent))
        /\ (find_open chat (resto_sessions d) = None ->
            forall user now, closebill d chat user now = (d, NoOpenSession)))
  /\ (forall chat, find_open chat (resto_sessions d) = None ->
        (forall user result, handle_receipt_photo d chat user result = (d, Silent))
        /\ (forall user now,
              close_resto_button d chat user now = (d, NoOpenSession))).
Proof.
  intros Hr. destruct (reachable_ok d Hr) as [_ Os [Nb _] [Ns _] [Ni _] _].
  split; [| split; [| split]].
  - intros b Hin Hcl. split.
    + intros us. now apply closed_bill_forever.
    + intros user username. unfold join_bill_callback.
      now rewrite (find_session_in _ _ Nb Hin), Hcl.
  - intros c Hin Hcl. split.
    + intros us. now apply closed_resto_forever.
    + intros it user username Hit Es. unfold handle_item_choice.
      rewrite (find_item_in _ _ Ni Hit), Es.
      now rewrite (find_session_in _ _ Ns Hin), Hcl.
  - intros chat Hb. split.
    + intros user username text now. unfold Ledger.handle_expense.
      now rewrite Hb.
    + intros Hs user now. unfold closebill. now rewrite Hb, Hs.
  - intros chat Hs. split.
    + intros user result. unfold Ledger.handle_receipt_photo. now rewrite Hs.
    + intros user now. unfold close_resto_button, find_open_last.
      destruct (find (open_in chat) (rev (resto_sessions d))) as [x |] eqn:E;
        [| reflexivity].
      exfalso. apply find_some in E as [Hin Ho]. apply in_rev in Hin.
      unfold find_open in Hs. eapply find_none in Hs; [| exact Hin].
      congruence.
Qed.

(** ** C4: amounts of expenses *)

(** C4 (amended): a message, in ASCII, of a joined participant of the open
    bill of the chat splits into a description and an amount token.  When
    the token, spaces and commas removed, has at most 300 characters and
    none of the letters e, i, n (so that [float] either raises ValueError on
    it or reads a finite number), an expense is recorded exactly when
    [float] reads a number: when it raises, the handler returns silently and
    the ledger is unchanged; when it reads a number, one expense with that
    description and that number as its amount is appended, whatever the
    sign of the number.  ([py_float] is [float] on such tokens: [None] for
    the ValueError.  A token read as a NaN or as an infinity is outside this
    statement.) *)
Theorem expense_amount_is_any_number (d : db) (chat user now : Z)
        (username text description token : string) (b : session) :
  find_open chat (bills d) = Some b ->
  existsb (is_participant (s_id b) user) (bill_participants d) = true ->
  Text.is_ascii text = true ->
  Text.rsplit1 (Text.strip text) = [description; token] ->
  let cleaned := Text.remove_char ","%char (Text.remove_char " "%char token) in
  Text.plain_token cleaned = true ->
  let r := handle_expense d chat user username text now in
  (py_float cleaned = None -> r = (d, Silent))
  /\ forall amount,
      py_float cleaned = Some amount ->
      r = (with_expenses d
             (expenses d
              ++ [mkExpense (s_id b) user username description amount now]),
           ExpenseAdded description amount).
Proof.
  intros Hb Hp _ Hsplit. cbv zeta. intros _. unfold Ledger.handle_expense.
  rewrite Hb, Hp, Hsplit. split.
  - now intros ->.
  - now intros amount ->.
Qed.

(** ** C5: what a receipt inserts *)

Lemma insert_items_valid_rows (session_id : Z) (items : list json) :
  forall tbl seq,
    Forall (fun v => parse_item v <> Raised) items ->
    insert_items session_id items tbl seq
    = Some (tbl ++ valid_rows session_id items seq,
            seq + Z.of_nat (length (valid_rows session_id items seq))).
Proof.
  induction items as [| v items IH]; intros tbl seq Hall;
    cbn [Ledger.insert_items Ledger.valid_rows].
  - cbn. now rewrite app_nil_r, Z.add_0_r.
  - inversion Hall as [| ? ? Hv Hrest]; subst.
    destruct (parse_item v) as [| | name price qty];
      [congruence | exact (IH _ _ Hrest) |].
    rewrite IH by exact Hrest. rewrite <- app_assoc. cbn [app length].
    do 2 f_equal. lia.
Qed.

(** The items that are dropped one by one are dropped, the others are
    inserted; and a receipt all of whose items are dropped is answered as
    processed, with no item and no button, the ledger as it was. *)
Lemma receipt_of_dropped_items (d : db) (chat : Z) (s : session)
      (v : json) (items : list json) :
  find_open chat (resto_sessions d) = Some s ->
  items_of (s_id s) (resto_items d) = [] ->
  Forall (fun v => parse_item v = Skipped) (v :: items) ->
  handle_receipt_photo d chat (s_creator_id s) (Items (v :: items))
  = (d, ReceiptProcessed []).
Proof.
  intros Hs Hnone Hall. unfold Ledger.handle_receipt_photo.
  rewrite Hs, Z.eqb_refl, Hnone. cbn [negb length Nat.eqb].
  assert (Hv : valid_rows (s_id s) (v :: items) (seq_items d) = []).
  { generalize (seq_items d). induction Hall as [| x l Hx _ IH]; intros seq;
      cbn [Ledger.valid_rows]; [reflexivity |]. rewrite Hx. apply IH. }
  rewrite insert_items_valid_rows.
  2:{ eapply Forall_impl; [| exact Hall]. cbn. intros x ->. discriminate. }
  rewrite Hv, app_nil_r. cbn [length Z.of_nat]. rewrite Z.add_0_r.
  unfold build_resto_ui. cbn [resto_items with_items]. rewrite Hnone.
  now destruct d.
Qed.

End Handlers.

(** ** Worked ledgers *)

Lemma reachable10 (us : list update) :
  reachable Text.decimal_float Text.decimal_int (run10 us).
Proof. apply reachable_run. Qed.

(** C1, as stated, fails: in chat 7 a restaurant session is open, yet
    [/newbill] does not answer AlreadyOpen; it opens a bill, and the chat then
    has two open sessions. *)
Lemma bill_and_resto_open_together :
  let d1 := run10 [CmdResto 7 1 "ann" 100] in
  let r := step10 d1 (CmdNewbill 7 1 "ann" 101) in
  open_count 7 d1 = 1%nat
  /\ snd r = BillCreated 1
  /\ fst r = run10 [CmdResto 7 1 "ann" 100; CmdNewbill 7 1 "ann" 101]
  /\ open_count 7 (fst r) = 2%nat.
Proof. repeat split. Qed.

(** The scenario of the specification for the claim split: ann owes
    25000 + 20000 and bob 25000. *)
Example close_resto_scenario :
  match snd (step10 (run10 pizza_evening) (CbCloseResto 7 1 200)) with
  | RestoSettled total [(1, a); (2, b)] =>
      (total == 70000 /\ a == 45000 /\ b == 25000)%Q
  | _ => False
  end.
Proof. vm_compute. repeat split. Qed.

(** The scenario of the specification for the equal split. *)
Example close_newbill_scenario :
  let d := run10 [CmdNewbill 7 1 "a" 100; CbJoinBill 1 1 "a"; CbJoinBill 1 2 "b";
                  CbJoinBill 1 3 "c"; MsgText 7 1 "a" "Dinner 90000" 101;
                  MsgText 7 3 "c" "Taxi 30,000" 102] in
  match snd (step10 d (CmdClosebill 7 1 200)) with
  | BillSettled total share _ [(2, 1, x); (3, 1, y)] =>
      (total == 120000 /\ share == 40000 /\ x == 40000 /\ y == 10000)%Q
  | _ => False
  end.
Proof. vm_compute. repeat split. Qed.

(** C4, as stated, fails: a joined participant sends [Refund -500]; the
    handler does not fail, it answers that the expense is added and stores an
    expense of -500.  The same happens with an amount of 0. *)
Lemma negative_expense_is_recorded :
  let d := run10 [CmdNewbill 7 1 "ann" 100; CbJoinBill 1 1 "ann"] in
  let r := step10 d (MsgText 7 1 "ann" "Refund -500" 101) in
  let r0 := step10 d (MsgText 7 1 "ann" "Water 0" 101) in
  snd r = ExpenseAdded "Refund" (-500)%Q
  /\ map e_amount (expenses (fst r)) = [(-500)%Q]
  /\ ~ (0 < -500)%Q
  /\ snd r0 = ExpenseAdded "Water" 0%Q
  /\ map e_amount (expenses (fst r0)) = [0%Q].
Proof.
  cbv zeta. split; [reflexivity | split; [reflexivity | split]].
  - intros H. vm_compute in H. discriminate.
  - split; reflexivity.
Qed.

Lemma expense_amount_is_any_number_witness :
  let d := run10 [CmdNewbill 7 1 "ann" 100; CbJoinBill 1 1 "ann"] in
  let b := mkSession 1 7 1 "ann" 100 None Open in
  find_open 7 (bills d) = Some b
  /\ existsb (is_participant (s_id b) 1) (bill_participants d) = true
  /\ Text.is_ascii "Refund -500" = true
  /\ Text.rsplit1 (Text.strip "Refund -500") = ["Refund"%string; "-500"%string]
  /\ Text.plain_token "-500" = true
  /\ step10 d (MsgText 7 1 "ann" "Refund -500" 101)
     = (with_expenses d
          (expenses d ++ [mkExpense 1 1 "ann" "Refund" (-500)%Q 101]),
        ExpenseAdded "Refund" (-500)%Q).
Proof.
  cbv zeta.
  do 5 (split; [reflexivity |]).
  exact (proj2 (expense_amount_is_any_number
                  Text.decimal_float
                  (run10 [CmdNewbill 7 1 "ann" 100; CbJoinBill 1 1 "ann"])
                  7 1 101 "ann" "Refund -500" "Refund" "-500"
                  (mkSession 1 7 1 "ann" 100 None Open)
                  eq_refl eq_refl eq_refl eq_refl eq_refl)
               (-500)%Q eq_refl).
Defined.

(** C5, on a receipt all of whose items are invalid: the session has no
    item, the creator sends [blank_receipt]; nothing is inserted, but the
    answer is the one of a processed receipt (with an empty list of items),
    not NoValidItems. *)
Theorem receipt_of_invalid_items_is_processed :
  let d := run10 [CmdResto 7 1 "ann" 100] in
  step10 d (MsgPhoto 7 1 (Items blank_receipt)) = (d, ReceiptProcessed [])
  /\ step10 d (MsgPhoto 7 1 (Items [])) = (d, NoValidItems).
Proof. split; reflexivity. Qed.

(** A receipt with a valid and an invalid item: the valid one is inserted,
    the other dropped. *)
Example receipt_of_mixed_items :
  let d := run10 [CmdResto 7 1 "ann" 100] in
  map i_name
      (resto_items
         (fst (step10 d (MsgPhoto 7 1 (Items (blank_receipt ++ pizza_receipt))))))
  = ["Pizza"%string; "Cola"%string].
Proof. reflexivity. Qed.

Lemma double_toggle_restores_claims_witness :
  let d := run10 pizza_evening in
  reachable Text.decimal_float Text.decimal_int d
  /\ find_item 1 (resto_items d) = Some (mkItem 1 1 "Pizza" 50000%Q 1 false)
  /\ find_session 1 (resto_sessions d) = Some (mkSession 1 7 1 "ann" 100 None Open)
  /\ Permutation
       (claim_set (fst (handle_item_choice
                          (fst (handle_item_choice d 1 2 "bob")) 1 2 "bob")))
       (claim_set d).
Proof.
  cbv zeta.
  split; [apply reachable10 | split; [reflexivity | split; [reflexivity |]]].
  exact (proj1 (proj2 (proj2 (proj2
           (double_toggle_restores_claims
              Text.decimal_float Text.decimal_int (run10 pizza_evening) 1 2 "bob"
              (mkItem 1 1 "Pizza" 50000%Q 1 false)
              (mkSession 1 7 1 "ann" 100 None Open)
              (reachable10 pizza_evening) eq_refl eq_refl eq_refl))))).
Defined.

Lemma closed_session_is_final_witness :
  let d := run10 (pizza_bill ++ [CmdClosebill 7 1 200]) in
  let b := mkSession 1 7 1 "ann" 100 (Some 200) Closed in
  reachable Text.decimal_float Text.decimal_int d
  /\ In b (bills d)
  /\ forall us,
      bill_view (run Text.decimal_float Text.decimal_int d us) 1 = bill_view d 1.
Proof.
  cbv zeta.
  split; [apply reachable10 | split; [now left |]].
  exact (proj1 (proj1 (closed_session_is_final
                         Text.decimal_float Text.decimal_int
                         (run10 (pizza_bill ++ [CmdClosebill 7 1 200]))
                         (reachable10 (pizza_bill ++ [CmdClosebill 7 1 200])))
                      (mkSession 1 7 1 "ann" 100 (Some 200) Closed)
                      (or_introl eq_refl) eq_refl)).
Defined.

Lemma second_receipt_is_rejected_witness :
  let d := run10 pizza_evening in
  let s := mkSession 1 7 1 "ann" 100 None Open in
  find_open 7 (resto_sessions d) = Some s
  /\ items_of (s_id s) (resto_items d) <> []
  /\ step10 d (MsgPhoto 7 1 (Items pizza_receipt)) = (d, AlreadyIngested).
Proof.
  cbv zeta.
  assert (Hne : items_of 1 (resto_items (run10 pizza_evening)) <> [])
    by discriminate.
  split; [reflexivity | split; [exact Hne |]].
  destruct (second_receipt_is_rejected
              Text.decimal_float Text.decimal_int (run10 pizza_evening) 7 1
              (Items pizza_receipt) (mkSession 1 7 1 "ann" 100 None Open)
              eq_refl Hne) as (E1 & _ & _ & E2 & _).
  unfold step10. cbn [step].
  rewrite (surjective_pairing (handle_receipt_photo _ _ _ _ _ _)).
  now rewrite E1, (E2 eq_refl).
Defined.

(** C10, as stated, fails: both kinds are open in chat 7 and nobody has
    joined the bill.  [/closebill] from the creator of the bill is answered
    NoParticipants and [/closebill] from anybody else Forbidden; the bill
    stays open. *)
Lemma closebill_without_participants_closes_nothing :
  let d := run10 [CmdNewbill 7 1 "ann" 100; CmdResto 7 2 "bob" 150] in
  let b := mkSession 1 7 1 "ann" 100 None Open in
  find_open 7 (bills d) = Some b
  /\ find_open 7 (resto_sessions d) = Some (mkSession 1 7 2 "bob" 150 None Open)
  /\ step10 d (CmdClosebill 7 1 200) = (d, NoParticipants)
  /\ step10 d (CmdClosebill 7 2 200) = (d, Forbidden)
  /\ find_open 7 (bills (fst (step10 d (CmdClosebill 7 1 200)))) = Some b.
Proof. repeat split. Qed.

Lemma closebill_closes_the_bill_first_witness :
  let d := run10 (pizza_bill ++ [CmdResto 7 2 "bob" 150]) in
  let b := mkSession 1 7 1 "ann" 100 None Open in
  let s := mkSession 1 7 2 "bob" 150 None Open in
  reachable Text.decimal_float Text.decimal_int d
  /\ find_open 7 (bills d) = Some b
  /\ find_open 7 (resto_sessions d) = Some s
  /\ modest_bill d 1 = true
  /\ find_open 7 (resto_sessions (fst (closebill d 7 1 200))) = Some s
  /\ find_open 7 (bills (fst (closebill d 7 1 200))) = None.
Proof.
  cbv zeta.
  assert (Hp : participants_of 1 (bill_participants
                                   (run10 (pizza_bill ++ [CmdResto 7 2 "bob" 150])))
               <> []) by discriminate.
  assert (He : expenses_of 1 (expenses
                                (run10 (pizza_bill ++ [CmdResto 7 2 "bob" 150])))
               <> []) by discriminate.
  pose proof (closebill_closes_the_bill_first
                Text.decimal_float Text.decimal_int
                (run10 (pizza_bill ++ [CmdResto 7 2 "bob" 150])) 7 1 200
                (mkSession 1 7 1 "ann" 100 None Open)
                (mkSession 1 7 2 "bob" 150 None Open)
                (reachable10 (pizza_bill ++ [CmdResto 7 2 "bob" 150]))
                eq_refl eq_refl) as (H1 & _ & H3).
  split; [apply reachable10 |]. do 3 (split; [reflexivity |]).
  split; [exact (proj2 (proj2 (proj2 H1))) |].
  exact (proj1 (proj2 (proj2 (H3 eq_refl Hp He eq_refl)))).
Defined.

(** C7, as stated, fails: the bill of chat 7 is closed, and so is the
    restaurant session of chat 8.  An expense sent to chat 7 and a receipt
    sent to chat 8 do not fail with a closed-session answer: the handlers
    look for an open session of the chat, find none and return without a
    word (the ledger is unchanged). *)
Lemma closed_session_is_passed_over_silently :
  let d := run10 (pizza_bill
                    ++ [CmdClosebill 7 1 200; CmdResto 8 1 "ann" 300;
                        MsgPhoto 8 1 (Items pizza_receipt);
                        CbCloseResto 8 1 400]) in
  In (mkSession 1 7 1 "ann" 100 (Some 200) Closed) (bills d)
  /\ In (mkSession 1 8 1 "ann" 300 (Some 400) Closed) (resto_sessions d)
  /\ step10 d (MsgText 7 1 "ann" "Cola 10000" 500) = (d, Silent)
  /\ step10 d (MsgPhoto 8 1 (Items pizza_receipt)) = (d, Silent)
  /\ Silent <> BillNotOpen /\ Silent <> SessionClosed.
Proof.
  cbv zeta. split; [now left | split; [now left |]].
  split; [reflexivity | split; [reflexivity |]]. split; discriminate.
Qed.

Lemma one_open_session_per_kind_witness :
  let d := run10 [CmdResto 7 1 "ann" 100; CmdNewbill 7 1 "ann" 101] in
  reachable Text.decimal_float Text.decimal_int d
  /\ (length (filter (open_in 7) (bills d)) <= 1)%nat
  /\ (length (filter (open_in 7) (resto_sessions d)) <= 1)%nat.
Proof.
  cbv zeta.
  pose proof (one_open_session_per_kind Text.decimal_float Text.decimal_int _
                (reachable10 [CmdResto 7 1 "ann" 100; CmdNewbill 7 1 "ann" 101]) 7)
    as (H1 & H2 & _).
  split; [apply reachable10 | split; [exact H1 | exact H2]].
Defined.

End LedgerFacts.


(** * More about the settlement engine *)

Module SettlementMore.
Import Settlement SettlementFacts.

(** ** How many transfers *)

Lemma settle_rest_count (fuel : nat) :
  forall ds cs,
    (ds = [] \/ cs = [] -> settle_rest fuel ds cs = [])
    /\ (length (settle_rest fuel ds cs) <= Nat.pred (length ds + length cs))%nat.
Proof.
  induction fuel as [| fuel IH]; intros ds cs; cbn [settle_rest].
  - split; [reflexivity | cbn; lia].
  - destruct ds as [| [du d] ds].
    { split; [reflexivity | cbn; lia]. }
    destruct cs as [| [cu c] cs].
    { split; [reflexivity | cbn; lia]. }
    split; [intros [H | H]; discriminate |].
    cbv zeta. cbn [length].
    destruct (IH (keep_or_drop du (d - Qmin d c) ds)
                 (keep_or_drop cu (c - Qmin d c) cs)) as [Hnil Hlen].
    pose proof (keep_or_drop_length du (d - Qmin d c) ds) as [Ld Ld'].
    pose proof (keep_or_drop_length cu (c - Qmin d c) cs) as [Lc Lc'].
    assert (Hshrink :
              (length (keep_or_drop du (d - Qmin d c) ds)
               + length (keep_or_drop cu (c - Qmin d c) cs)
               <= S (length ds + length cs))%nat).
    { destruct (Qmin_cases d c) as [[E _] | [E _]].
      - rewrite Ld' by (unfold eps; lra). lia.
      - rewrite Lc' by (unfold eps; lra). lia. }
    destruct (keep_or_drop du (d - Qmin d c) ds) as [| x xs] eqn:Ex.
    { rewrite Hnil by now left. cbn. lia. }
    destruct (keep_or_drop cu (c - Qmin d c) cs) as [| y ys] eqn:Ey.
    { rewrite Hnil by now right. cbn. lia. }
    cbn [length] in *. lia.
Qed.

(** X1: on every mapping of balances on a binary grid (finite binary64
    numbers: multiples of 2^-k of magnitude at most 2^53 such multiples),
    [minimize_transactions] returns no transfer when no balance is below
    -0.01 or none is above 0.01, and otherwise at least one and at most one
    less than the number of debtors and creditors together.  (The amount of
    a turn is one of the two remainders, which that turn brings to zero.) *)
Theorem minimize_transactions_count (k : nat) (balances : list (Z * Q)) :
  exact_balances k balances = true ->
  let txs := minimize_transactions balances in
  let nd := length (debtors_of balances) in
  let nc := length (creditors_of balances) in
  (nd = 0%nat \/ nc = 0%nat -> txs = [])
  /\ ((0 < nd)%nat -> (0 < nc)%nat ->
      (1 <= length txs)%nat /\ (length txs + 1 <= nd + nc)%nat).
Proof.
  intros _. cbv zeta. rewrite minimize_transactions_rest. cbv zeta.
  pose proof (Permutation_length (sort_desc_perm (debtors_of balances))) as Ld.
  pose proof (Permutation_length (sort_desc_perm (creditors_of balances))) as Lc.
  set (ds := sort_desc (debtors_of balances)) in *.
  set (cs := sort_desc (creditors_of balances)) in *.
  destruct (settle_rest_count (length ds + length cs) ds cs) as [Hnil Hlen].
  split.
  - intros [H | H]; apply Hnil; [left | right];
      apply length_zero_iff_nil; congruence.
  - intros Hd Hc. split; [| lia].
    destruct ds as [| [du d] ds']; [cbn in Ld; lia |].
    destruct cs as [| [cu c] cs']; [cbn in Lc; lia |].
    cbn. lia.
Qed.

Lemma minimize_transactions_count_witness :
  exact_balances 7 uneven_table = true
  /\ (1 <= length (minimize_transactions uneven_table))%nat
  /\ (length (minimize_transactions uneven_table) + 1
      <= length (debtors_of uneven_table) + length (creditors_of uneven_table))%nat.
Proof.
  split; [reflexivity |].
  apply (proj2 (minimize_transactions_count 7 uneven_table eq_refl)).
  - vm_compute. lia.
  - vm_compute. lia.
Defined.

(** ** Who pays whom *)

Lemma keep_or_drop_in (u : Z) (r : Q) (l : list (Z * Q)) (v : Z) (m : Q) :
  In (v, m) (keep_or_drop u r l) -> In (v, m) l \/ (v = u /\ m = r).
Proof.
  destruct (keep_or_drop_cases u r l) as [[_ ->] | [_ ->]]; [auto |].
  intros [E | H]; [inversion E; auto | auto].
Qed.

Lemma settle_rest_endpoints (fuel : nat) :
  forall ds cs,
    above_eps ds -> above_eps cs ->
    forall t, In t (settle_rest fuel ds cs) ->
      eps < tx_amount t
      /\ (exists m, In (tx_from t, m) ds /\ tx_amount t <= m)
      /\ (exists m, In (tx_to t, m) cs /\ tx_amount t <= m).
Proof.
  induction fuel as [| fuel IH]; intros ds cs Hd Hc t Ht;
    cbn [settle_rest] in Ht; [contradiction |].
  destruct ds as [| [du d] ds]; [contradiction |].
  destruct cs as [| [cu c] cs]; [contradiction |].
  inversion Hd as [| ? ? Hd1 Hd2]; inversion Hc as [| ? ? Hc1 Hc2]; subst.
  cbn [snd] in Hd1, Hc1.
  assert (Ha : eps < Qmin d c /\ Qmin d c <= d /\ Qmin d c <= c).
  { destruct (Qmin_cases d c) as [[E ?] | [E ?]]; lra. }
  destruct Ht as [<- | Ht].
  - cbn [tx_amount tx_from tx_to fst snd].
    split; [tauto | split; [exists d | exists c]]; split; try tauto; now left.
  - apply IH in Ht as (Hamt & (m & Hm & Hle) & (n & Hn & Hle')).
    2:{ now apply keep_or_drop_above. }
    2:{ now apply keep_or_drop_above. }
    split; [exact Hamt | split].
    + apply keep_or_drop_in in Hm as [Hm | [E ->]].
      * exists m. split; [now right | exact Hle].
      * exists d. rewrite E. split; [now left | unfold eps in *; lra].
    + apply keep_or_drop_in in Hn as [Hn | [E ->]].
      * exists n. split; [now right | exact Hle'].
      * exists c. rewrite E. split; [now left | unfold eps in *; lra].
Qed.

(** X2: every transfer returned by [minimize_transactions] moves more than
    0.01, from a user whose balance is below -0.01 to a user whose balance
    is above 0.01, and no more than either balance in magnitude; with
    distinct users, nobody is told to pay themselves. *)
Theorem minimize_transactions_endpoints (balances : list (Z * Q))
        (t : transfer) :
  NoDup (Dict.keys balances) ->
  In t (minimize_transactions balances) ->
  eps < tx_amount t
  /\ (exists a, In (tx_from t, a) balances /\ a < - eps /\ tx_amount t <= - a)
  /\ (exists c, In (tx_to t, c) balances /\ eps < c /\ tx_amount t <= c)
  /\ tx_from t <> tx_to t.
Proof.
  intros Hn Ht. rewrite minimize_transactions_rest in Ht. cbv zeta in Ht.
  apply settle_rest_endpoints in Ht as (Hamt & (m & Hm & Hle) & (n & Hc & Hle')).
  2:{ apply sort_desc_above, debtors_above. }
  2:{ apply sort_desc_above, creditors_above. }
  apply sort_desc_in, in_debtors in Hm as (a & Ha & Hneg & ->).
  apply sort_desc_in, in_creditors in Hc as [Hc Hpos].
  split; [exact Hamt | split; [eauto | split; [eauto |]]].
  intros E. rewrite E in Ha.
  pose proof (get_in _ _ _ Hn Ha) as G1.
  rewrite (get_in _ _ _ Hn Hc) in G1. inversion G1; subst.
  unfold eps in *; lra.
Qed.

Lemma minimize_transactions_endpoints_witness :
  NoDup (Dict.keys uneven_table)
  /\ In (3%Z, 6%Z, 63 # 64) (minimize_transactions uneven_table)
  /\ eps < 63 # 64.
Proof.
  assert (Hn : NoDup (Dict.keys uneven_table))
    by (repeat constructor; cbn; intuition discriminate).
  assert (Hin : In (3%Z, 6%Z, 63 # 64) (minimize_transactions uneven_table))
    by (rewrite minimize_transactions_uneven; right; right; now left).
  split; [exact Hn | split; [exact Hin |]].
  exact (proj1 (minimize_transactions_endpoints uneven_table _ Hn Hin)).
Defined.

(** ** Largest first *)

Lemma descending_cons (x : Z * Q) (l : list (Z * Q)) :
  (forall y, In y l -> snd y <= snd x) -> descending l -> descending (x :: l).
Proof.
  intros Hx Hl i j a b Hij Hi Hj.
  destruct i as [| i], j as [| j]; cbn [nth_error] in *; try lia.
  - inversion Hi; inversion Hj; subst. lra.
  - inversion Hi; subst. apply Hx. eapply nth_error_In; eauto.
  - eapply (Hl i j); eauto. lia.
Qed.

Lemma descending_inv (x : Z * Q) (l : list (Z * Q)) :
  descending (x :: l) -> (forall y, In y l -> snd y <= snd x) /\ descending l.
Proof.
  intros H. split.
  - intros y Hy. apply In_nth_error in Hy as [n Hn].
    apply (H 0%nat (S n) x y); [lia | reflexivity | exact Hn].
  - intros i j a b Hij Hi Hj. apply (H (S i) (S j)); [lia | exact Hi | exact Hj].
Qed.

Lemma insert_desc_descending (x : Z * Q) (l : list (Z * Q)) :
  descending l -> descending (insert_desc x l).
Proof.
  induction l as [| y l IH]; intros Hl; cbn [insert_desc].
  - apply descending_cons; [intros ? [] | intros i j a b _ Hi; destruct i; discriminate].
  - destruct (descending_inv _ _ Hl) as [Hy Hl'].
    destruct (Qltb (snd x) (snd y)) eqn:E.
    + apply Qltb_lt in E. apply descending_cons; [| now apply IH].
      intros z Hz. apply (Permutation_in _ (insert_desc_perm x l)) in Hz.
      destruct Hz as [<- | Hz]; [lra | now apply Hy].
    + apply Qltb_ge in E. apply descending_cons; [| exact Hl].
      intros z [<- | Hz]; [exact E |]. specialize (Hy z Hz). lra.
Qed.

Lemma sort_desc_descending (l : list (Z * Q)) : descending (sort_desc l).
Proof.
  induction l as [| x l IH]; cbn [sort_desc].
  - intros i j a b _ Hi. destruct i; discriminate.
  - now apply insert_desc_descending.
Qed.

(** X3: the first transfer of [minimize_transactions] is between the user
    who owes most and the user who is owed most, and moves the smaller of
    the two balances in magnitude. *)
Theorem minimize_transactions_largest_first (balances : list (Z * Q))
        (t : transfer) (rest : list transfer) :
  minimize_transactions balances = t :: rest ->
  exists a c,
    In (tx_from t, a) balances /\ In (tx_to t, c) balances
    /\ a < - eps /\ eps < c
    /\ tx_amount t = Qmin (- a) c
    /\ (forall u b, In (u, b) balances -> a <= b)
    /\ (forall u b, In (u, b) balances -> b <= c).
Proof.
  rewrite minimize_transactions_rest. cbv zeta.
  pose proof (sort_desc_descending (debtors_of balances)) as Sd.
  pose proof (sort_desc_descending (creditors_of balances)) as Sc.
  assert (Hd : forall x, In x (sort_desc (debtors_of balances)) ->
                         In x (debtors_of balances))
    by (intros x; apply sort_desc_in).
  assert (Hc : forall x, In x (sort_desc (creditors_of balances)) ->
                         In x (creditors_of balances))
    by (intros x; apply sort_desc_in).
  assert (Hd' : forall x, In x (debtors_of balances) ->
                          In x (sort_desc (debtors_of balances)))
    by (intros x; apply sort_desc_in).
  assert (Hc' : forall x, In x (creditors_of balances) ->
                          In x (sort_desc (creditors_of balances)))
    by (intros x; apply sort_desc_in).
  destruct (sort_desc (debtors_of balances)) as [| [du d] ds];
    [destruct (_ + _)%nat; discriminate |].
  destruct (sort_desc (creditors_of balances)) as [| [cu c] cs];
    [destruct (_ + _)%nat; discriminate |].
  cbn [length Nat.add settle_rest]. intros E. inversion E; subst t rest.
  cbn [tx_from tx_to tx_amount fst snd].
  destruct (proj1 (in_debtors du d balances) (Hd _ (or_introl eq_refl)))
    as (a & Ha & Hneg & ->).
  destruct (proj1 (in_creditors cu c balances) (Hc _ (or_introl eq_refl)))
    as [Hcin Hpos].
  destruct (descending_inv _ _ Sd) as [Dmax _].
  destruct (descending_inv _ _ Sc) as [Cmax _].
  exists a, c. repeat split; auto.
  - intros u b Hb. destruct (Qlt_le_dec b (- eps)) as [Hlt | Hge].
    + assert (Hin : In (u, - b) ((du, - a) :: ds)).
      { apply Hd'. apply in_debtors. now exists b. }
      destruct Hin as [E' | Hin].
      * pose proof (f_equal snd E') as E2. cbn [snd] in E2.
        assert (E3 : - a == - b) by (rewrite E2; reflexivity).
        lra.
      * specialize (Dmax _ Hin). cbn [snd] in Dmax. lra.
    + lra.
  - intros u b Hb. destruct (Qlt_le_dec eps b) as [Hgt | Hle].
    + assert (Hin : In (u, b) ((cu, c) :: cs)).
      { apply Hc'. now apply in_creditors. }
      destruct Hin as [E' | Hin].
      * inversion E'. apply Qle_refl.
      * specialize (Cmax _ Hin). cbn [snd] in Cmax. exact Cmax.
    + lra.
Qed.

Lemma minimize_transactions_largest_first_witness :
  minimize_transactions uneven_table
  = (1%Z, 4%Z, 1) :: [(2%Z, 5%Z, 1); (3%Z, 6%Z, 63 # 64)]
  /\ exists a c,
      In (1%Z, a) uneven_table /\ In (4%Z, c) uneven_table
      /\ a < - eps /\ eps < c.
Proof.
  split; [exact minimize_transactions_uneven |].
  destruct (minimize_transactions_largest_first uneven_table _ _
              minimize_transactions_uneven)
    as (a & c & H1 & H2 & H3 & H4 & _).
  exists a, c. auto.
Defined.

End SettlementMore.


(** * More about the ledger *)

Module LedgerMore.
Import Settlement Json Ledger LedgerFacts.

Local Open Scope Z_scope.

(** ** Keeping the rows consistent *)

Lemma has_id_app (id : Z) (tbl more : list session) :
  has_id id tbl = true -> has_id id (tbl ++ more) = true.
Proof. unfold has_id. rewrite existsb_app. now intros ->. Qed.

Lemma has_id_close (id i now : Z) (tbl : list session) :
  has_id id (close_rows i now tbl) = has_id id tbl.
Proof.
  unfold has_id, close_rows. induction tbl as [| s tbl IH];
    cbn [map existsb]; [reflexivity |].
  now rewrite close_row_id, IH.
Qed.

Lemma has_id_found (id : Z) (tbl : list session) (s : session) :
  find_session id tbl = Some s -> has_id id tbl = true.
Proof.
  intros H. apply find_session_some in H as [Hin E].
  unfold has_id. apply existsb_exists. exists s. split; [exact Hin |].
  now apply Z.eqb_eq.
Qed.

Lemma has_id_in (tbl : list session) (s : session) :
  In s tbl -> has_id (s_id s) tbl = true.
Proof.
  intros H. unfold has_id. apply existsb_exists. exists s.
  split; [exact H | apply Z.eqb_refl].
Qed.

Lemma has_item_app (id : Z) (tbl more : list item) :
  has_item id tbl = true -> has_item id (tbl ++ more) = true.
Proof. unfold has_item. rewrite existsb_app. now intros ->. Qed.

Lemma find_app_none {A} (f : A -> bool) (l more : list A) :
  find f l = None -> find f (l ++ more) = find f more.
Proof.
  induction l as [| x l IH]; cbn [find app]; [reflexivity |].
  destruct (f x); [discriminate | exact IH].
Qed.

Lemma existsb_app_l {A} (f : A -> bool) (l more : list A) :
  existsb f l = true -> existsb f (l ++ more) = true.
Proof. rewrite existsb_app. now intros ->. Qed.

Lemma participants_unique_add (tbl : list participant) (bill user : Z)
      (username : string) :
  participants_unique tbl ->
  existsb (is_participant bill user) tbl = false ->
  participants_unique (tbl ++ [mkParticipant bill user username]).
Proof.
  intros H Hno b u. rewrite filter_app, length_app. cbn [filter].
  destruct (is_participant b u (mkParticipant bill user username)) eqn:E;
    cbn [length]; [| specialize (H b u); lia].
  unfold is_participant in E. cbn in E.
  apply andb_true_iff in E as [Eb Eu]. apply Z.eqb_eq in Eb, Eu. subst.
  rewrite (existsb_false_filter _ _ Hno). cbn. lia.
Qed.

Lemma sound_with_bills (d : db) (tbl : list session) (n : Z) :
  db_sound d ->
  (forall id, has_id id (bills d) = true -> has_id id tbl = true) ->
  db_sound (with_bills d tbl n).
Proof.
  intros [S1 S2 S3 S4 S5 S6] H. constructor; cbn; auto.
  eapply Forall_impl; [| exact S2]. intros p. apply H.
Qed.

Lemma sound_with_sessions (d : db) (tbl : list session) (n : Z) :
  db_sound d ->
  (forall id, has_id id (resto_sessions d) = true -> has_id id tbl = true) ->
  db_sound (with_sessions d tbl n).
Proof.
  intros [S1 S2 S3 S4 S5 S6] H. constructor; cbn; auto.
  eapply Forall_impl; [| exact S4]. intros p. apply H.
Qed.

Lemma empty_db_sound : db_sound empty_db.
Proof.
  constructor; cbn; try (apply Forall_nil).
  intros b u. cbn. lia.
Qed.

(** ** Sums of amounts *)

Lemma fold_left_qsum (l : list Q) (a : Q) :
  (fold_left Qplus l a == a + qsum l)%Q.
Proof.
  revert a. induction l as [| x l IH]; intros a; cbn [fold_left qsum fold_right].
  - lra.
  - rewrite IH. fold (qsum l). lra.
Qed.

Lemma sum_list_qsum (l : list Q) : (sum_list l == qsum l)%Q.
Proof. unfold sum_list. rewrite fold_left_qsum. lra. Qed.

Lemma count_succ_neq_0 (n : nat) : ~ (inject_Z (Z.of_nat (S n)) == 0)%Q.
Proof.
  intros H. unfold Qeq in H. cbn [Qnum Qden inject_Z] in H. lia.
Qed.

Lemma count_succ (n : nat) :
  (inject_Z (Z.of_nat (S n)) == inject_Z (Z.of_nat n) + 1)%Q.
Proof.
  rewrite Nat2Z.inj_succ. unfold Z.succ. rewrite inject_Z_plus. reflexivity.
Qed.

Lemma vsum_set (k : Z) (v old : Q) (d : list (Z * Q)) :
  Dict.get k d = Some old ->
  (vsum (Dict.set k v d) == vsum d - old + v)%Q.
Proof.
  unfold vsum. induction d as [| [k' v'] d IH];
    cbn [Dict.get Dict.set]; [discriminate |].
  destruct (k =? k') eqn:E; cbn [map snd qsum fold_right].
  - intros H. inversion H; subst. lra.
  - intros H. specialize (IH H). fold (qsum (map snd (Dict.set k v d))).
    fold (qsum (map snd d)). lra.
Qed.

Lemma add_to_vsum (uid : Z) (x : Q) (t t' : list (Z * Q)) :
  add_to uid x t = Some t' -> (vsum t' == vsum t + x)%Q.
Proof.
  unfold add_to. destruct (Dict.get uid t) as [v |] eqn:G; [| discriminate].
  intros H. inversion H; subst. rewrite (vsum_set _ _ _ _ G). lra.
Qed.

Lemma add_to_each_vsum (uids : list Z) (x : Q) :
  forall t t',
    add_to_each uids x t = Some t' ->
    (vsum t' == vsum t + inject_Z (Z.of_nat (length uids)) * x)%Q.
Proof.
  induction uids as [| uid uids IH]; intros t t' H; cbn [add_to_each] in H.
  - inversion H; subst. cbn [length]. change (inject_Z (Z.of_nat 0)) with 0%Q. lra.
  - destruct (add_to uid x t) as [t1 |] eqn:E1; [| discriminate].
    rewrite (IH _ _ H), (add_to_vsum _ _ _ _ E1).
    cbn [length]. rewrite count_succ. lra.
Qed.

Lemma split_item_vsum (choices : list choice) (it : item)
      (t t' : list (Z * Q)) (sh sh' : Q) :
  i_is_shared it = false ->
  split_item choices (t, sh) it = Some (t', sh') ->
  sh' = sh
  /\ (vsum t' == vsum t + claimed_total choices [it])%Q.
Proof.
  intros Hsh. unfold split_item, claimed_total. rewrite Hsh.
  cbn [map qsum fold_right].
  destruct (choosers_of (i_id it) choices) as [| u0 us] eqn:E.
  - intros H. inversion H; subst. split; [reflexivity | lra].
  - destruct (add_to_each _ _ t) as [t1 |] eqn:E1; [| discriminate].
    intros H. inversion H; subst. split; [reflexivity |].
    rewrite (add_to_each_vsum _ _ _ _ E1).
    pose proof (count_succ_neq_0 (length us)) as Hk. cbn [length].
    field_simplify_eq; [ring | exact Hk].
Qed.

Lemma claimed_total_cons (choices : list choice) (it : item) (items : list item) :
  (claimed_total choices (it :: items)
   == claimed_total choices [it] + claimed_total choices items)%Q.
Proof. unfold claimed_total, qsum. cbn [map fold_right]. lra. Qed.

Lemma split_items_vsum (choices : list choice) (items : list item) :
  forall t sh t' sh',
    Forall (fun it => i_is_shared it = false) items ->
    split_items choices (t, sh) items = Some (t', sh') ->
    sh' = sh /\ (vsum t' == vsum t + claimed_total choices items)%Q.
Proof.
  induction items as [| it items IH]; intros t sh t' sh' Hall H;
    cbn [split_items] in H.
  - inversion H; subst. split; [reflexivity |].
    unfold claimed_total, qsum. cbn [map fold_right]. lra.
  - inversion Hall as [| ? ? Hit Hrest]; subst.
    destruct (split_item choices (t, sh) it) as [[t1 s1] |] eqn:E1; [| discriminate].
    destruct (split_item_vsum _ _ _ _ _ _ Hit E1) as [-> V1].
    destruct (IH _ _ _ _ Hrest H) as [-> V2].
    split; [reflexivity |].
    pose proof (claimed_total_cons choices it items) as C. lra.
Qed.

(** ** The equal split *)

Lemma set_keys_NoDup {V} (k : Z) (v : V) (d : list (Z * V)) :
  NoDup (Dict.keys d) -> NoDup (Dict.keys (Dict.set k v d)).
Proof.
  unfold Dict.keys. induction d as [| [k' v'] d IH]; cbn [Dict.set map fst];
    intros H.
  - repeat constructor. intros [].
  - inversion H as [| ? ? Hk Hd]; subst.
    destruct (Z.eqb_spec k k') as [-> | Hne]; cbn [map fst].
    + now constructor.
    + constructor; [| now apply IH].
      intros Hin. apply Hk. apply (keys_set k k' v d) in Hin.
      destruct Hin as [E | Hin]; [congruence | exact Hin].
Qed.

Lemma dict_of_NoDup {V} (rows : list (Z * V)) : NoDup (Dict.keys (dict_of rows)).
Proof.
  unfold dict_of.
  assert (H : forall d, NoDup (Dict.keys d) ->
                        NoDup (Dict.keys (fold_left
                                 (fun d r => Dict.set (fst r) (snd r) d) rows d))).
  { induction rows as [| r rows IH]; intros d Hd; cbn [fold_left]; [exact Hd |].
    apply IH. now apply set_keys_NoDup. }
  apply H. constructor.
Qed.

Lemma paid_by_cons (k : Z) (ks : list Z) (d : list (Z * Q)) :
  paid_by (k :: ks) d = (get0 k d + paid_by ks d)%Q.
Proof. reflexivity. Qed.

Lemma paid_by_set_other (ks : list Z) (u : Z) (v : Q) (d : list (Z * Q)) :
  ~ In u ks -> (paid_by ks (Dict.set u v d) == paid_by ks d)%Q.
Proof.
  induction ks as [| k ks IH]; intros H; [reflexivity |].
  rewrite !paid_by_cons.
  rewrite get0_set_other by (intros ->; apply H; now left).
  rewrite IH by (intros Hin; apply H; now right). reflexivity.
Qed.

Lemma paid_by_set (ks : list Z) (u : Z) (v : Q) (d : list (Z * Q)) :
  NoDup ks -> In u ks ->
  (paid_by ks (Dict.set u v d) == paid_by ks d - get0 u d + v)%Q.
Proof.
  induction ks as [| k ks IH]; intros Hn Hin; [contradiction |].
  inversion Hn as [| ? ? Hk Hks]; subst.
  rewrite !paid_by_cons.
  destruct (Z.eq_dec k u) as [-> | Hne].
  - rewrite get0_set_same, (paid_by_set_other ks u v d Hk). lra.
  - rewrite get0_set_other by exact Hne.
    assert (Hu : In u ks) by (destruct Hin; [contradiction | assumption]).
    pose proof (IH Hks Hu) as E. lra.
Qed.

Lemma paid_by_nil (ks : list Z) : (paid_by ks [] == 0)%Q.
Proof.
  induction ks as [| k ks IH]; [reflexivity |].
  rewrite paid_by_cons, IH. unfold get0. cbn [Dict.get]. lra.
Qed.

Lemma qsum_cons (x : Q) (l : list Q) : qsum (x :: l) = (x + qsum l)%Q.
Proof. reflexivity. Qed.

Lemma paid_by_user_paid (ks : list Z) (rows : list (Z * Q)) :
  NoDup ks -> (forall r, In r rows -> In (fst r) ks) ->
  (paid_by ks (user_paid_of rows) == qsum (map snd rows))%Q.
Proof.
  intros Hn. unfold user_paid_of.
  assert (H : forall d,
             (forall r, In r rows -> In (fst r) ks) ->
             (paid_by ks (fold_left
                            (fun d r => Dict.set (fst r) (get0 (fst r) d + snd r)%Q d)
                            rows d)
              == paid_by ks d + qsum (map snd rows))%Q).
  { induction rows as [| r rows IH]; intros d Hin; cbn [fold_left map].
    - change (qsum []) with 0%Q. lra.
    - rewrite qsum_cons.
      pose proof (IH (Dict.set (fst r) (get0 (fst r) d + snd r)%Q d)
                     (fun r' Hr' => Hin r' (or_intror Hr'))) as E1.
      pose proof (paid_by_set ks (fst r) (get0 (fst r) d + snd r)%Q d Hn
                              (Hin r (or_introl eq_refl))) as E2.
      lra. }
  intros Hin. pose proof (H [] Hin) as E. pose proof (paid_by_nil ks) as E0. lra.
Qed.

Lemma balances_sum (participants : list (Z * string)) (rows : list (Z * Q)) :
  participants <> [] ->
  (vsum (equal_split_balances participants rows)
   == paid_by (Dict.keys participants) (user_paid_of rows)
      - sum_list (map snd rows))%Q.
Proof.
  intros Hne. unfold equal_split_balances, vsum, paid_by, Dict.keys.
  rewrite !map_map. cbn [snd fst].
  set (up := user_paid_of rows). set (total := sum_list (map snd rows)).
  assert (H : forall (l : list (Z * string)) (pp : Q),
             (qsum (map (fun p => get0 (fst p) up - pp) l)
              == qsum (map (fun p => get0 (fst p) up) l)
                 - inject_Z (Z.of_nat (length l)) * pp)%Q).
  { induction l as [| p l IH]; intros pp; cbn [map length].
    - change (inject_Z (Z.of_nat 0)) with 0%Q. change (qsum []) with 0%Q. lra.
    - rewrite !qsum_cons. pose proof (IH pp) as E.
      pose proof (count_succ (length l)) as C. rewrite C. lra. }
  rewrite H. destruct participants as [| p ps]; [contradiction |].
  pose proof (count_succ_neq_0 (length ps)) as Hk. cbn [length].
  field_simplify_eq; [ring | exact Hk].
Qed.

Lemma signed_totals (b : list (Z * Q)) :
  (positive_total b - negative_total b == vsum b)%Q.
Proof.
  unfold vsum. induction b as [| [u a] b IH];
    cbn [positive_total negative_total map snd].
  - change (qsum []) with 0%Q. lra.
  - rewrite qsum_cons.
    destruct (Qltb 0 a) eqn:E1; destruct (Qltb a 0) eqn:E2;
      SettlementFacts.qltb_to_prop; lra.
Qed.

(** ** The claimants of an item around a toggle *)

Lemma choosers_of_app (j : Z) (tbl : list choice) (c : choice) :
  choosers_of j (tbl ++ [c])
  = choosers_of j tbl ++ (if Z.eqb (c_item_id c) j then [c_user_id c] else []).
Proof.
  unfold choosers_of. rewrite filter_app, map_app. cbn [filter].
  now destruct (c_item_id c =? j).
Qed.

Lemma choosers_of_remove_other (j i u : Z) (tbl : list choice) :
  j <> i ->
  choosers_of j (filter (fun c => negb (is_choice i u c)) tbl) = choosers_of j tbl.
Proof.
  intros Hne. unfold choosers_of. f_equal.
  induction tbl as [| c tbl IH]; cbn [filter]; [reflexivity |].
  unfold is_choice at 1.
  destruct (Z.eqb_spec (c_item_id c) i) as [Ei | Ei]; cbn [andb negb].
  - destruct (Z.eqb_spec (c_item_id c) j) as [Ej | Ej]; [congruence |].
    destruct (c_user_id c =? u); cbn [negb filter]; [exact IH |].
    destruct (Z.eqb_spec (c_item_id c) j); [contradiction | exact IH].
  - cbn [filter]. rewrite IH. reflexivity.
Qed.

Lemma choosers_of_remove (i u : Z) (tbl : list choice) :
  choosers_of i (filter (fun c => negb (is_choice i u c)) tbl)
  = filter (fun v => negb (Z.eqb v u)) (choosers_of i tbl).
Proof.
  unfold choosers_of.
  induction tbl as [| c tbl IH]; cbn [filter map]; [reflexivity |].
  unfold is_choice at 1.
  destruct (Z.eqb_spec (c_item_id c) i) as [Ei | Ei]; cbn [andb negb map filter].
  - destruct (c_user_id c =? u) eqn:Eu; cbn [negb filter map].
    + exact IH.
    + destruct (Z.eqb_spec (c_item_id c) i); [| contradiction].
      cbn [map]. now rewrite IH.
  - destruct (Z.eqb_spec (c_item_id c) i); [contradiction | exact IH].
Qed.

Lemma picked_iff_claimed (i u : Z) (tbl : list choice) :
  existsb (Z.eqb u) (choosers_of i tbl) = existsb (is_choice i u) tbl.
Proof.
  unfold choosers_of. induction tbl as [| c tbl IH]; cbn [filter map existsb];
    [reflexivity |].
  unfold is_choice at 1.
  destruct (c_item_id c =? i); cbn [andb map existsb orb].
  - now rewrite IH, (Z.eqb_sym u).
  - exact IH.
Qed.

Lemma existsb_removed (u : Z) (l : list Z) :
  existsb (Z.eqb u) (filter (fun v => negb (Z.eqb v u)) l) = false.
Proof.
  induction l as [| v l IH]; cbn [filter existsb]; [reflexivity |].
  destruct (v =? u) eqn:E; cbn [negb existsb]; [exact IH |].
  now rewrite (Z.eqb_sym u), E, IH.
Qed.

Lemma filter_absent (u : Z) (l : list Z) :
  ~ In u l -> filter (fun v => negb (Z.eqb v u)) l = l.
Proof.
  induction l as [| v l IH]; intros H; cbn [filter]; [reflexivity |].
  destruct (Z.eqb_spec v u) as [-> | _]; cbn [negb].
  - exfalso. apply H. now left.
  - rewrite IH; [reflexivity |]. intros Hin. apply H. now right.
Qed.

Lemma length_removed (u : Z) (l : list Z) :
  NoDup l -> In u l ->
  length (filter (fun v => negb (Z.eqb v u)) l) = pred (length l).
Proof.
  induction l as [| v l IH]; intros Hn Hin; [contradiction |].
  inversion Hn as [| ? ? Hv Hl]; subst. cbn [filter length pred].
  destruct (Z.eqb_spec v u) as [-> | Hne]; cbn [negb length].
  - now rewrite filter_absent.
  - destruct Hin as [E | Hin]; [contradiction |].
    rewrite (IH Hl Hin). destruct l; [contradiction | reflexivity].
Qed.

(** ** The share of one user *)

Lemma get0_zeros {V} (u : Z) (l : list (Z * V)) :
  get0 u (map (fun p => (fst p, 0%Q)) l) = 0%Q.
Proof.
  unfold get0. induction l as [| [k v] l IH]; cbn [map Dict.get fst];
    [reflexivity |].
  destruct (u =? k); [reflexivity | exact IH].
Qed.

Lemma share_of_cons (choices : list choice) (it : item) (items : list item)
      (u : Z) :
  share_of choices (it :: items) u
  = ((let choosers := choosers_of (i_id it) choices in
      if existsb (Z.eqb u) choosers
      then i_price it * inject_Z (i_quantity it)
           / inject_Z (Z.of_nat (length choosers))
      else 0) + share_of choices items u)%Q.
Proof. reflexivity. Qed.

Lemma split_items_share (choices : list choice) (items : list item) :
  claims_unique choices ->
  Forall (fun it => i_is_shared it = false) items ->
  forall t sh t' sh',
    split_items choices (t, sh) items = Some (t', sh') ->
    forall u, (get0 u t' == get0 u t + share_of choices items u)%Q.
Proof.
  intros Cu. induction items as [| it items IH]; intros Hall t sh t' sh' H u;
    cbn [split_items] in H.
  - inversion H; subst. change (share_of choices [] u) with 0%Q. lra.
  - inversion Hall as [| ? ? Hit Hrest]; subst.
    destruct (split_item choices (t, sh) it) as [[t1 sh1] |] eqn:E1;
      [| discriminate].
    pose proof (IH Hrest _ _ _ _ H u) as E2.
    rewrite share_of_cons. cbv zeta.
    unfold split_item in E1. rewrite Hit in E1.
    pose proof (LedgerFacts.claims_unique_choosers (i_id it) choices Cu) as Hn.
    destruct (choosers_of (i_id it) choices) as [| u0 us] eqn:Ec.
    + inversion E1; subst. cbn [existsb]. lra.
    + destruct (add_to_each (u0 :: us) _ t) as [t2 |] eqn:Ea; [| discriminate].
      inversion E1; subst.
      rewrite (LedgerFacts.add_to_each_credit _ _ _ _ Hn Ea u) in E2.
      destruct (existsb (Z.eqb u) (u0 :: us)); lra.
Qed.

(** ** Whole shares *)

Lemma whole_integer (x : Q) : whole x = true -> exists z : Z, (x == inject_Z z)%Q.
Proof.
  unfold whole. destruct x as [qn qd]. cbn [Qnum Qden]. rewrite Z.eqb_eq.
  intros Hm. exists (qn / Zpos qd). unfold Qeq. cbn [Qnum Qden inject_Z].
  rewrite Z.mul_1_r, (Z.mul_comm (_ / _)). apply Z.div_exact; [discriminate | exact Hm].
Qed.

Lemma share_of_whole (choices : list choice) (items : list item) (u : Z) :
  forallb (fun it =>
             whole (i_price it)
             && match choosers_of (i_id it) choices with
                | [] => true
                | us => whole (cost it / inject_Z (Z.of_nat (length us)))
                end) items = true ->
  exists z : Z, (share_of choices items u == inject_Z z)%Q.
Proof.
  induction items as [| it items IH]; cbn [forallb].
  - intros _. exists 0. reflexivity.
  - rewrite !andb_true_iff. intros [[_ Hit] Hrest].
    destruct (IH Hrest) as [z Hz]. rewrite share_of_cons. cbv zeta.
    destruct (choosers_of (i_id it) choices) as [| u0 us] eqn:Ec.
    + cbn [existsb]. exists z. rewrite Hz. ring.
    + destruct (existsb (Z.eqb u) (u0 :: us)).
      * apply whole_integer in Hit as [c Hc]. unfold cost in Hc.
        exists (c + z). rewrite inject_Z_plus, <- Hc, <- Hz. reflexivity.
      * exists z. rewrite Hz. ring.
Qed.

Section Soundness.
Variable py_float : string -> option Q.
Variable py_int : string -> option Z.

Local Abbreviation step := (Ledger.step py_float py_int).
Local Abbreviation run := (Ledger.run py_float py_int).
Local Abbreviation reachable := (Ledger.reachable py_float py_int).
Local Abbreviation handle_expense := (Ledger.handle_expense py_float).
Local Abbreviation handle_receipt_photo := (Ledger.handle_receipt_photo py_float py_int).
Local Abbreviation insert_items := (Ledger.insert_items py_float py_int).
Local Abbreviation parse_item := (Ledger.parse_item py_float py_int).

Lemma parse_item_row (v : json) (name : string) (price : Q) (qty : Z) :
  parse_item v = Row name price qty -> name <> EmptyString /\ (0 < price)%Q.
Proof.
  unfold Ledger.parse_item. destruct v as [| | | | | o]; try discriminate.
  destruct (get_or "name" (JStr "") o) as [| | | raw | |]; try discriminate.
  destruct (String.eqb (Text.strip raw) "") eqn:En; [discriminate |].
  destruct (Qle_bool _ 0) eqn:Ep; [discriminate |].
  cbn [orb]. destruct (_ && _)%bool; [| discriminate].
  intros E. inversion E; subst. split.
  - intros Hn. rewrite Hn in En. discriminate.
  - now apply SettlementFacts.Qle_bool_false.
Qed.

Lemma insert_items_valid (sid : Z) (items : list json) :
  forall tbl seq tbl' seq',
    insert_items sid items tbl seq = Some (tbl', seq') ->
    exists added,
      tbl' = tbl ++ added
      /\ Forall (fun it => i_session_id it = sid /\ item_valid it) added.
Proof.
  induction items as [| v items IH]; intros tbl seq tbl' seq' H;
    cbn [Ledger.insert_items] in H.
  - inversion H; subst. exists []. now rewrite app_nil_r.
  - destruct (parse_item v) as [| | name price qty] eqn:Ev; [discriminate | eauto |].
    apply IH in H as (added & -> & Hall).
    exists (mkItem (seq + 1) sid name price qty false :: added).
    rewrite <- app_assoc. split; [reflexivity |].
    constructor; [| exact Hall].
    destruct (parse_item_row _ _ _ _ Ev). now repeat split.
Qed.

Lemma step_sound (d : db) (u : update) : db_sound d -> db_sound (fst (step d u)).
Proof.
  intros Hs. destruct u as [chat user username now | bill_id user username
                            | chat user username text now | chat user username now
                            | chat user result | item_id user username
                            | chat user now | chat user now]; cbn [Ledger.step].
  - unfold newbill. destruct (find_open chat (bills d)); [exact Hs |].
    cbn [fst]. apply sound_with_bills; [exact Hs | intros id; apply has_id_app].
  - unfold join_bill_callback.
    destruct (find_session bill_id (bills d)) as [b |] eqn:Eb; [| exact Hs].
    destruct (is_open (s_status b)); [| exact Hs].
    destruct (existsb _ (bill_participants d)) eqn:Ex; [exact Hs |].
    cbn [fst]. destruct Hs as [S1 S2 S3 S4 S5 S6]. constructor; cbn; auto.
    + now apply participants_unique_add.
    + apply Forall_app. split; [exact S2 |]. constructor; [| constructor].
      cbn. now apply has_id_found with (s := b).
    + eapply Forall_impl; [| exact S3]. intros e. apply existsb_app_l.
  - unfold Ledger.handle_expense.
    destruct (find_open chat (bills d)) as [b |]; [| exact Hs].
    destruct (existsb _ (bill_participants d)) eqn:Ex; [| exact Hs].
    destruct (Text.rsplit1 _) as [| description [| amount_str [| ? ?]]];
      try exact Hs.
    destruct (py_float _); [| exact Hs].
    cbn [fst]. destruct Hs as [S1 S2 S3 S4 S5 S6]. constructor; cbn; auto.
    apply Forall_app. split; [exact S3 |]. now repeat constructor.
  - unfold resto. destruct (find_open chat (resto_sessions d)); [exact Hs |].
    cbn [fst]. apply sound_with_sessions; [exact Hs | intros id; apply has_id_app].
  - unfold Ledger.handle_receipt_photo.
    destruct (find_open chat (resto_sessions d)) as [s |] eqn:Es; [| exact Hs].
    destruct (negb (user =? s_creator_id s)); [exact Hs |].
    destruct (negb _); [exact Hs |].
    assert (Hins : forall items tbl seq,
               insert_items (s_id s) items (resto_items d) (seq_items d)
               = Some (tbl, seq) ->
               db_sound (with_items d tbl seq)).
    { intros items tbl seq Ei.
      apply insert_items_valid in Ei as (added & -> & Hall).
      apply find_open_some in Es as (Hin & _ & _).
      destruct Hs as [S1 S2 S3 S4 S5 S6]. constructor; cbn; auto.
      + apply Forall_app. split; [exact S4 |].
        eapply Forall_impl; [| exact Hall]. cbn. intros it [-> _].
        now apply has_id_in.
      + apply Forall_app. split; [exact S5 |].
        eapply Forall_impl; [| exact Hall]. now intros it [_ ?].
      + eapply Forall_impl; [| exact S6]. intros c. apply has_item_app. }
    destruct result as [| | [| v items] | [| v items]]; try exact Hs;
      (destruct (insert_items _ _ _ _) as [[tbl seq] |] eqn:Ei; [| exact Hs];
       cbn [fst]; exact (Hins _ _ _ Ei)).
  - unfold handle_item_choice.
    destruct (find_item item_id (resto_items d)) as [it |] eqn:Ei; [| exact Hs].
    destruct (find_session _ _) as [s |]; [| exact Hs].
    destruct (is_open (s_status s)); [| exact Hs].
    cbn [fst]. destruct Hs as [S1 S2 S3 S4 S5 S6]. constructor; cbn; auto.
    destruct (existsb _ (resto_choices d)).
    + rewrite Forall_forall in *. intros c Hc. apply filter_In in Hc as [Hc _].
      now apply S6.
    + apply Forall_app. split; [exact S6 |]. constructor; [| constructor].
      cbn. apply find_item_some in Ei as [Hin E]. unfold has_item.
      apply existsb_exists. exists it. split; [exact Hin | now apply Z.eqb_eq].
  - unfold close_resto_button.
    destruct (find_open_last chat (resto_sessions d)) as [s |]; [| exact Hs].
    destruct (user =? s_creator_id s); [| exact Hs].
    unfold close_resto. destruct (find_session _ _); [| exact Hs].
    destruct (resto_participants _ _); [exact Hs |].
    destruct (split_items _ _ _) as [[t sh] |]; [| exact Hs].
    destruct (if Qltb 0 sh then _ else _); [| exact Hs].
    cbn [fst]. apply sound_with_sessions; [exact Hs |].
    intros id. now rewrite has_id_close.
  - unfold closebill. destruct (find_open chat (bills d)) as [b |].
    + destruct (user =? s_creator_id b); [| exact Hs].
      unfold close_newbill. destruct (dict_of _); [exact Hs |].
      destruct (map _ (expenses_of _ _)); [exact Hs |].
      cbn [fst]. apply sound_with_bills; [exact Hs |].
      intros id. now rewrite has_id_close.
    + destruct (find_open chat (resto_sessions d)) as [s |]; [| exact Hs].
      destruct (user =? s_creator_id s); [| exact Hs].
      unfold close_resto. destruct (find_session _ _); [| exact Hs].
      destruct (resto_participants _ _); [exact Hs |].
      destruct (split_items _ _ _) as [[t sh] |]; [| exact Hs].
      destruct (if Qltb 0 sh then _ else _); [| exact Hs].
      cbn [fst]. apply sound_with_sessions; [exact Hs |].
      intros id. now rewrite has_id_close.
Qed.

Lemma reachable_sound (d : db) : reachable d -> db_sound d.
Proof.
  intros [us ->]. induction us as [| u us IH] using rev_ind.
  - apply empty_db_sound.
  - rewrite (run_snoc py_float py_int). now apply step_sound.
Qed.

(** ** What a failure leaves behind *)

Ltac split_matches :=
  repeat match goal with
         | |- context [match ?x with _ => _ end] => destruct x eqn:?
         end.

Lemma unsent_receipt (d : db) (chat user : Z) (items : list json) :
  fst (handle_receipt_photo d chat user (ItemsUnsent items))
  = fst (handle_receipt_photo d chat user (Items items))
  /\ (fst (handle_receipt_photo d chat user (ItemsUnsent items)) = d
      \/ snd (handle_receipt_photo d chat user (ItemsUnsent items))
         = ProcessingError).
Proof.
  unfold Ledger.handle_receipt_photo.
  destruct (find_open chat (resto_sessions d)) as [s |]; [| now auto].
  destruct (negb (user =? s_creator_id s)); [now auto |].
  destruct (negb _); [now auto |].
  destruct items as [| v items]; [now auto |].
  destruct (insert_items _ _ _ _) as [[tbl seq] |]; cbn [fst snd]; auto.
Qed.

(** X16: whenever a handler answers anything but a success (a created,
    joined, added, processed, toggled or settled answer), the ledger is
    exactly what it was, every refusal, silent return or caught exception
    being free of side effects, with one exception: a receipt whose rows
    were committed and whose answer could then not be sent is answered with
    the processing error, and the ledger is the one of the processed
    receipt. *)
Theorem failures_change_nothing (d : db) (u : update) :
  is_success (snd (step d u)) = false ->
  fst (step d u) = d
  \/ exists chat user items,
      u = MsgPhoto chat user (ItemsUnsent items)
      /\ snd (step d u) = ProcessingError
      /\ fst (step d u) = fst (step d (MsgPhoto chat user (Items items))).
Proof.
  destruct u as [chat user username now | bill_id user username
                 | chat user username text now | chat user username now
                 | chat user result | item_id user username
                 | chat user now | chat user now]; cbn [Ledger.step];
    try (intros H; left; revert H;
         unfold newbill, join_bill_callback, Ledger.handle_expense, resto,
           handle_item_choice, close_resto_button,
           closebill, close_newbill, close_resto;
         split_matches; cbn [fst snd is_success]; intros H;
         solve [reflexivity | discriminate]).
  destruct result as [| | items | items].
  1-3: intros H; left; revert H; unfold Ledger.handle_receipt_photo;
    split_matches; cbn [fst snd is_success]; intros H;
    solve [reflexivity | discriminate].
  intros _. destruct (unsent_receipt d chat user items) as [E [H | H]].
  - now left.
  - right. exists chat, user, items. now repeat split.
Qed.

(** ** Append-only tables *)

Lemma extends_refl {A} (l : list A) : extends l l.
Proof. exists []. now rewrite app_nil_r. Qed.

Lemma extends_trans {A} (l1 l2 l3 : list A) :
  extends l1 l2 -> extends l2 l3 -> extends l1 l3.
Proof. intros [m ->] [m' ->]. exists (m ++ m'). now rewrite app_assoc. Qed.

Lemma extends_app {A} (l more : list A) : extends l (l ++ more).
Proof. now exists more. Qed.

Lemma close_rows_identity (id now : Z) (tbl : list session) :
  map identity (close_rows id now tbl) = map identity tbl.
Proof.
  unfold close_rows. rewrite map_map. apply map_ext. intros s.
  unfold close_row. now destruct (s_id s =? id).
Qed.

Lemma changes_grows (d d' : db) : changes d d' -> grows d d'.
Proof.
  intros Hc. unfold grows.
  destruct Hc; cbn [bills bill_participants expenses resto_sessions resto_items
                    with_bills with_participants with_expenses with_sessions
                    with_items with_choices];
    rewrite ?map_app, ?close_rows_identity;
    repeat split; try apply extends_refl; apply extends_app.
Qed.

(** X17: whatever updates arrive, the tables of bills, participants,
    expenses, restaurant sessions and line items only grow at the end: no
    participant is ever removed, no expense or line item is ever changed or
    deleted, and the id, chat, creator and creation time of a bill or of a
    session never change. *)
Theorem tables_only_grow (d : db) (us : list update) :
  extends (map identity (bills d)) (map identity (bills (run d us)))
  /\ extends (bill_participants d) (bill_participants (run d us))
  /\ extends (expenses d) (expenses (run d us))
  /\ extends (map identity (resto_sessions d))
             (map identity (resto_sessions (run d us)))
  /\ extends (resto_items d) (resto_items (run d us)).
Proof.
  change (grows d (run d us)). revert d.
  induction us as [| u us IH]; intros d.
  - unfold grows. repeat split; apply extends_refl.
  - change (run d (u :: us)) with (run (fst (step d u)) us).
    pose proof (changes_grows _ _ (step_changes py_float py_int d u))
      as (G1 & G2 & G3 & G4 & G5).
    destruct (IH (fst (step d u))) as (H1 & H2 & H3 & H4 & H5).
    unfold grows. repeat split; eapply extends_trans; eauto.
Qed.

(** ** Integrity *)

(** X5: in every reachable ledger a user is a participant of a bill at most
    once, every participant row points to a bill that exists, and every
    expense was recorded by a user who had joined its bill, which exists as
    well. *)
Theorem pooled_rows_are_consistent (d : db) :
  reachable d ->
  (forall bill user,
      (length (filter (is_participant bill user) (bill_participants d)) <= 1)%nat)
  /\ (forall p, In p (bill_participants d) ->
        exists b, In b (bills d) /\ s_id b = p_bill_id p)
  /\ (forall e, In e (expenses d) ->
        exists b p,
          In b (bills d) /\ s_id b = e_bill_id e
          /\ In p (bill_participants d)
          /\ p_bill_id p = e_bill_id e /\ p_user_id p = e_user_id e).
Proof.
  intros Hr. destruct (reachable_sound d Hr) as [S1 S2 S3 _ _ _].
  rewrite Forall_forall in S2, S3.
  assert (Hbill : forall p, In p (bill_participants d) ->
                            exists b, In b (bills d) /\ s_id b = p_bill_id p).
  { intros p Hp. specialize (S2 p Hp). unfold has_id in S2.
    apply existsb_exists in S2 as (b & Hb & E). apply Z.eqb_eq in E. eauto. }
  split; [exact S1 | split; [exact Hbill |]].
  intros e He. specialize (S3 e He).
  apply existsb_exists in S3 as (p & Hp & E). unfold is_participant in E.
  apply andb_true_iff in E as [E1 E2]. apply Z.eqb_eq in E1, E2.
  destruct (Hbill p Hp) as (b & Hb & Eb).
  exists b, p. repeat split; auto; congruence.
Qed.

(** X6: in every reachable ledger every line item has a name that is not
    empty, a price above zero and the shared flag off, and belongs to a
    restaurant session that exists; every claim is on a line item that
    exists. *)
Theorem receipt_rows_are_consistent (d : db) :
  reachable d ->
  (forall it, In it (resto_items d) ->
     i_name it <> EmptyString /\ (0 < i_price it)%Q /\ i_is_shared it = false
     /\ exists s, In s (resto_sessions d) /\ s_id s = i_session_id it)
  /\ (forall c, In c (resto_choices d) ->
        exists it, In it (resto_items d) /\ i_id it = c_item_id c).
Proof.
  intros Hr. destruct (reachable_sound d Hr) as [_ _ _ S4 S5 S6].
  rewrite Forall_forall in S4, S5, S6. split.
  - intros it Hit. destruct (S5 it Hit) as (Hn & Hp & Hsh).
    specialize (S4 it Hit). unfold has_id in S4.
    apply existsb_exists in S4 as (s & Hs & E). apply Z.eqb_eq in E.
    repeat split; eauto.
  - intros c Hc. specialize (S6 c Hc). unfold has_item in S6.
    apply existsb_exists in S6 as (it & Hit & E). apply Z.eqb_eq in E. eauto.
Qed.

(** ** Who may add items, and how often *)

Lemma step_items (d : db) (u : update) :
  resto_items (fst (step d u)) = resto_items d
  \/ exists chat s result added,
      u = MsgPhoto chat (s_creator_id s) result
      /\ find_open chat (resto_sessions d) = Some s
      /\ items_of (s_id s) (resto_items d) = []
      /\ resto_items (fst (step d u)) = resto_items d ++ added
      /\ Forall (fun it => i_session_id it = s_id s) added.
Proof.
  destruct u as [chat user username now | bill_id user username
                 | chat user username text now | chat user username now
                 | chat user result | item_id user username
                 | chat user now | chat user now]; cbn [Ledger.step];
    try (left;
         unfold newbill, join_bill_callback, Ledger.handle_expense, resto,
           handle_item_choice, close_resto_button,
           closebill, close_newbill, close_resto;
         split_matches; reflexivity).
  unfold Ledger.handle_receipt_photo.
  destruct (find_open chat (resto_sessions d)) as [s |] eqn:Es; [| now left].
  destruct (Z.eqb_spec user (s_creator_id s)) as [-> | _]; cbn [negb];
    [| now left].
  destruct (items_of (s_id s) (resto_items d)) as [| i0 l0] eqn:Ei;
    cbn [length Nat.eqb negb]; [| now left].
  destruct result as [| | [| v items] | [| v items]]; try now left.
  - destruct (insert_items _ _ _ _) as [[tbl seq] |] eqn:Hi; [| now left].
    apply insert_items_valid in Hi as (added & -> & Hall).
    right. exists chat, s, (Items (v :: items)), added.
    repeat split; auto.
    eapply Forall_impl; [| exact Hall]. now intros it [? _].
  - destruct (insert_items _ _ _ _) as [[tbl seq] |] eqn:Hi; [| now left].
    apply insert_items_valid in Hi as (added & -> & Hall).
    right. exists chat, s, (ItemsUnsent (v :: items)), added.
    repeat split; auto.
    eapply Forall_impl; [| exact Hall]. now intros it [? _].
Qed.

(** X11: the line items change only through a photo sent by the creator of
    the open restaurant session of the chat, and only while that session has
    no line item; the items added all belong to that session. *)
Theorem only_the_creator_adds_items (d : db) (u : update) :
  resto_items (fst (step d u)) <> resto_items d ->
  exists chat s result added,
    u = MsgPhoto chat (s_creator_id s) result
    /\ find_open chat (resto_sessions d) = Some s
    /\ items_of (s_id s) (resto_items d) = []
    /\ resto_items (fst (step d u)) = resto_items d ++ added
    /\ Forall (fun it => i_session_id it = s_id s) added.
Proof.
  intros Hne. destruct (step_items d u) as [E | H]; [contradiction | exact H].
Qed.

(** X7: a restaurant session receives its line items once: as soon as it
    has one, no sequence of updates adds, removes or changes a line item of
    the session. *)
Theorem items_are_ingested_once (d : db) (session_id : Z) (us : list update) :
  items_of session_id (resto_items d) <> [] ->
  items_of session_id (resto_items (run d us))
  = items_of session_id (resto_items d).
Proof.
  revert d. induction us as [| u us IH]; intros d Hne; [reflexivity |].
  change (run d (u :: us)) with (run (fst (step d u)) us).
  assert (E : items_of session_id (resto_items (fst (step d u)))
              = items_of session_id (resto_items d)).
  { destruct (step_items d u) as [-> | (chat & s & result & added & _ & _ & Hnone & -> & Hall)];
      [reflexivity |].
    unfold items_of. apply filter_app_none. intros it Hit.
    rewrite Forall_forall in Hall. rewrite (Hall it Hit).
    apply Z.eqb_neq. intros Heq. rewrite Heq in Hnone. contradiction. }
  rewrite IH; [exact E | now rewrite E].
Qed.

(** ** Who may close *)

Lemma step_bills (d : db) (u : update) :
  bills (fst (step d u)) = bills d
  \/ (exists row, bills (fst (step d u)) = bills d ++ [row] /\ s_status row = Open)
  \/ exists b chat now,
      u = CmdClosebill chat (s_creator_id b) now
      /\ find_open chat (bills d) = Some b
      /\ bills (fst (step d u)) = close_rows (s_id b) now (bills d)
      /\ participants_of (s_id b) (bill_participants d) <> []
      /\ expenses_of (s_id b) (expenses d) <> [].
Proof.
  destruct u as [chat user username now | bill_id user username
                 | chat user username text now | chat user username now
                 | chat user result | item_id user username
                 | chat user now | chat user now]; cbn [Ledger.step];
    try (left;
         unfold join_bill_callback, Ledger.handle_expense, resto,
           Ledger.handle_receipt_photo, handle_item_choice, close_resto_button,
           close_resto;
         split_matches; reflexivity).
  - unfold newbill. destruct (find_open chat (bills d)); [now left |].
    right; left. eexists. split; reflexivity.
  - unfold closebill. destruct (find_open chat (bills d)) as [b |] eqn:Eb.
    + destruct (Z.eqb_spec user (s_creator_id b)) as [-> | _]; [| now left].
      unfold close_newbill.
      destruct (dict_of _) as [| p0 ps] eqn:Ed; [now left |].
      destruct (map _ (expenses_of (s_id b) (expenses d))) as [| r0 rs] eqn:Er;
        [now left |].
      right; right. exists b, chat, now. repeat split; auto.
      * intros Hn. rewrite Hn in Ed. discriminate.
      * intros Hn. rewrite Hn in Er. discriminate.
    + left. destruct (find_open chat (resto_sessions d)) as [s |]; [| reflexivity].
      destruct (user =? s_creator_id s); [| reflexivity].
      unfold close_resto. split_matches; reflexivity.
Qed.

Lemma step_sessions (d : db) (u : update) :
  resto_sessions (fst (step d u)) = resto_sessions d
  \/ (exists row, resto_sessions (fst (step d u)) = resto_sessions d ++ [row]
                  /\ s_status row = Open)
  \/ exists s chat now,
      (u = CmdClosebill chat (s_creator_id s) now
       \/ u = CbCloseResto chat (s_creator_id s) now)
      /\ In s (resto_sessions d) /\ s_chat_id s = chat /\ s_status s = Open
      /\ resto_sessions (fst (step d u))
         = close_rows (s_id s) now (resto_sessions d).
Proof.
  assert (Hclose : forall s chat now u',
             (u' = CmdClosebill chat (s_creator_id s) now
              \/ u' = CbCloseResto chat (s_creator_id s) now) ->
             In s (resto_sessions d) -> s_chat_id s = chat -> s_status s = Open ->
             resto_sessions (fst (close_resto d (s_id s) now)) = resto_sessions d
             \/ (exists row,
                    resto_sessions (fst (close_resto d (s_id s) now))
                    = resto_sessions d ++ [row] /\ s_status row = Open)
             \/ exists s0 chat0 now0,
                 (u' = CmdClosebill chat0 (s_creator_id s0) now0
                  \/ u' = CbCloseResto chat0 (s_creator_id s0) now0)
                 /\ In s0 (resto_sessions d) /\ s_chat_id s0 = chat0
                 /\ s_status s0 = Open
                 /\ resto_sessions (fst (close_resto d (s_id s) now))
                    = close_rows (s_id s0) now0 (resto_sessions d)).
  { intros s chat now u' Hu Hin Hc Hst. unfold close_resto.
    destruct (find_session _ _); [| now left].
    destruct (resto_participants _ _); [now left |].
    destruct (split_items _ _ _) as [[t sh] |]; [| now left].
    destruct (if Qltb 0 sh then _ else _); [| now left].
    right; right. exists s, chat, now. auto. }
  destruct u as [chat user username now | bill_id user username
                 | chat user username text now | chat user username now
                 | chat user result | item_id user username
                 | chat user now | chat user now]; cbn [Ledger.step];
    try (left;
         unfold newbill, join_bill_callback, Ledger.handle_expense,
           Ledger.handle_receipt_photo, handle_item_choice;
         split_matches; reflexivity).
  - unfold resto. destruct (find_open chat (resto_sessions d)); [now left |].
    right; left. eexists. split; reflexivity.
  - unfold close_resto_button.
    destruct (find_open_last chat (resto_sessions d)) as [s |] eqn:Es; [| now left].
    apply find_open_last_some in Es as (Hin & Hc & Hst).
    destruct (Z.eqb_spec user (s_creator_id s)) as [-> | _]; [| now left].
    apply (Hclose s chat now); auto.
  - unfold closebill. destruct (find_open chat (bills d)) as [b |].
    + left. destruct (user =? s_creator_id b); [| reflexivity].
      unfold close_newbill. split_matches; reflexivity.
    + destruct (find_open chat (resto_sessions d)) as [s |] eqn:Es; [| now left].
      apply find_open_some in Es as (Hin & Hc & Hst).
      destruct (Z.eqb_spec user (s_creator_id s)) as [-> | _]; [| now left].
      apply (Hclose s chat now); auto.
Qed.

Lemma closed_by (tbl tbl' : list session) (seq : Z) (s s' : session) :
  keyed tbl seq ->
  In s tbl -> s_status s = Open ->
  In s' tbl' -> s_id s' = s_id s -> s_status s' = Closed ->
  (tbl' = tbl -> False)
  /\ (forall row, tbl' = tbl ++ [row] -> s_status row = Open -> False)
  /\ (forall b now, In b tbl -> tbl' = close_rows (s_id b) now tbl ->
                    b = s /\ s_closed_at s' = Some now).
Proof.
  intros [Hn _] Hin Hst Hin' Eid Hcl.
  assert (Hsame : In s' tbl -> False).
  { intros H. pose proof (NoDup_map_inj s_id tbl s' s Hn H Hin Eid). subst.
    congruence. }
  split; [intros ->; auto | split].
  - intros row -> Hrow. apply in_app_or in Hin' as [H | [<- | []]];
      [auto | congruence].
  - intros b now Hb ->. unfold close_rows in Hin'.
    apply in_map_iff in Hin' as (x & Ex & Hx). unfold close_row in Ex.
    destruct (Z.eqb_spec (s_id x) (s_id b)) as [E | _].
    + subst s'. cbn in Eid. split; [| reflexivity].
      eapply NoDup_map_inj; eauto. congruence.
    + subst x. contradiction.
Qed.

(** X10: an open bill or restaurant session of a reachable ledger is closed
    by an update only if that update is a close request from its creator in
    its chat: [/closebill] for a bill, which then has a participant and an
    expense, and [/closebill] or the close button for a restaurant session.
    The closing time stored is the time of that request. *)
Theorem only_the_creator_closes (d : db) (u : update) (s s' : session) :
  reachable d ->
  s_status s = Open -> s_id s' = s_id s -> s_status s' = Closed ->
  (In s (bills d) -> In s' (bills (fst (step d u))) ->
   exists now,
     u = CmdClosebill (s_chat_id s) (s_creator_id s) now
     /\ s_closed_at s' = Some now
     /\ participants_of (s_id s) (bill_participants d) <> []
     /\ expenses_of (s_id s) (expenses d) <> [])
  /\ (In s (resto_sessions d) -> In s' (resto_sessions (fst (step d u))) ->
      exists now,
        (u = CmdClosebill (s_chat_id s) (s_creator_id s) now
         \/ u = CbCloseResto (s_chat_id s) (s_creator_id s) now)
        /\ s_closed_at s' = Some now).
Proof.
  intros Hr Hst Eid Hcl. destruct (reachable_ok _ _ d Hr) as [_ _ Kb Ks _ _].
  split; intros Hin Hin'.
  - destruct (closed_by _ _ _ s s' Kb Hin Hst Hin' Eid Hcl) as (H1 & H2 & H3).
    destruct (step_bills d u) as [E | [(row & E & Hrow) | (b & chat & now & -> & Hb & E & Hp & He)]].
    + now apply H1 in E.
    + now apply (H2 row) in E.
    + apply find_open_some in Hb as (Hbin & Hc & _).
      destruct (H3 b now Hbin E) as [-> Hat]. exists now. subst chat. auto.
  - destruct (closed_by _ _ _ s s' Ks Hin Hst Hin' Eid Hcl) as (H1 & H2 & H3).
    destruct (step_sessions d u)
      as [E | [(row & E & Hrow) | (s0 & chat & now & Hu & Hsin & Hc & _ & E)]].
    + now apply H1 in E.
    + now apply (H2 row) in E.
    + destruct (H3 s0 now Hsin E) as [-> Hat]. exists now. subst chat. auto.
Qed.

(** ** Joining, paying, closing, opening again *)

(** X12: joining is what lets a user record expenses.  In the chat of an
    open bill, a message of a user who has not joined is ignored whatever it
    says; once the user has pressed the join button, a message in ASCII made
    of a description and an amount that [float] reads as a number is
    recorded as an expense of that amount; and pressing the button again is
    answered AlreadyJoined and changes nothing. *)
Theorem join_enables_expense (d : db) (chat user now : Z)
        (username text description token : string) (amount : Q) (b : session) :
  reachable d ->
  find_open chat (bills d) = Some b ->
  Text.is_ascii text = true ->
  Text.rsplit1 (Text.strip text) = [description; token] ->
  py_float (Text.remove_char ","%char (Text.remove_char " "%char token))
  = Some amount ->
  let joined := fst (join_bill_callback d (s_id b) user username) in
  (existsb (is_participant (s_id b) user) (bill_participants d) = false ->
   forall any, handle_expense d chat user username any now = (d, Silent))
  /\ snd (handle_expense joined chat user username text now)
     = ExpenseAdded description amount
  /\ expenses (fst (handle_expense joined chat user username text now))
     = expenses d ++ [mkExpense (s_id b) user username description amount now]
  /\ forall name', join_bill_callback joined (s_id b) user name'
                   = (joined, AlreadyJoined).
Proof.
  intros Hr Hb _ Hsplit Hamt. cbv zeta.
  destruct (reachable_ok _ _ d Hr) as [_ _ [Nb _] _ _ _].
  destruct (find_open_some _ _ _ Hb) as (Hin & _ & Hst).
  pose proof (find_session_in _ _ Nb Hin) as Hf.
  split.
  { intros Hno any. unfold Ledger.handle_expense. now rewrite Hb, Hno. }
  assert (Hj : exists parts,
             fst (join_bill_callback d (s_id b) user username)
             = with_participants d parts
             /\ existsb (is_participant (s_id b) user) parts = true).
  { unfold join_bill_callback. rewrite Hf, Hst. cbn [is_open].
    destruct (existsb _ (bill_participants d)) eqn:Ex; cbn [fst].
    - exists (bill_participants d). split; [now destruct d | exact Ex].
    - eexists. split; [reflexivity |]. rewrite existsb_app. cbn.
      unfold is_participant. cbn. now rewrite !Z.eqb_refl, orb_true_r. }
  destruct Hj as (parts & -> & Hp).
  split; [| split].
  - unfold Ledger.handle_expense. cbn [bills bill_participants with_participants].
    now rewrite Hb, Hp, Hsplit, Hamt.
  - unfold Ledger.handle_expense. cbn [bills bill_participants with_participants].
    now rewrite Hb, Hp, Hsplit, Hamt.
  - intros name'. unfold join_bill_callback.
    cbn [bills bill_participants with_participants].
    now rewrite Hf, Hst, Hp.
Qed.

(** X13: closing frees the chat.  Once the creator has closed the open bill
    of a chat (a bill with a participant and an expense, and with modest
    amounts, adding up to at most 2^1000, so that the settlement ends),
    [/newbill] in that chat, from anybody, opens a new bill; its id is above
    every id given so far, and it is the open bill of the chat. *)
Theorem closing_allows_a_new_bill (d : db) (chat now : Z) (b : session) :
  reachable d ->
  find_open chat (bills d) = Some b ->
  participants_of (s_id b) (bill_participants d) <> [] ->
  expenses_of (s_id b) (expenses d) <> [] ->
  modest_bill d (s_id b) = true ->
  let closed := fst (closebill d chat (s_creator_id b) now) in
  find_open chat (bills closed) = None
  /\ forall user username now',
      let r := newbill closed chat user username now' in
      let row := mkSession (seq_bills d + 1) chat user username now' None Open in
      snd r = BillCreated (seq_bills d + 1)
      /\ find_open chat (bills (fst r)) = Some row
      /\ forall old, In old (bills d) -> s_id old < s_id row.
Proof.
  intros Hr Hb Hp He _. cbv zeta.
  destruct (reachable_ok _ _ d Hr) as [Ob _ [_ Kb] _ _ _].
  assert (Ec : fst (closebill d chat (s_creator_id b) now)
               = with_bills d (close_rows (s_id b) now (bills d)) (seq_bills d)).
  { unfold closebill. rewrite Hb, Z.eqb_refl.
    destruct (close_newbill_settles d (s_id b) now Hp He) as (t & pp & pd & txs & E).
    now rewrite E. }
  rewrite Ec. cbn [bills with_bills].
  pose proof (close_found_none _ chat now b Ob Hb) as Hnone.
  split; [exact Hnone |].
  intros user username now'. unfold newbill.
  cbn [bills with_bills seq_bills]. rewrite Hnone. cbn [fst snd bills with_bills].
  split; [reflexivity | split].
  - unfold find_open. rewrite find_app_none by exact Hnone.
    cbn. unfold open_in. cbn. now rewrite Z.eqb_refl.
  - intros old Hold. rewrite Forall_forall in Kb. specialize (Kb old Hold).
    cbn. lia.
Qed.

(** ** A receipt is inserted whole or not at all *)

Lemma insert_items_raised (sid : Z) (v : json) (items : list json) :
  In v items -> parse_item v = Raised ->
  forall tbl seq, insert_items sid items tbl seq = None.
Proof.
  intros Hin Hv. induction items as [| x items IH]; [contradiction |].
  intros tbl seq. cbn [Ledger.insert_items].
  destruct Hin as [-> | Hin]; [now rewrite Hv |].
  destruct (parse_item x); [reflexivity | now apply IH | now apply IH].
Qed.

(** X15: a receipt is inserted whole or not at all.  When one of the
    extracted items is not an object, or has a name that is neither absent,
    empty nor text, the loop raises before the commit: the creator is told
    of a processing error and no line item is stored, not even the valid
    items that came before the bad one. *)
Theorem bad_item_aborts_the_receipt (d : db) (chat : Z) (s : session)
        (v : json) (items : list json) :
  find_open chat (resto_sessions d) = Some s ->
  items_of (s_id s) (resto_items d) = [] ->
  In v items ->
  match v with
  | JObj o => match obj_get "name" o with
              | Some (JStr _) | None => False
              | Some w => truthy w = true
              end
  | _ => True
  end ->
  parse_item v = Raised
  /\ handle_receipt_photo d chat (s_creator_id s) (Items items)
     = (d, ProcessingError).
Proof.
  intros Hs Hnone Hin Hbad.
  assert (Hv : parse_item v = Raised).
  { unfold Ledger.parse_item. destruct v as [| | | | | o]; try reflexivity.
    unfold get_or. destruct (obj_get "name" o) as [w |]; [| contradiction].
    destruct w; try contradiction; rewrite Hbad; reflexivity. }
  split; [exact Hv |].
  unfold Ledger.handle_receipt_photo. rewrite Hs, Z.eqb_refl, Hnone.
  cbn [negb length Nat.eqb].
  destruct items as [| x items']; [contradiction |].
  now rewrite (insert_items_raised (s_id s) v (x :: items') Hin Hv).
Qed.

(** ** What the settlements add up to *)

Lemma vsum_zeros {V} (l : list (Z * V)) :
  (vsum (map (fun p => (fst p, 0%Q)) l) == 0)%Q.
Proof.
  unfold vsum. induction l as [| p l IH]; cbn [map snd]; [reflexivity |].
  rewrite qsum_cons, IH. lra.
Qed.

Lemma items_of_unshared (d : db) (sid : Z) :
  db_sound d ->
  Forall (fun it => i_is_shared it = false) (items_of sid (resto_items d)).
Proof.
  intros Hs. apply Forall_forall. intros it Hit.
  apply filter_In in Hit as [Hit _].
  pose proof (sound_items_valid d Hs) as Hv.
  rewrite Forall_forall in Hv. now destruct (Hv it Hit) as (_ & _ & E).
Qed.

(** X8: closing a restaurant session of a reachable ledger whose receipt
    is exact (whole prices, the cost of every claimed item a whole multiple
    of the number of its claimants, costs adding up to at most 2^53, so that
    no operation rounds) charges, in all, exactly the cost of the items
    somebody claimed: the total of the answer is the sum of the shares, and
    it is the sum of price times quantity over the claimed items of the
    session.  An item nobody claimed is charged to no one, and the shared
    pool stays empty. *)
Theorem close_resto_charges_claimed_items (d : db) (s : session) (now : Z) :
  reachable d ->
  find_session (s_id s) (resto_sessions d) = Some s ->
  exact_claims (resto_choices d) (items_of (s_id s) (resto_items d)) = true ->
  exists total shares,
    close_resto d (s_id s) now
    = (with_sessions d (close_rows (s_id s) now (resto_sessions d)) (seq_sessions d),
       RestoSettled total shares)
    /\ (total == vsum shares)%Q
    /\ (total == claimed_total (resto_choices d)
                               (items_of (s_id s) (resto_items d)))%Q.
Proof.
  intros Hr Hs _. pose proof (reachable_sound d Hr) as Hsound.
  unfold close_resto. rewrite Hs.
  pose proof (creator_participates d s) as Hc.
  destruct (resto_participants d s) as [| p ps] eqn:Ep; [contradiction |].
  rewrite <- Ep in *.
  assert (K0 : Dict.keys (map (fun p => (fst p, 0%Q)) (resto_participants d s))
               = Dict.keys (resto_participants d s)).
  { unfold Dict.keys. rewrite map_map. reflexivity. }
  destruct (split_items_total (resto_choices d)
              (items_of (s_id s) (resto_items d))
              (map (fun p => (fst p, 0%Q)) (resto_participants d s)) 0%Q)
    as (t1 & s1 & E1 & K1).
  { intros it u Hit Hu. rewrite K0. now apply choosers_participate with (it := it). }
  rewrite E1.
  destruct (split_items_vsum _ _ _ _ _ _ (items_of_unshared d (s_id s) Hsound) E1)
    as [-> V].
  change (Qltb 0 0) with false. cbv iota.
  exists (sum_list (map snd t1)), t1. split; [reflexivity |].
  pose proof (sum_list_qsum (map snd t1)) as S1. fold (vsum t1) in S1.
  pose proof (vsum_zeros (resto_participants d s)) as Z0.
  split; [exact S1 | lra].
Qed.

Lemma payers_participate (d : db) (bill_id : Z) (e : expense) :
  db_sound d ->
  In e (expenses_of bill_id (expenses d)) ->
  In (e_user_id e)
     (map p_user_id (participants_of bill_id (bill_participants d))).
Proof.
  intros Hs He. apply filter_In in He as [He Eb]. apply Z.eqb_eq in Eb.
  pose proof (sound_expenses_payer d Hs) as Hp. rewrite Forall_forall in Hp.
  specialize (Hp e He). apply existsb_exists in Hp as (p & Hp & Ep).
  unfold is_participant in Ep. apply andb_true_iff in Ep as [E1 E2].
  apply Z.eqb_eq in E1, E2. apply in_map_iff. exists p. split; [exact E2 |].
  apply in_participants_of. split; [exact Hp | congruence].
Qed.

(** X4: closing a pooled bill of a reachable ledger that has a participant
    and an expense, and that is exact (whole amounts adding up to at most
    2^52, a total that the number of participants divides, so that no
    operation rounds), settles all of the money: what the participants are
    reported to have paid adds up to the total, the per-person share times
    the number of participants is the total, and the balances handed to
    [minimize_transactions] (one per participant, in the order of the user
    ids, no user twice) sum to zero, so that the credits equal the debts. *)
Theorem close_newbill_splits_the_whole_total (d : db) (bill_id now : Z) :
  reachable d ->
  participants_of bill_id (bill_participants d) <> [] ->
  expenses_of bill_id (expenses d) <> [] ->
  exact_bill d bill_id = true ->
  let participants :=
    dict_of (map (fun p => (p_user_id p, p_username p))
                 (participants_of bill_id (bill_participants d))) in
  let rows := map (fun e => (e_user_id e, e_amount e))
                  (expenses_of bill_id (expenses d)) in
  let balances := equal_split_balances participants rows in
  exists total per_person paid,
    close_newbill d bill_id now
    = (with_bills d (close_rows bill_id now (bills d)) (seq_bills d),
       BillSettled total per_person paid (minimize_transactions balances))
    /\ (total == qsum (map snd rows))%Q
    /\ (vsum paid == total)%Q
    /\ (per_person * inject_Z (Z.of_nat (length participants)) == total)%Q
    /\ NoDup (Dict.keys balances)
    /\ (vsum balances == 0)%Q
    /\ (positive_total balances == negative_total balances)%Q.
Proof.
  intros Hr Hp He _ participants rows balances.
  pose proof (reachable_sound d Hr) as Hsound.
  assert (Hne : participants <> []).
  { intros E. apply dict_of_nil, map_eq_nil in E. contradiction. }
  assert (Hrows : rows <> []).
  { intros E. apply map_eq_nil in E. contradiction. }
  assert (Hn : NoDup (Dict.keys participants)) by apply dict_of_NoDup.
  assert (Hin : forall r, In r rows -> In (fst r) (Dict.keys participants)).
  { intros r Hr'. apply in_map_iff in Hr' as (e & <- & He'). cbn [fst].
    apply keys_dict_of. rewrite map_map. cbn [fst].
    now apply payers_participate. }
  pose proof (paid_by_user_paid _ rows Hn Hin) as Epaid.
  pose proof (sum_list_qsum (map snd rows)) as Etotal.
  pose proof (balances_sum participants rows Hne) as Ebal.
  pose proof (signed_totals balances) as Esigned.
  assert (Ekeys : Dict.keys balances = Dict.keys participants).
  { unfold balances, equal_split_balances, Dict.keys. rewrite map_map.
    reflexivity. }
  exists (sum_list (map snd rows)),
    (sum_list (map snd rows) / inject_Z (Z.of_nat (length participants)))%Q,
    (map (fun p => (fst p, get0 (fst p) (user_paid_of rows))) participants).
  split; [| split; [| split; [| split; [| split; [| split]]]]].
  - unfold close_newbill. fold participants. fold rows.
    destruct participants as [| p ps] eqn:Ed; [contradiction |].
    destruct rows as [| r rs] eqn:Er; [contradiction |]. reflexivity.
  - exact Etotal.
  - unfold vsum. rewrite map_map. cbn [snd].
    unfold paid_by, Dict.keys in Epaid. rewrite map_map in Epaid. lra.
  - destruct participants as [| p ps]; [contradiction |].
    pose proof (count_succ_neq_0 (length ps)) as Hk. cbn [length].
    field_simplify_eq; [ring | exact Hk].
  - rewrite Ekeys. exact Hn.
  - fold balances in Ebal. lra.
  - fold balances in Ebal. lra.
Qed.

(** ** The keyboard after a toggle *)

(** X9: when a press on the button of an item is accepted in a reachable
    ledger, the keyboard sent back is the one the same user saw before with
    one button redrawn: the button of that item exists, its tick is
    inverted (set exactly when the answer says the item was picked) and its
    number of claimants goes up by one on a pick and down by one, from at
    least one, on a release; every other button, and the order of the
    buttons, is unchanged. *)
Theorem toggle_redraws_one_button (d d' : db) (item_id user : Z)
        (username : string) (picked : bool) (ui : list ui_row) :
  reachable d ->
  handle_item_choice d item_id user username = (d', ChoiceToggled picked ui) ->
  exists s it,
    find_item item_id (resto_items d) = Some it
    /\ find_session (i_session_id it) (resto_sessions d) = Some s
    /\ ui = map (toggle_row item_id picked) (build_resto_ui d (s_id s) user)
    /\ In item_id (map ui_item ui)
    /\ forall r, In r (build_resto_ui d (s_id s) user) -> ui_item r = item_id ->
                 ui_picked r = negb picked
                 /\ (picked = false -> (1 <= ui_count r)%nat).
Proof.
  intros Hr H. destruct (reachable_ok py_float py_int d Hr) as [_ _ _ _ _ Cu].
  unfold handle_item_choice in H.
  destruct (find_item item_id (resto_items d)) as [it |] eqn:Ei; [| discriminate].
  destruct (find_session (i_session_id it) (resto_sessions d)) as [s |] eqn:Es;
    [| discriminate].
  destruct (is_open (s_status s)); [| discriminate].
  destruct (find_item_some _ _ _ Ei) as [Hit Eid].
  destruct (find_session_some _ _ _ Es) as [_ Esid].
  exists s, it. split; [reflexivity |]. split; [exact Es |].
  assert (Hui : ui = map (toggle_row item_id picked) (build_resto_ui d (s_id s) user)).
  { injection H as Ed Ep Eu. subst ui picked. clear Ed.
    unfold build_resto_ui. cbn [resto_items resto_choices with_choices].
    rewrite map_map. apply map_ext. intros it'.
    unfold toggle_row. cbn [ui_item ui_name ui_quantity ui_total ui_count ui_picked].
    destruct (Z.eqb_spec (i_id it') item_id) as [-> | Hne].
    - destruct (existsb (is_choice item_id user) (resto_choices d)) eqn:Ex;
        cbn [negb].
      + rewrite choosers_of_remove, existsb_removed, length_removed;
          [reflexivity | now apply claims_unique_choosers |].
        rewrite <- picked_iff_claimed in Ex.
        apply existsb_exists in Ex as (v & Hv & Ev). apply Z.eqb_eq in Ev.
        now subst v.
      + rewrite choosers_of_app. cbn [c_item_id c_user_id]. rewrite Z.eqb_refl.
        rewrite existsb_app, length_app, picked_iff_claimed, Ex.
        cbn [existsb length orb]. rewrite Z.eqb_refl, Nat.add_1_r. reflexivity.
    - destruct (existsb (is_choice item_id user) (resto_choices d)).
      + now rewrite choosers_of_remove_other.
      + rewrite choosers_of_app. cbn [c_item_id].
        destruct (Z.eqb_spec item_id (i_id it')) as [E | _];
          [now symmetry in E |].
        now rewrite app_nil_r. }
  split; [exact Hui |]. split.
  - assert (Hin : In it (items_of (s_id s) (resto_items d))).
    { apply filter_In. split; [exact Hit |]. apply Z.eqb_eq. now symmetry. }
    rewrite Hui. unfold build_resto_ui. rewrite !map_map. apply in_map_iff.
    exists it. split; [| exact Hin].
    unfold toggle_row. cbn [ui_item]. now destruct (i_id it =? item_id).
  - intros r Hin Er. injection H as Ed Ep Eu. subst picked. clear Ed Eu Hui.
    unfold build_resto_ui in Hin. apply in_map_iff in Hin as (it' & <- & _).
    cbn [ui_item ui_picked ui_count] in *. rewrite Er.
    rewrite picked_iff_claimed, Bool.negb_involutive. split; [reflexivity |].
    intros Ex. apply Bool.negb_false_iff in Ex.
    rewrite <- picked_iff_claimed in Ex.
    apply existsb_exists in Ex as (v & Hv & _).
    destruct (choosers_of item_id (resto_choices d)); [contradiction |].
    cbn [length]. lia.
Qed.

(** ** C3: the claim split *)

(** C3 (amended): closing a restaurant session of a reachable ledger whose
    receipt is exact (whole prices, the cost of every claimed item a whole
    multiple of the number of its claimants, costs adding up to at most
    2^53) gives every participant a share: the share of a user is the sum,
    over the items of the session, of [price * quantity / k] for each item
    the user claimed with [k - 1] others, and of nothing for an item the
    user did not claim; an item nobody claimed adds to no share, and a
    participant who claimed nothing owes zero.  Every share is a whole
    number.  (On such a receipt no operation of the loop rounds.  In
    general the quotient is the binary64 one, which is not always
    [price * quantity / k]: [third_of_a_pizza_is_rounded].) *)
Theorem claim_split_shares (d : db) (s : session) (now : Z) :
  reachable d ->
  find_session (s_id s) (resto_sessions d) = Some s ->
  exact_claims (resto_choices d) (items_of (s_id s) (resto_items d)) = true ->
  exists total shares,
    close_resto d (s_id s) now
    = (with_sessions d (close_rows (s_id s) now (resto_sessions d)) (seq_sessions d),
       RestoSettled total shares)
    /\ Dict.keys shares = Dict.keys (resto_participants d s)
    /\ (forall u,
          (get0 u shares
           == share_of (resto_choices d) (items_of (s_id s) (resto_items d)) u)%Q)
    /\ (forall u,
          (forall c, In c (resto_choices d) -> c_user_id c <> u) ->
          (get0 u shares == 0)%Q)
    /\ (forall u, exists z : Z, (get0 u shares == inject_Z z)%Q).
Proof.
  intros Hr Hs Hexact. pose proof (reachable_sound d Hr) as Hsound.
  destruct (reachable_ok py_float py_int d Hr) as [_ _ _ _ _ Cu].
  unfold exact_claims in Hexact. apply andb_true_iff in Hexact as [Hwhole _].
  unfold close_resto. rewrite Hs.
  pose proof (creator_participates d s) as Hc.
  destruct (resto_participants d s) as [| p ps] eqn:Ep; [contradiction |].
  rewrite <- Ep in *.
  assert (K0 : Dict.keys (map (fun p => (fst p, 0%Q)) (resto_participants d s))
               = Dict.keys (resto_participants d s)).
  { unfold Dict.keys. rewrite map_map. reflexivity. }
  destruct (split_items_total (resto_choices d)
              (items_of (s_id s) (resto_items d))
              (map (fun p => (fst p, 0%Q)) (resto_participants d s)) 0%Q)
    as (t1 & s1 & E1 & K1).
  { intros it u Hit Hu. rewrite K0. now apply choosers_participate with (it := it). }
  rewrite E1.
  pose proof (items_of_unshared d (s_id s) Hsound) as Hun.
  destruct (split_items_vsum _ _ _ _ _ _ Hun E1) as [-> _].
  change (Qltb 0 0) with false. cbv iota.
  exists (sum_list (map snd t1)), t1. split; [reflexivity |].
  split; [congruence |].
  assert (Hshare : forall u,
             (get0 u t1
              == share_of (resto_choices d)
                          (items_of (s_id s) (resto_items d)) u)%Q).
  { intros u. pose proof (split_items_share _ _ Cu Hun _ _ _ _ E1 u) as E.
    rewrite get0_zeros in E. lra. }
  split; [exact Hshare |].
  split.
  2:{ intros u. destruct (share_of_whole _ _ u Hwhole) as [z Hz].
      exists z. now rewrite Hshare. }
  intros u Hu. rewrite Hshare. clear - Hu.
  induction (items_of (s_id s) (resto_items d)) as [| it items IH];
    [reflexivity |].
  rewrite share_of_cons, IH. cbv zeta.
  destruct (existsb (Z.eqb u) (choosers_of (i_id it) (resto_choices d))) eqn:Ex;
    [| lra].
  exfalso. apply existsb_exists in Ex as (v & Hv & Ev). apply Z.eqb_eq in Ev.
  subst v. unfold choosers_of in Hv. apply in_map_iff in Hv as (c & Ec & Hc).
  apply filter_In in Hc as [Hc _]. exact (Hu c Hc Ec).
Qed.

End Soundness.

(** ** Worked ledgers *)

Lemma failures_change_nothing_witness :
  let d := run10 [CmdResto 7 1 "ann" 100] in
  let u := MsgPhoto 7 1 (ItemsUnsent pizza_receipt) in
  is_success (snd (step10 d u)) = false
  /\ (fst (step10 d u) = d
      \/ exists chat user items,
          u = MsgPhoto chat user (ItemsUnsent items)
          /\ snd (step10 d u) = ProcessingError
          /\ fst (step10 d u) = fst (step10 d (MsgPhoto chat user (Items items)))).
Proof.
  cbv zeta. split; [reflexivity |].
  exact (failures_change_nothing
           Text.decimal_float Text.decimal_int (run10 [CmdResto 7 1 "ann" 100])
           (MsgPhoto 7 1 (ItemsUnsent pizza_receipt)) eq_refl).
Defined.

Lemma pooled_rows_are_consistent_witness :
  let d := run10 pizza_bill in
  reachable Text.decimal_float Text.decimal_int d
  /\ forall bill user,
      (length (filter (is_participant bill user) (bill_participants d)) <= 1)%nat.
Proof.
  cbv zeta. split; [apply reachable10 |].
  exact (proj1 (pooled_rows_are_consistent
                  Text.decimal_float Text.decimal_int (run10 pizza_bill)
                  (reachable10 pizza_bill))).
Defined.

Lemma receipt_rows_are_consistent_witness :
  let d := run10 pizza_evening in
  reachable Text.decimal_float Text.decimal_int d
  /\ forall c, In c (resto_choices d) ->
               exists it, In it (resto_items d) /\ i_id it = c_item_id c.
Proof.
  cbv zeta. split; [apply reachable10 |].
  exact (proj2 (receipt_rows_are_consistent
                  Text.decimal_float Text.decimal_int (run10 pizza_evening)
                  (reachable10 pizza_evening))).
Defined.

Lemma only_the_creator_adds_items_witness :
  let d := run10 [CmdResto 7 1 "ann" 100] in
  let u := MsgPhoto 7 1 (Items pizza_receipt) in
  resto_items (fst (step10 d u)) <> resto_items d
  /\ exists chat s result added,
      u = MsgPhoto chat (s_creator_id s) result
      /\ find_open chat (resto_sessions d) = Some s
      /\ items_of (s_id s) (resto_items d) = []
      /\ resto_items (fst (step10 d u)) = resto_items d ++ added
      /\ Forall (fun it => i_session_id it = s_id s) added.
Proof.
  cbv zeta.
  assert (Hne : resto_items (fst (step10 (run10 [CmdResto 7 1 "ann" 100])
                                         (MsgPhoto 7 1 (Items pizza_receipt))))
                <> resto_items (run10 [CmdResto 7 1 "ann" 100]))
    by discriminate.
  split; [exact Hne |].
  exact (only_the_creator_adds_items
           Text.decimal_float Text.decimal_int (run10 [CmdResto 7 1 "ann" 100])
           (MsgPhoto 7 1 (Items pizza_receipt)) Hne).
Defined.

Lemma items_are_ingested_once_witness :
  let d := run10 pizza_evening in
  let us := [MsgPhoto 7 1 (Items pizza_receipt); CbCloseResto 7 1 200] in
  items_of 1 (resto_items d) <> []
  /\ items_of 1 (resto_items (run Text.decimal_float Text.decimal_int d us))
     = items_of 1 (resto_items d).
Proof.
  cbv zeta.
  assert (Hne : items_of 1 (resto_items (run10 pizza_evening)) <> [])
    by discriminate.
  split; [exact Hne |].
  exact (items_are_ingested_once
           Text.decimal_float Text.decimal_int (run10 pizza_evening) 1
           [MsgPhoto 7 1 (Items pizza_receipt); CbCloseResto 7 1 200] Hne).
Defined.

Lemma only_the_creator_closes_witness :
  let d := run10 pizza_bill in
  let u := CmdClosebill 7 1 200 in
  let s := mkSession 1 7 1 "ann" 100 None Open in
  let s' := mkSession 1 7 1 "ann" 100 (Some 200) Closed in
  reachable Text.decimal_float Text.decimal_int d
  /\ In s (bills d)
  /\ In s' (bills (fst (step10 d u)))
  /\ exists now,
      u = CmdClosebill (s_chat_id s) (s_creator_id s) now
      /\ s_closed_at s' = Some now
      /\ participants_of (s_id s) (bill_participants d) <> []
      /\ expenses_of (s_id s) (expenses d) <> [].
Proof.
  cbv zeta.
  split; [apply reachable10 | split; [now left | split; [now left |]]].
  exact (proj1 (only_the_creator_closes
                  Text.decimal_float Text.decimal_int (run10 pizza_bill)
                  (CmdClosebill 7 1 200)
                  (mkSession 1 7 1 "ann" 100 None Open)
                  (mkSession 1 7 1 "ann" 100 (Some 200) Closed)
                  (reachable10 pizza_bill) eq_refl eq_refl eq_refl)
               (or_introl eq_refl) (or_introl eq_refl)).
Defined.

Lemma join_enables_expense_witness :
  let d := run10 [CmdNewbill 7 1 "ann" 100] in
  let b := mkSession 1 7 1 "ann" 100 None Open in
  let joined := fst (join_bill_callback d 1 2 "bob") in
  reachable Text.decimal_float Text.decimal_int d
  /\ find_open 7 (bills d) = Some b
  /\ Text.is_ascii "Taxi 12,000" = true
  /\ Text.rsplit1 (Text.strip "Taxi 12,000") = ["Taxi"%string; "12,000"%string]
  /\ Text.decimal_float
       (Text.remove_char ","%char (Text.remove_char " "%char "12,000"))
     = Some 12000%Q
  /\ Ledger.handle_expense Text.decimal_float d 7 2 "bob" "Taxi 12,000" 101
     = (d, Silent)
  /\ snd (Ledger.handle_expense Text.decimal_float joined 7 2 "bob"
                                "Taxi 12,000" 101)
     = ExpenseAdded "Taxi" 12000%Q.
Proof.
  cbv zeta.
  pose proof (join_enables_expense
                Text.decimal_float Text.decimal_int
                (run10 [CmdNewbill 7 1 "ann" 100]) 7 2 101 "bob" "Taxi 12,000"
                "Taxi" "12,000" 12000%Q (mkSession 1 7 1 "ann" 100 None Open)
                (reachable10 [CmdNewbill 7 1 "ann" 100])
                eq_refl eq_refl eq_refl eq_refl)
    as (H1 & H2 & _).
  split; [apply reachable10 |]. do 4 (split; [reflexivity |]).
  split; [exact (H1 eq_refl "Taxi 12,000"%string) | exact H2].
Defined.

Lemma closing_allows_a_new_bill_witness :
  let d := run10 pizza_bill in
  let b := mkSession 1 7 1 "ann" 100 None Open in
  let closed := fst (closebill d 7 1 200) in
  reachable Text.decimal_float Text.decimal_int d
  /\ find_open 7 (bills d) = Some b
  /\ participants_of 1 (bill_participants d) <> []
  /\ expenses_of 1 (expenses d) <> []
  /\ modest_bill d 1 = true
  /\ find_open 7 (bills closed) = None
  /\ snd (newbill closed 7 2 "bob" 300) = BillCreated 2.
Proof.
  cbv zeta.
  assert (Hp : participants_of 1 (bill_participants (run10 pizza_bill)) <> [])
    by discriminate.
  assert (He : expenses_of 1 (expenses (run10 pizza_bill)) <> [])
    by discriminate.
  pose proof (closing_allows_a_new_bill
                Text.decimal_float Text.decimal_int (run10 pizza_bill) 7 200
                (mkSession 1 7 1 "ann" 100 None Open)
                (reachable10 pizza_bill) eq_refl Hp He eq_refl) as (H1 & H2).
  split; [apply reachable10 | split; [reflexivity |]].
  split; [exact Hp | split; [exact He | split; [reflexivity | split; [exact H1 |]]]].
  exact (proj1 (H2 2 "bob"%string 300)).
Defined.

Lemma bad_item_aborts_the_receipt_witness :
  let d := run10 [CmdResto 7 1 "ann" 100] in
  let s := mkSession 1 7 1 "ann" 100 None Open in
  let items := pizza_receipt ++ [JStr "Cola 10000"] in
  find_open 7 (resto_sessions d) = Some s
  /\ items_of 1 (resto_items d) = []
  /\ In (JStr "Cola 10000") items
  /\ Ledger.handle_receipt_photo Text.decimal_float Text.decimal_int
                                 d 7 1 (Items items)
     = (d, ProcessingError).
Proof.
  cbv zeta.
  assert (Hin : In (JStr "Cola 10000") (pizza_receipt ++ [JStr "Cola 10000"])).
  { right. right. now left. }
  split; [reflexivity | split; [reflexivity | split; [exact Hin |]]].
  exact (proj2 (bad_item_aborts_the_receipt
                  Text.decimal_float Text.decimal_int
                  (run10 [CmdResto 7 1 "ann" 100]) 7
                  (mkSession 1 7 1 "ann" 100 None Open)
                  (JStr "Cola 10000") (pizza_receipt ++ [JStr "Cola 10000"])
                  eq_refl eq_refl Hin I)).
Defined.

Lemma close_resto_charges_claimed_items_witness :
  let d := run10 pizza_evening in
  let s := mkSession 1 7 1 "ann" 100 None Open in
  reachable Text.decimal_float Text.decimal_int d
  /\ find_session 1 (resto_sessions d) = Some s
  /\ exact_claims (resto_choices d) (items_of 1 (resto_items d)) = true
  /\ exists total shares,
      close_resto d 1 200
      = (with_sessions d (close_rows 1 200 (resto_sessions d)) (seq_sessions d),
         RestoSettled total shares)
      /\ (total == vsum shares)%Q
      /\ (total == claimed_total (resto_choices d) (items_of 1 (resto_items d)))%Q.
Proof.
  cbv zeta.
  split; [apply reachable10 | split; [reflexivity | split; [reflexivity |]]].
  exact (close_resto_charges_claimed_items
           Text.decimal_float Text.decimal_int (run10 pizza_evening)
           (mkSession 1 7 1 "ann" 100 None Open) 200
           (reachable10 pizza_evening) eq_refl eq_refl).
Defined.

Lemma close_newbill_splits_the_whole_total_witness :
  let d := run10 pizza_bill in
  let participants :=
    dict_of (map (fun p => (p_user_id p, p_username p))
                 (participants_of 1 (bill_participants d))) in
  let rows := map (fun e => (e_user_id e, e_amount e))
                  (expenses_of 1 (expenses d)) in
  let balances := equal_split_balances participants rows in
  reachable Text.decimal_float Text.decimal_int d
  /\ participants_of 1 (bill_participants d) <> []
  /\ expenses_of 1 (expenses d) <> []
  /\ exact_bill d 1 = true
  /\ exists total per_person paid,
      close_newbill d 1 200
      = (with_bills d (close_rows 1 200 (bills d)) (seq_bills d),
         BillSettled total per_person paid (minimize_transactions balances))
      /\ (total == qsum (map snd rows))%Q
      /\ (vsum paid == total)%Q
      /\ (per_person * inject_Z (Z.of_nat (length participants)) == total)%Q
      /\ NoDup (Dict.keys balances)
      /\ (vsum balances == 0)%Q
      /\ (positive_total balances == negative_total balances)%Q.
Proof.
  cbv zeta.
  assert (Hp : participants_of 1 (bill_participants (run10 pizza_bill)) <> [])
    by discriminate.
  assert (He : expenses_of 1 (expenses (run10 pizza_bill)) <> [])
    by discriminate.
  split; [apply reachable10 | split; [exact Hp | split; [exact He |]]].
  split; [reflexivity |].
  exact (close_newbill_splits_the_whole_total
           Text.decimal_float Text.decimal_int (run10 pizza_bill) 1 200
           (reachable10 pizza_bill) Hp He eq_refl).
Defined.

Lemma toggle_redraws_one_button_witness :
  let d := run10 pizza_evening in
  let r := handle_item_choice d 2 2 "bob" in
  reachable Text.decimal_float Text.decimal_int d
  /\ snd r = ChoiceToggled true (build_resto_ui (fst r) 1 2)
  /\ exists s it,
      find_item 2 (resto_items d) = Some it
      /\ find_session (i_session_id it) (resto_sessions d) = Some s
      /\ build_resto_ui (fst r) 1 2
         = map (toggle_row 2 true) (build_resto_ui d (s_id s) 2)
      /\ In 2 (map ui_item (build_resto_ui (fst r) 1 2))
      /\ forall row, In row (build_resto_ui d (s_id s) 2) -> ui_item row = 2 ->
                     ui_picked row = negb true
                     /\ (true = false -> (1 <= ui_count row)%nat).
Proof.
  cbv zeta. split; [apply reachable10 | split; [reflexivity |]].
  exact (toggle_redraws_one_button
           Text.decimal_float Text.decimal_int (run10 pizza_evening)
           (fst (handle_item_choice (run10 pizza_evening) 2 2 "bob"))
           2 2 "bob" true
           (build_resto_ui
              (fst (handle_item_choice (run10 pizza_evening) 2 2 "bob")) 1 2)
           (reachable10 pizza_evening) eq_refl).
Defined.

(** C3, as stated, fails: a pizza at 50000 claimed by three.  The code
    adds to the total of each of them the binary64 quotient of 50000 by 3,
    which is 4581298449066667 / 2^38 (16666.666666666668), above 50000 / 3.
    Claimed by two, the quotient is 25000, as the claim has it. *)
Lemma third_of_a_pizza_is_rounded :
  let zero := Binary64.of_Z 0 in
  let price := Binary64.of_Z 50000 in
  Binary64.value (Binary64.credit zero price 1 3)
  = Some (inject_Z 4581298449066667 * Qpower 2 (-38))%Q
  /\ (50000 * inject_Z 1 / inject_Z (Z.of_nat 3)
      < inject_Z 4581298449066667 * Qpower 2 (-38))%Q
  /\ Binary64.value (Binary64.credit zero price 1 2)
     = Some (inject_Z 6871947673600000 * Qpower 2 (-38))%Q
  /\ (inject_Z 6871947673600000 * Qpower 2 (-38)
      == 50000 * inject_Z 1 / inject_Z (Z.of_nat 2))%Q.
Proof. cbv zeta. repeat split. Qed.

Lemma claim_split_shares_witness :
  let d := run10 pizza_evening in
  let s := mkSession 1 7 1 "ann" 100 None Open in
  reachable Text.decimal_float Text.decimal_int d
  /\ find_session 1 (resto_sessions d) = Some s
  /\ exact_claims (resto_choices d) (items_of 1 (resto_items d)) = true
  /\ exists total shares,
      close_resto d 1 200
      = (with_sessions d (close_rows 1 200 (resto_sessions d)) (seq_sessions d),
         RestoSettled total shares)
      /\ Dict.keys shares = Dict.keys (resto_participants d s)
      /\ (forall u,
            (get0 u shares
             == share_of (resto_choices d) (items_of 1 (resto_items d)) u)%Q)
      /\ (forall u,
            (forall c, In c (resto_choices d) -> c_user_id c <> u) ->
            (get0 u shares == 0)%Q)
      /\ (forall u, exists z : Z, (get0 u shares == inject_Z z)%Q).
Proof.
  cbv zeta.
  split; [apply reachable10 | split; [reflexivity | split; [reflexivity |]]].
  exact (claim_split_shares
           Text.decimal_float Text.decimal_int (run10 pizza_evening)
           (mkSession 1 7 1 "ann" 100 None Open) 200
           (reachable10 pizza_evening) eq_refl eq_refl).
Defined.

End LedgerMore.


(** * More about the text of an expense *)

Module TextMore.
Import Text.

Lemma drop_spaces_head (l : list ascii) :
  match drop_spaces l with
  | [] => True
  | c :: _ => is_space c = false
  end.
Proof.
  induction l as [| c l IH]; cbn [drop_spaces]; [exact I |].
  destruct (is_space c) eqn:E; [exact IH | exact E].
Qed.

Lemma span_word_word (l : list ascii) :
  Forall (fun c => is_space c = false) (fst (span_word l)).
Proof.
  induction l as [| c l IH]; cbn [span_word]; [constructor |].
  destruct (is_space c) eqn:E; [constructor |].
  destruct (span_word l) as [w r]. cbn [fst] in *. now constructor.
Qed.

Lemma span_word_head (c : ascii) (l : list ascii) :
  is_space c = false -> fst (span_word (c :: l)) <> [].
Proof.
  intros E. cbn [span_word]. rewrite E. destruct (span_word l). discriminate.
Qed.

Lemma string_of_list_ascii_nil (l : list ascii) :
  string_of_list_ascii l = EmptyString -> l = [].
Proof. destruct l; [reflexivity | discriminate]. Qed.

(** X14: the amount token that [handle_expense] cuts off the end of a message
    is never empty and holds no whitespace, so removing the spaces from it
    changes nothing: an amount written with spaces between its groups of
    digits is read as its last group only, the other groups staying in the
    description.  The description is not empty either. *)
Theorem amount_token_has_no_space (text description token : string) :
  rsplit1 (strip text) = [description; token] ->
  token <> EmptyString
  /\ description <> EmptyString
  /\ Forall (fun c => is_space c = false) (list_ascii_of_string token)
  /\ remove_char " "%char token = token.
Proof.
  unfold rsplit1. set (r := drop_spaces (rev (list_ascii_of_string (strip text)))).
  pose proof (drop_spaces_head (rev (list_ascii_of_string (strip text)))) as Hh.
  fold r in Hh. destruct r as [| c r']; [discriminate |].
  pose proof (span_word_word (c :: r')) as Hw.
  pose proof (span_word_head c r' Hh) as Hne.
  destruct (span_word (c :: r')) as [w rest]. cbn [fst] in Hw, Hne.
  destruct (drop_spaces rest) as [| h0 h]; [discriminate |].
  intros E. inversion E as [[Ed Et]]. clear E. clear Ed Et.
  assert (Hrev : Forall (fun c0 => is_space c0 = false) (rev w)).
  { apply Forall_forall. intros x Hx. apply in_rev in Hx.
    rewrite Forall_forall in Hw. now apply Hw. }
  split; [| split; [| split]].
  - intros Hn. apply string_of_list_ascii_nil in Hn.
    apply Hne. rewrite <- (rev_involutive w), Hn. reflexivity.
  - intros Hn. apply string_of_list_ascii_nil in Hn.
    assert (Hh0 : rev (h0 :: h) <> []).
    { cbn [rev]. intros H. apply app_eq_nil in H as [_ H]. discriminate. }
    apply Hh0. exact Hn.
  - now rewrite list_ascii_of_string_of_list_ascii.
  - unfold remove_char. rewrite list_ascii_of_string_of_list_ascii.
    f_equal. apply LedgerFacts.filter_all. intros x Hx.
    rewrite Forall_forall in Hrev. specialize (Hrev x Hx).
    destruct (Ascii.eqb_spec x " "%char) as [-> | _]; [discriminate | reflexivity].
Qed.

Lemma amount_token_has_no_space_witness :
  rsplit1 (strip "Pizza 50 000") = ["Pizza 50"%string; "000"%string]
  /\ remove_char " "%char "000" = "000"%string.
Proof.
  split; [reflexivity |].
  exact (proj2 (proj2 (proj2
           (amount_token_has_no_space "Pizza 50 000" "Pizza 50" "000" eq_refl)))).
Defined.

End TextMore.
